(** * agent-pulse: the turn loop of [Agent.run] and the stream accumulator of
    the OpenAI-compatible adapters, as a shallow embedding.

    Sources embedded here:
    - [src/agent.ts]            (class [Agent], method [run]);
    - [src/providers/openai.ts] (class [OpenAIProvider], method [generate],
      from the stream loop on; [GrokProvider.generate] has the same text for
      that part);
    - [src/providers/google.ts] (class [GoogleProvider]: the end of
      [generate], from [let finalContent] on, and the constructor);
    - [src/types.ts]            (the record shapes);
    - further down, the request part of [OpenAIProvider.generate],
      [src/utils/file-utils.ts], [src/providers/index.ts] ([createProvider],
      with the constructors of the three providers), [src/chain.ts]
      ([chain]) and [src/sse.ts] ([bridgeToSSE]).

    JavaScript values are an inductive type, thrown values are an explicit
    outcome, and every collaborator the agent calls (provider, tools,
    persistence hook, clock) is a function over an abstract world [W]. *)

From Stdlib Require Import ZArith String Ascii List Lia DecimalString.
From stdpp Require Import base option list strings.
Import ListNotations.

Local Open Scope string_scope.
Local Open Scope list_scope.
Local Open Scope Z_scope.

(** ** JavaScript values *)

Set Warnings "-register-all".

Module JS.

(** A number is kept as the decimal value [mantissa * 10 ^ exponent], which
    is what a JSON literal denotes; nothing in the embedded code does
    arithmetic on tool results or model output. *)
Inductive JSValue : Type :=
| JUndefined
| JNull
| JBool (b : bool)
| JNum (mantissa exponent : Z)
| JStr (s : string)
| JArr (items : list JSValue)
| JObj (fields : list (string * JSValue)).

(** Values that reach a [catch] clause: an [Error] instance (its [name]
    and [message]) or a string primitive. These are the two shapes that
    [e instanceof Error ? e.message : String(e)] tells apart. *)
Inductive Thrown : Type :=
| ThrowError (name message : string)
| ThrowString (s : string).

Definition TypeError (msg : string) : Thrown := ThrowError "TypeError" msg.
Definition SyntaxError (msg : string) : Thrown := ThrowError "SyntaxError" msg.
Definition Error (msg : string) : Thrown := ThrowError "Error" msg.

(** [ToBoolean]. *)
Definition truthy (v : JSValue) : bool :=
  match v with
  | JUndefined | JNull => false
  | JBool b => b
  | JNum m _ => negb (m =? 0)
  | JStr s => negb (String.eqb s EmptyString)
  | JArr _ | JObj _ => true
  end.

(** Truthiness of an optional string ([undefined] when absent). *)
Definition truthy_str (o : option string) : bool :=
  match o with
  | Some s => negb (String.eqb s EmptyString)
  | None => false
  end.

(** [a || b] on values. *)
Definition js_or (a b : JSValue) : JSValue := if truthy a then a else b.

(** [v !== null]: [undefined] is not [null]. *)
Definition is_null (v : JSValue) : bool :=
  match v with JNull => true | _ => false end.

(** [x += s] where [x] is a possibly missing string property: a missing
    property reads as [undefined], and [undefined + s] is the text
    ["undefined"] followed by [s]. *)
Definition plus_assign (x : option string) (s : string) : string :=
  match x with
  | Some old => old +:+ s
  | None => "undefined" +:+ s
  end.

(** A number of the configuration. The agent compares its ceiling with
    whole numbers only ([iterations < maxIterations], [maxIterations === 1]),
    so a number that is not whole is kept by the whole number just below it:
    [Between n] is any number strictly between [n] and [n + 1]. *)
Inductive JSNumber : Type :=
| Integer (n : Z)
| Between (n : Z)
| PlusInfinity
| MinusInfinity
| NaN.

Coercion Integer : Z >-> JSNumber.

(** [ToBoolean] on a number: [0] and [NaN] are falsy. *)
Definition truthy_number (x : JSNumber) : bool :=
  match x with
  | Integer n => negb (n =? 0)
  | NaN => false
  | Between _ | PlusInfinity | MinusInfinity => true
  end.

(** [i < x] for a whole number [i]. *)
Definition less_than (i : Z) (x : JSNumber) : bool :=
  match x with
  | Integer n => i <? n
  | Between n => i <=? n
  | PlusInfinity => true
  | MinusInfinity | NaN => false
  end.

(** [x < 0]. *)
Definition negative (x : JSNumber) : bool :=
  match x with
  | Integer n | Between n => n <? 0
  | MinusInfinity => true
  | PlusInfinity | NaN => false
  end.

(** [x === 1]. *)
Definition is_one (x : JSNumber) : bool :=
  match x with
  | Integer n => n =? 1
  | _ => false
  end.

(** The whole numbers from [i] on that are less than [x]: how many there
    are, [None] when there is no end to them. *)
Definition turns_left (x : JSNumber) (i : Z) : option nat :=
  match x with
  | Integer n => Some (Z.to_nat (n - i))
  | Between n => Some (Z.to_nat (n + 1 - i))
  | PlusInfinity => None
  | MinusInfinity | NaN => Some 0%nat
  end.

(** [Error.prototype.toString] and [String] on a string primitive. *)
Definition String_of (e : Thrown) : string :=
  match e with
  | ThrowError name message =>
      if String.eqb name EmptyString then message
      else if String.eqb message EmptyString then name
      else name +:+ ": " +:+ message
  | ThrowString s => s
  end.

(** [e instanceof Error ? e.message : String(e)]. *)
Definition message_or_string (e : Thrown) : string :=
  match e with
  | ThrowError _ message => message
  | ThrowString s => s
  end.

(** [error.message || String(error)]: reading [message] on a string
    primitive gives [undefined]. *)
Definition message_or_else_string (e : Thrown) : string :=
  match e with
  | ThrowError _ message =>
      if negb (String.eqb message EmptyString) then message else String_of e
  | ThrowString s => s
  end.

End JS.
Export JS.

(** ** JSON text

    [JSON.parse] and [JSON.stringify] are built-ins of the host. The agent
    and the adapter are embedded over an abstract [Json] interface; the
    instance below reads the JSON grammar over ASCII text (no [\u] escape
    above one byte) and is the one used on concrete streams. *)

Class Json : Type := {
  JSON_parse : string -> Thrown + JSValue;
  JSON_stringify : JSValue -> JSValue
}.

Module JsonText.

Definition dquote : ascii := ascii_of_nat 34.

Definition is_ws (c : ascii) : bool :=
  match c with
  | " "%char | "009"%char | "010"%char | "013"%char => true
  | _ => false
  end.

Fixpoint skip_ws (s : string) : string :=
  match s with
  | String c r => if is_ws c then skip_ws r else s
  | EmptyString => s
  end.

Definition digit_of (c : ascii) : option Z :=
  let n := Z.of_nat (nat_of_ascii c) in
  if (48 <=? n) && (n <=? 57) then Some (n - 48) else None.

Definition hex_of (c : ascii) : option Z :=
  let n := Z.of_nat (nat_of_ascii c) in
  if (48 <=? n) && (n <=? 57) then Some (n - 48)
  else if (65 <=? n) && (n <=? 70) then Some (n - 55)
  else if (97 <=? n) && (n <=? 102) then Some (n - 87)
  else None.

(** Reads a maximal run of digits: its value, its length, the rest. *)
Fixpoint read_digits (s : string) (acc : Z) (len : Z) : Z * Z * string :=
  match s with
  | String c r =>
      match digit_of c with
      | Some d => read_digits r (10 * acc + d) (len + 1)
      | None => (acc, len, s)
      end
  | EmptyString => (acc, len, s)
  end.

(** A JSON number: optional minus, an integer part without leading zero,
    an optional fraction, an optional exponent. *)
Definition parse_number (s : string) : option (JSValue * string) :=
  let '(neg, s1) :=
    match s with String "-"%char r => (true, r) | _ => (false, s) end in
  let '(ip, ilen, s2) := read_digits s1 0 0 in
  let leading_zero :=
    match s1 with String "0"%char _ => true | _ => false end in
  if (ilen =? 0) || (leading_zero && (1 <? ilen)) then None else
  let frac :=
    match s2 with
    | String "."%char r =>
        let '(m, flen, s3) := read_digits r ip 0 in
        if flen =? 0 then None else Some (m, flen, s3)
    | _ => Some (ip, 0, s2)
    end in
  match frac with
  | None => None
  | Some (m, flen, s3) =>
      let signed := if neg then - m else m in
      match s3 with
      | String c r =>
          if Ascii.eqb c "e" || Ascii.eqb c "E" then
            let '(eneg, r1) :=
              match r with
              | String "-"%char r' => (true, r')
              | String "+"%char r' => (false, r')
              | _ => (false, r)
              end in
            let '(e, elen, s4) := read_digits r1 0 0 in
            if elen =? 0 then None
            else Some (JNum signed ((if eneg then - e else e) - flen), s4)
          else Some (JNum signed (- flen), s3)
      | EmptyString => Some (JNum signed (- flen), s3)
      end
  end.

Definition read_hex4 (s : string) : option (Z * string) :=
  match s with
  | String a (String b (String c (String d r))) =>
      match hex_of a, hex_of b, hex_of c, hex_of d with
      | Some x, Some y, Some z, Some w =>
          Some (((x * 16 + y) * 16 + z) * 16 + w, r)
      | _, _, _, _ => None
      end
  | _ => None
  end.

(** The characters of a string literal after its opening quote. *)
Fixpoint parse_chars (fuel : nat) (s : string) (acc : string)
  : option (string * string) :=
  match fuel with
  | O => None
  | S n =>
      match s with
      | EmptyString => None
      | String "\"%char (String e r) =>
          let push c := parse_chars n r (acc +:+ String c EmptyString) in
          if Ascii.eqb e dquote then push dquote else
          match e with
          | "\"%char => push "\"%char
          | "/"%char => push "/"%char
          | "b"%char => push "008"%char
          | "f"%char => push "012"%char
          | "n"%char => push "010"%char
          | "r"%char => push "013"%char
          | "t"%char => push "009"%char
          | "u"%char =>
              match read_hex4 r with
              | Some (code, r') =>
                  if code <? 256
                  then parse_chars n r'
                         (acc +:+ String (ascii_of_nat (Z.to_nat code)) EmptyString)
                  else None
              | None => None
              end
          | _ => None
          end
      | String c r =>
          if Ascii.eqb c dquote then Some (acc, r)
          else if Z.of_nat (nat_of_ascii c) <? 32 then None
          else parse_chars n r (acc +:+ String c EmptyString)
      end
  end.

(** Property definition keeps the position of a key that is already there. *)
Fixpoint obj_set (fields : list (string * JSValue)) (k : string) (v : JSValue)
  : list (string * JSValue) :=
  match fields with
  | [] => [(k, v)]
  | (k', v') :: rest =>
      if String.eqb k k' then (k', v) :: rest else (k', v') :: obj_set rest k v
  end.

Definition strip_prefix (p s : string) : option string :=
  if String.prefix p s
  then Some (String.substring (String.length p) (String.length s - String.length p) s)
  else None.

Section Value.
Variable parse_value : string -> option (JSValue * string).

(** After an element: [,] then another element, or the closing bracket. *)
Fixpoint parse_elements (fuel : nat) (s : string) (acc : list JSValue)
  : option (JSValue * string) :=
  match fuel with
  | O => None
  | S n =>
      match parse_value s with
      | None => None
      | Some (v, r) =>
          match skip_ws r with
          | String ","%char r' => parse_elements n r' (acc ++ [v])
          | String "]"%char r' => Some (JArr (acc ++ [v]), r')
          | _ => None
          end
      end
  end.

Fixpoint parse_members (fuel : nat) (s : string) (acc : list (string * JSValue))
  : option (JSValue * string) :=
  match fuel with
  | O => None
  | S n =>
      match skip_ws s with
      | String c r =>
          if negb (Ascii.eqb c dquote) then None else
          match parse_chars (S (String.length r)) r EmptyString with
          | None => None
          | Some (k, r1) =>
              match skip_ws r1 with
              | String ":"%char r2 =>
                  match parse_value r2 with
                  | None => None
                  | Some (v, r3) =>
                      match skip_ws r3 with
                      | String ","%char r4 => parse_members n r4 (obj_set acc k v)
                      | String "}"%char r4 => Some (JObj (obj_set acc k v), r4)
                      | _ => None
                      end
                  end
              | _ => None
              end
          end
      | EmptyString => None
      end
  end.

End Value.

Fixpoint parse_value (fuel : nat) (s : string) : option (JSValue * string) :=
  match fuel with
  | O => None
  | S n =>
      let s := skip_ws s in
      match s with
      | EmptyString => None
      | String "{"%char r =>
          match skip_ws r with
          | String "}"%char r' => Some (JObj [], r')
          | _ => parse_members (parse_value n) (S (String.length r)) r []
          end
      | String "["%char r =>
          match skip_ws r with
          | String "]"%char r' => Some (JArr [], r')
          | _ => parse_elements (parse_value n) (S (String.length r)) r []
          end
      | String c r =>
          if Ascii.eqb c dquote then
            match parse_chars (S (String.length r)) r EmptyString with
            | Some (str, r') => Some (JStr str, r')
            | None => None
            end
          else
          match strip_prefix "true" s, strip_prefix "false" s, strip_prefix "null" s with
          | Some r, _, _ => Some (JBool true, r)
          | _, Some r, _ => Some (JBool false, r)
          | _, _, Some r => Some (JNull, r)
          | _, _, _ => parse_number s
          end
      end
  end.

Definition parse (text : string) : Thrown + JSValue :=
  match parse_value (S (String.length text)) text with
  | Some (v, rest) =>
      match skip_ws rest with
      | EmptyString => inr v
      | _ => inl (SyntaxError "Unexpected non-whitespace character after JSON")
      end
  | None => inl (SyntaxError "Unexpected token in JSON")
  end.

End JsonText.

(** *** Printing: the text [JSON.stringify] gives for a value *)

Module JsonPrint.
Import JsonText.

Definition string_of_Z (z : Z) : string := NilZero.string_of_int (Z.to_int z).

(** The decimal digits without their trailing zeros, and the exponent
    that goes with them. *)
Fixpoint strip_zeros (fuel : nat) (m e : Z) : Z * Z :=
  match fuel with
  | O => (m, e)
  | S fuel =>
      if (m mod 10 =? 0) && negb (m =? 0) then strip_zeros fuel (m / 10) (e + 1)
      else (m, e)
  end.

Fixpoint zeros (n : nat) : string :=
  match n with
  | O => EmptyString
  | S n => String "0"%char (zeros n)
  end.

(** [Number::toString] on the decimal digits of the number, [k] digits with
    the decimal point after the [n]-th: positional notation when the point
    falls within 21 digits to the right and 6 zeros to the left, exponent
    notation otherwise. The digits are those of the literal: the host
    prints a number that a double does not hold exactly (beyond 2^53, or
    with more than 15 significant digits) from the digits of the double. *)
Definition number_text (m e : Z) : string :=
  if m =? 0 then "0"
  else
    let '(d, x) := strip_zeros (Z.to_nat (Z.log2 (Z.abs m)) + 1) (Z.abs m) e in
    let digits := string_of_Z d in
    let k := Z.of_nat (String.length digits) in
    let n := k + x in
    (if m <? 0 then "-" else EmptyString) +:+
    (if (k <=? n) && (n <=? 21) then digits +:+ zeros (Z.to_nat (n - k))
     else if (0 <? n) && (n <=? 21)
     then substring 0 (Z.to_nat n) digits +:+ "." +:+
          substring (Z.to_nat n) (Z.to_nat (k - n)) digits
     else if (-6 <? n) && (n <=? 0) then "0." +:+ zeros (Z.to_nat (- n)) +:+ digits
     else
       let exponent :=
         (if n - 1 <? 0 then "-" else "+") +:+ string_of_Z (Z.abs (n - 1)) in
       if k =? 1 then digits +:+ "e" +:+ exponent
       else substring 0 1 digits +:+ "." +:+ substring 1 (Z.to_nat (k - 1)) digits
            +:+ "e" +:+ exponent).

Definition hex_digit (n : Z) : ascii :=
  ascii_of_nat (Z.to_nat (if n <? 10 then 48 + n else 87 + n)).

Definition escape_char (c : ascii) : string :=
  let one x := String "\"%char (String x EmptyString) in
  let n := Z.of_nat (nat_of_ascii c) in
  if Ascii.eqb c dquote then one dquote
  else match c with
       | "\"%char => one "\"%char
       | "008"%char => one "b"%char
       | "012"%char => one "f"%char
       | "010"%char => one "n"%char
       | "013"%char => one "r"%char
       | "009"%char => one "t"%char
       | _ =>
           if n <? 32
           then "\u00" +:+ String (hex_digit (n / 16)) (String (hex_digit (n mod 16)) EmptyString)
           else String c EmptyString
       end.

Fixpoint escape (s : string) : string :=
  match s with
  | EmptyString => EmptyString
  | String c r => escape_char c +:+ escape r
  end.

Definition quote (s : string) : string :=
  String dquote (escape s) +:+ String dquote EmptyString.

Fixpoint join (sep : string) (parts : list string) : string :=
  match parts with
  | [] => EmptyString
  | [p] => p
  | p :: rest => p +:+ sep +:+ join sep rest
  end.

Fixpoint keep_some {A : Type} (l : list (option A)) : list A :=
  match l with
  | [] => []
  | Some a :: rest => a :: keep_some rest
  | None :: rest => keep_some rest
  end.

(** [None] stands for the result [undefined]. Inside an array [undefined]
    prints as [null]; a property whose value is [undefined] is left out. *)
Fixpoint text_of (v : JSValue) : option string :=
  match v with
  | JUndefined => None
  | JNull => Some "null"
  | JBool b => Some (if b then "true" else "false")
  | JNum m e => Some (number_text m e)
  | JStr s => Some (quote s)
  | JArr items =>
      Some ("[" +:+
            join "," (List.map (fun x => match text_of x with
                                         | Some t => t
                                         | None => "null"
                                         end) items) +:+ "]")
  | JObj fields =>
      Some ("{" +:+
            join "," (keep_some
                        (List.map (fun kv => match text_of (snd kv) with
                                             | Some t => Some (quote (fst kv) +:+ ":" +:+ t)
                                             | None => None
                                             end) fields)) +:+ "}")
  end.

Definition stringify (v : JSValue) : JSValue :=
  match text_of v with
  | Some t => JStr t
  | None => JUndefined
  end.

End JsonPrint.

(** The host's JSON built-ins on the fragment above. *)
Definition host_json : Json :=
  {| JSON_parse := JsonText.parse; JSON_stringify := JsonPrint.stringify |}.

(** ** Record shapes ([src/types.ts]) *)

Definition nl : string := String "010"%char EmptyString.
Definition qt : string := String JsonText.dquote EmptyString.

(** A zod schema, through its [parse] method: the parsed data, or the
    [ZodError] it throws. *)
Definition ZodType : Type := JSValue -> Thrown + JSValue.

Inductive Role : Type := Rsystem | Ruser | Rassistant | Rtool.

(** An entry of [tool_calls], as the adapters build it. *)
Record ToolCall : Type := {
  call_name : option string;
  call_arguments : JSValue;
  call_id : option string
}.

Record Usage : Type := {
  input_tokens : Z;
  output_tokens : Z;
  total_tokens : Z;
  reasoning_tokens : option Z
}.

Record Meta : Type := {
  model : string;
  latency_ms : Z;
  meta_extra : list (string * JSValue)
}.

(** An element of a [tool_calls] array is [None] where the array has a hole
    (the adapter can leave one, see [array_set] below). *)
Record AgentMessage : Type := {
  msg_role : Role;
  msg_content : JSValue;
  msg_name : option string;
  msg_tool_calls : option (list (option ToolCall));
  msg_tool_call_id : option string;
  msg_usage : option Usage;
  msg_meta : option Meta
}.

Record AgentResponse : Type := {
  content : JSValue;
  tool_calls : option (list (option ToolCall));
  message : option string;
  usage : Usage;
  meta : Meta
}.

Definition set_message (r : AgentResponse) (m : option string) : AgentResponse :=
  {| content := content r; tool_calls := tool_calls r; message := m;
     usage := usage r; meta := meta r |}.

Definition set_content (r : AgentResponse) (c : JSValue) : AgentResponse :=
  {| content := c; tool_calls := tool_calls r; message := message r;
     usage := usage r; meta := meta r |}.

Definition set_latency_ms (r : AgentResponse) (ms : Z) : AgentResponse :=
  {| content := content r; tool_calls := tool_calls r; message := message r;
     usage := usage r;
     meta := {| model := model (meta r); latency_ms := ms;
                meta_extra := meta_extra (meta r) |} |}.

(** [typeof v === 'string']. *)
Definition is_string (v : JSValue) : bool :=
  match v with JStr _ => true | _ => false end.

(** The argument of [run]: [string | AgentMessage[]]. *)
Inductive Input : Type :=
| InputText (text : string)
| InputHistory (history : list AgentMessage).

(** The collaborators act on a world [W]; each returns what it throws or
    what it resolves to, and the world it leaves. *)
Record AgentTool (W : Type) : Type := {
  tool_name : string;
  description : string;
  parameters : ZodType;
  execute : JSValue -> W -> (Thrown + JSValue) * W
}.
Arguments tool_name {W} _.
Arguments description {W} _.
Arguments parameters {W} _.
Arguments execute {W} _ _ _.

(** [generate(system, prompt, files, tools, config, output_schema, onToken)]:
    the strings handed to [onToken], in order, are part of the result. *)
Record LLMProvider (W : Type) : Type := {
  generate :
    option string -> list AgentMessage -> option (list string) ->
    option (list (AgentTool W)) -> option (list (string * JSValue)) ->
    option ZodType -> W -> list string * (Thrown + AgentResponse) * W
}.
Arguments generate {W} _ _ _ _ _ _ _ _.

Record AgentConfig (W : Type) : Type := {
  name : string;
  provider : LLMProvider W;
  prompt : option string;
  system : option string;
  files : option (list string);
  config : option (list (string * JSValue));
  tools : option (list (AgentTool W));
  output_schema : option ZodType;
  saveFunction : option (AgentMessage -> W -> (Thrown + unit) * W);
  max_tool_iterations : option JSNumber
}.
Arguments name {W} _.
Arguments provider {W} _.
Arguments prompt {W} _.
Arguments system {W} _.
Arguments files {W} _.
Arguments config {W} _.
Arguments tools {W} _.
Arguments output_schema {W} _.
Arguments saveFunction {W} _.
Arguments max_tool_iterations {W} _.

(** [Date.now()] reads the clock of the world. *)
Class Clock (W : Type) : Type := { now : W -> Z }.

(** ** The stream accumulator of [OpenAIProvider.generate]
    ([src/providers/openai.ts], from [let fullContent = ''] to the [return];
    [GrokProvider.generate] repeats it).

    The request built before it only selects which chunks arrive, so the
    embedding starts from the chunks. *)

Module OpenAI.

(** [tc.function]: both properties are optional in the SDK's type. *)
Record FunctionDelta : Type := {
  fn_name : option string;
  fn_arguments : option string
}.

(** [ChatCompletionChunk.Choice.Delta.ToolCall]. *)
Record ToolCallDelta : Type := {
  index : nat;
  id : option string;
  function : option FunctionDelta
}.

(** [chunk.choices[0]?.delta]. *)
Record Delta : Type := {
  delta_content : option string;
  delta_tool_calls : option (list ToolCallDelta)
}.

Record ChunkUsage : Type := {
  prompt_tokens : Z;
  completion_tokens : Z;
  chunk_total_tokens : Z
}.

Record Chunk : Type := {
  delta : option Delta;
  chunk_usage : option ChunkUsage
}.

(** The local variables of the stream loop, and what [onToken] received. *)
Record Acc : Type := {
  fullContent : string;
  toolCalls : list (option ToolCallDelta);
  acc_usage : Usage;
  emitted : list string
}.

Definition init_acc : Acc :=
  {| fullContent := EmptyString; toolCalls := [];
     acc_usage := {| input_tokens := 0; output_tokens := 0; total_tokens := 0;
                     reasoning_tokens := None |};
     emitted := [] |}.

(** [a[i]] on an array with holes: [undefined] on a hole and past the end. *)
Definition array_get {A : Type} (a : list (option A)) (i : nat) : option A :=
  mjoin (a !! i).

(** [a[i] = x]: in range the slot is overwritten, past the end the array
    grows and the slots in between are holes. *)
Definition array_set {A : Type} (a : list (option A)) (i : nat) (x : A)
  : list (option A) :=
  if (i <? length a)%nat then <[i := Some x]> a
  else a ++ replicate (i - length a)%nat None ++ [Some x].

Definition no_function : Thrown :=
  TypeError "Cannot read properties of undefined".

(** [if (tc.function?.name) toolCalls[index].function!.name += tc.function.name]:
    the slot's [function] must be there, its [name] need not. *)
Definition merge_name (cur tc : ToolCallDelta) : Thrown + ToolCallDelta :=
  match function tc with
  | Some f =>
      match fn_name f with
      | Some n =>
          if negb (String.eqb n EmptyString) then
            match function cur with
            | Some g =>
                inr {| index := index cur; id := id cur;
                       function := Some {| fn_name := Some (plus_assign (fn_name g) n);
                                           fn_arguments := fn_arguments g |} |}
            | None => inl no_function
            end
          else inr cur
      | None => inr cur
      end
  | None => inr cur
  end.

(** [if (tc.function?.arguments) toolCalls[index].function!.arguments += ...]. *)
Definition merge_arguments (cur tc : ToolCallDelta) : Thrown + ToolCallDelta :=
  match function tc with
  | Some f =>
      match fn_arguments f with
      | Some a =>
          if negb (String.eqb a EmptyString) then
            match function cur with
            | Some g =>
                inr {| index := index cur; id := id cur;
                       function := Some {| fn_name := fn_name g;
                                           fn_arguments := Some (plus_assign (fn_arguments g) a) |} |}
            | None => inl no_function
            end
          else inr cur
      | None => inr cur
      end
  | None => inr cur
  end.

(** One turn of [for (const tc of chunkToolCalls)]. *)
Definition accumulate_tool_call (calls : list (option ToolCallDelta))
    (tc : ToolCallDelta) : Thrown + list (option ToolCallDelta) :=
  match array_get calls (index tc) with
  | None => inr (array_set calls (index tc) tc)
  | Some cur =>
      match merge_name cur tc with
      | inl e => inl e
      | inr cur1 =>
          match merge_arguments cur1 tc with
          | inl e => inl e
          | inr cur2 => inr (<[index tc := Some cur2]> calls)
          end
      end
  end.

Fixpoint accumulate_tool_calls (calls : list (option ToolCallDelta))
    (tcs : list ToolCallDelta) : Thrown + list (option ToolCallDelta) :=
  match tcs with
  | [] => inr calls
  | tc :: rest =>
      match accumulate_tool_call calls tc with
      | inl e => inl e
      | inr calls' => accumulate_tool_calls calls' rest
      end
  end.

(** The body of [for await (const chunk of stream)]. *)
Definition on_chunk (acc : Acc) (chunk : Chunk) : Thrown * Acc + Acc :=
  let acc1 :=
    match delta chunk with
    | Some d =>
        match delta_content d with
        | Some token =>
            if negb (String.eqb token EmptyString)
            then {| fullContent := fullContent acc +:+ token;
                    toolCalls := toolCalls acc; acc_usage := acc_usage acc;
                    emitted := emitted acc ++ [token] |}
            else acc
        | None => acc
        end
    | None => acc
    end in
  let calls :=
    match delta chunk with
    | Some d =>
        match delta_tool_calls d with
        | Some tcs => accumulate_tool_calls (toolCalls acc1) tcs
        | None => inr (toolCalls acc1)
        end
    | None => inr (toolCalls acc1)
    end in
  match calls with
  | inl e => inl (e, acc1)
  | inr calls' =>
      inr {| fullContent := fullContent acc1; toolCalls := calls';
             acc_usage :=
               match chunk_usage chunk with
               | Some u => {| input_tokens := prompt_tokens u;
                              output_tokens := completion_tokens u;
                              total_tokens := chunk_total_tokens u;
                              reasoning_tokens := None |}
               | None => acc_usage acc1
               end;
             emitted := emitted acc1 |}
  end.

Fixpoint stream_loop (stream : list Chunk) (acc : Acc) : Thrown * Acc + Acc :=
  match stream with
  | [] => inr acc
  | chunk :: rest =>
      match on_chunk acc chunk with
      | inl failed => inl failed
      | inr acc' => stream_loop rest acc'
      end
  end.

Section WithJson.
Context {J : Json}.

(** [try { finalContent = JSON.parse(fullContent); output_schema.parse(finalContent) }
     catch (e) { console.warn(...) }]: the content and the warnings logged.
    The assignment comes before the validation. *)
Definition structured_output (schema : ZodType) (text : string)
  : JSValue * list Thrown :=
  match JSON_parse text with
  | inl e => (JStr text, [e])
  | inr v =>
      match schema v with
      | inl e => (v, [e])
      | inr _ => (v, [])
      end
  end.

(** The callback of [toolCalls.map]. *)
Definition generic_tool_call (tc : ToolCallDelta) : Thrown + ToolCall :=
  let fname := match function tc with Some f => fn_name f | None => None end in
  let fargs := match function tc with Some f => fn_arguments f | None => None end in
  match fargs with
  | Some a =>
      if negb (String.eqb a EmptyString) then
        match JSON_parse a with
        | inl e => inl e
        | inr v => inr {| call_name := fname; call_arguments := v; call_id := id tc |}
        end
      else inr {| call_name := fname; call_arguments := JObj []; call_id := id tc |}
  | None => inr {| call_name := fname; call_arguments := JObj []; call_id := id tc |}
  end.

(** [Array.prototype.map] keeps holes and does not call back on them. *)
Fixpoint map_tool_calls (calls : list (option ToolCallDelta))
  : Thrown + list (option ToolCall) :=
  match calls with
  | [] => inr []
  | None :: rest =>
      match map_tool_calls rest with
      | inl e => inl e
      | inr out => inr (None :: out)
      end
  | Some tc :: rest =>
      match generic_tool_call tc with
      | inl e => inl e
      | inr c =>
          match map_tool_calls rest with
          | inl e => inl e
          | inr out => inr (Some c :: out)
          end
      end
  end.

(** What a call of [generate] leaves behind: the tokens given to [onToken],
    the warnings on the console, and the response or the error thrown. *)
Record Generated : Type := {
  tokens : list string;
  warnings : list Thrown;
  result : Thrown + AgentResponse
}.

Definition generate_from_stream (model_name : string)
    (output_schema : option ZodType) (stream : list Chunk) : Generated :=
  match stream_loop stream init_acc with
  | inl (e, acc) => {| tokens := emitted acc; warnings := []; result := inl e |}
  | inr acc =>
      let '(finalContent, warned) :=
        match output_schema with
        | Some schema =>
            if (length (toolCalls acc) =? 0)%nat
            then structured_output schema (fullContent acc)
            else (JStr (fullContent acc), [])
        | None => (JStr (fullContent acc), [])
        end in
      let genericToolCalls :=
        if (0 <? length (toolCalls acc))%nat
        then match map_tool_calls (toolCalls acc) with
             | inl e => inl e
             | inr cs => inr (Some cs)
             end
        else inr None in
      {| tokens := emitted acc;
         warnings := warned;
         result :=
           match genericToolCalls with
           | inl e => inl e
           | inr tcs =>
               inr {| content := finalContent; tool_calls := tcs; message := None;
                      usage := acc_usage acc;
                      meta := {| model := model_name; latency_ms := 0;
                                 meta_extra := [] |} |}
           end |}
  end.

End WithJson.

(** A provider whose vendor answers every request with the same chunks. *)
Definition streaming_provider {J : Json} (W : Type) (model_name : string)
    (stream : list Chunk) : LLMProvider W :=
  {| generate := fun _ _ _ _ _ output_schema w =>
       let g := generate_from_stream model_name output_schema stream in
       (tokens g, result g, w) |}.

End OpenAI.

(** ** The end of [GoogleProvider.generate]
    ([src/providers/google.ts], from [let finalContent] to the [return]) *)

Module Google.

Section WithJson.
Context {J : Json}.

(** [try { finalContent = JSON.parse(fullText) } catch (e) { /* ignore */ }]:
    the content and the warnings logged. Nothing is validated against the
    schema and nothing is logged. *)
Definition structured_output (text : string) : JSValue * list Thrown :=
  match JSON_parse text with
  | inl _ => (JStr text, [])
  | inr v => (v, [])
  end.

(** From [let finalContent] to the [return], on what the stream loop left:
    the warnings on the console and the response. *)
Definition finish (model_name : string) (output_schema : option ZodType)
    (fullText : string) (toolCalls : list ToolCall) (usage : Usage)
    (groundingMetadata : JSValue) : list Thrown * AgentResponse :=
  let '(finalContent, warned) :=
    match output_schema, toolCalls with
    | Some _, [] => structured_output fullText
    | _, _ => (JStr fullText, [])
    end in
  (warned,
   {| content := finalContent;
      tool_calls :=
        match toolCalls with
        | [] => None
        | _ :: _ => Some (List.map Some toolCalls)
        end;
      message := None;
      usage := usage;
      meta := {| model := model_name; latency_ms := 0;
                 meta_extra := [("groundingMetadata", groundingMetadata)] |} |}).

End WithJson.

End Google.

(** ** The turn loop ([src/agent.ts]) *)

(** The notifications of the [EventEmitter], by event name. Emitting is
    modelled as recording the call of [this.emit]: listeners observe and do
    not throw. The emitter itself throws on an ['error'] event nobody
    listens to (see [emit_error] below). *)
Inductive Event : Type :=
| ev_start (timestamp : Z) (inputContext : Input)
| ev_token (t : string)
| ev_tool_start (tool : string) (arguments : JSValue)
| ev_tool_end (tool : string) (result : JSValue)
| ev_response (r : AgentResponse)
| ev_error (error_key message : string) (details : Thrown).

(** What a run leaves observable, in order: notifications, console lines,
    and each call to a collaborator with what it gave back. *)
Inductive Obs : Type :=
| Emit (e : Event)
| ConsoleError (label : string) (e : Thrown)
| CallGenerate (history : list AgentMessage) (result : Thrown + AgentResponse)
| CallExecute (tool : string) (args : JSValue) (result : Thrown + JSValue)
| CallSave (m : AgentMessage) (result : Thrown + unit).

(** The locals of [run], with the world and the observations so far.
    Assignments made inside a [try] block survive into its [catch]. *)
Record RunState (W : Type) : Type := {
  world : W;
  trace : list Obs;
  messages : list AgentMessage;
  iterations : Z;
  lastResponse : option AgentResponse;
  lastToolResult : JSValue
}.
Arguments world {W} _.
Arguments trace {W} _.
Arguments messages {W} _.
Arguments iterations {W} _.
Arguments lastResponse {W} _.
Arguments lastToolResult {W} _.

(** The agent as an [EventEmitter]: whether a listener for ['error'] is
    attached while [run] goes, and the text [util.inspect] gives for the
    payload of an error notification. *)
Class Emitter : Type := {
  error_listener : bool;
  inspect_error : string -> string -> Thrown -> string
}.

(** The same emitter once a listener for ['error'] is attached. *)
Definition listening (E : Emitter) : Emitter :=
  {| error_listener := true; inspect_error := @inspect_error E |}.

(** How a computation ends: it returns, it throws, or the model's fuel is
    spent ([Timeout] is not an exception and no [catch] sees it). *)
Inductive Outcome (A : Type) : Type :=
| Returned (a : A)
| Raised (e : Thrown)
| Timeout.
Arguments Returned {A} a.
Arguments Raised {A} e.
Arguments Timeout {A}.

Definition M (W A : Type) : Type := RunState W -> Outcome A * RunState W.

Definition ret {W A : Type} (a : A) : M W A := fun st => (Returned a, st).

Definition bind {W A B : Type} (m : M W A) (k : A -> M W B) : M W B :=
  fun st =>
    match m st with
    | (Returned a, st') => k a st'
    | (Raised e, st') => (Raised e, st')
    | (Timeout, st') => (Timeout, st')
    end.

Definition throw {W A : Type} (e : Thrown) : M W A := fun st => (Raised e, st).

Definition out_of_fuel {W A : Type} : M W A := fun st => (Timeout, st).

Definition try_catch {W A : Type} (body : M W A) (handler : Thrown -> M W A)
  : M W A :=
  fun st =>
    match body st with
    | (Raised e, st') => handler e st'
    | other => other
    end.

Declare Scope agent_scope.
Delimit Scope agent_scope with agent.
Notation "'let*' x ':=' m 'in' k" := (bind m (fun x => k))
  (at level 10, x name, m at level 100, k at level 200)
  : agent_scope.
Local Open Scope agent_scope.

Section State.
Context {W : Type}.

Definition observe (o : list Obs) (st : RunState W) : RunState W :=
  {| world := world st; trace := trace st ++ o; messages := messages st;
     iterations := iterations st; lastResponse := lastResponse st;
     lastToolResult := lastToolResult st |}.

Definition with_world (w : W) (st : RunState W) : RunState W :=
  {| world := w; trace := trace st; messages := messages st;
     iterations := iterations st; lastResponse := lastResponse st;
     lastToolResult := lastToolResult st |}.

Definition with_messages (ms : list AgentMessage) (st : RunState W) : RunState W :=
  {| world := world st; trace := trace st; messages := ms;
     iterations := iterations st; lastResponse := lastResponse st;
     lastToolResult := lastToolResult st |}.

Definition with_iterations (i : Z) (st : RunState W) : RunState W :=
  {| world := world st; trace := trace st; messages := messages st;
     iterations := i; lastResponse := lastResponse st;
     lastToolResult := lastToolResult st |}.

Definition with_lastResponse (r : option AgentResponse) (st : RunState W)
  : RunState W :=
  {| world := world st; trace := trace st; messages := messages st;
     iterations := iterations st; lastResponse := r;
     lastToolResult := lastToolResult st |}.

Definition with_lastToolResult (v : JSValue) (st : RunState W) : RunState W :=
  {| world := world st; trace := trace st; messages := messages st;
     iterations := iterations st; lastResponse := lastResponse st;
     lastToolResult := v |}.

Definition update (f : RunState W -> RunState W) : M W unit :=
  fun st => (Returned tt, f st).

Definition read {A : Type} (f : RunState W -> A) : M W A :=
  fun st => (Returned (f st), st).

(** [this.emit(name, payload)]. *)
Definition emit (e : Event) : M W unit := update (observe [Emit e]).

(** [console.error(label, err)]. *)
Definition console_error (label : string) (e : Thrown) : M W unit :=
  update (observe [ConsoleError label e]).

(** [messages.push(m)]. *)
Definition push (m : AgentMessage) : M W unit :=
  update (fun st => with_messages (messages st ++ [m]) st).

(** [await this.config.saveFunction(m)]. *)
Definition call_save (save : AgentMessage -> W -> (Thrown + unit) * W)
    (m : AgentMessage) : M W unit :=
  fun st =>
    let '(r, w) := save m (world st) in
    let st' := with_world w (observe [CallSave m r] st) in
    match r with
    | inl e => (Raised e, st')
    | inr _ => (Returned tt, st')
    end.

(** [await tool.execute(args)]. *)
Definition call_execute (t : AgentTool W) (args : JSValue) : M W JSValue :=
  fun st =>
    let '(r, w) := execute t args (world st) in
    let st' := with_world w (observe [CallExecute (tool_name t) args r] st) in
    match r with
    | inl e => (Raised e, st')
    | inr v => (Returned v, st')
    end.

(** [await this.provider.generate(..., (token) => this.emit('token', token))]. *)
Definition call_generate (cfg : AgentConfig W) : M W AgentResponse :=
  fun st =>
    let '(toks, r, w) :=
      generate (provider cfg) (system cfg) (messages st) (files cfg) (tools cfg)
        (config cfg) (output_schema cfg) (world st) in
    let st' :=
      with_world w
        (observe (List.map (fun t => Emit (ev_token t)) toks
                  ++ [CallGenerate (messages st) r]) st) in
    match r with
    | inl e => (Raised e, st')
    | inr response => (Returned response, st')
    end.

End State.

Module Agent.

Section Run.
Context {W : Type} {C : Clock W} {J : Json} {Em : Emitter}.

(** [this.config.max_tool_iterations || 1]. *)
Definition maxIterations (cfg : AgentConfig W) : JSNumber :=
  match max_tool_iterations cfg with
  | Some x => if truthy_number x then x else 1
  | None => 1
  end.

(** [t.name === call.name], where [call.name] may be [undefined]. *)
Definition name_matches (call : ToolCall) (t : AgentTool W) : bool :=
  match call_name call with
  | Some n => String.eqb (tool_name t) n
  | None => false
  end.

(** [this.config.tools.find(t => t.name === call.name)]. On a hole of the
    array [call] is [undefined]: the callback throws as soon as it is
    called, which needs a tool to be called on. *)
Definition find_tool (ts : list (AgentTool W)) (call : option ToolCall)
  : M W (option (AgentTool W)) :=
  match call with
  | Some c => ret (List.find (name_matches c) ts)
  | None =>
      match ts with
      | [] => ret None
      | _ :: _ => throw (TypeError "Cannot read properties of undefined (reading 'name')")
      end
  end.

Definition toolMsg (call : ToolCall) (t : AgentTool W) (result : JSValue)
  : AgentMessage :=
  {| msg_role := Rtool;
     msg_content := if is_string result then result else JSON_stringify result;
     msg_name := Some (tool_name t);
     msg_tool_calls := None;
     msg_tool_call_id := call_id call;
     msg_usage := None; msg_meta := None |}.

Definition errorMsg (call : ToolCall) (t : AgentTool W) (e : Thrown)
  : AgentMessage :=
  {| msg_role := Rtool;
     msg_content := JStr ("Error: " +:+ message_or_string e);
     msg_name := Some (tool_name t);
     msg_tool_calls := None;
     msg_tool_call_id := call_id call;
     msg_usage := None; msg_meta := None |}.

(** [if (this.config.saveFunction) await this.config.saveFunction(m)]. *)
Definition save_if_configured (cfg : AgentConfig W) (m : AgentMessage) : M W unit :=
  match saveFunction cfg with
  | Some save => call_save save m
  | None => ret tt
  end.

(** The body of [for (const call of response.tool_calls)]. *)
Definition dispatch_call (cfg : AgentConfig W) (ts : list (AgentTool W))
    (call : option ToolCall) : M W unit :=
  let* found := find_tool ts call in
  match found, call with
  | Some t, Some c =>
      try_catch
        (let* _ := emit (ev_tool_start (tool_name t) (call_arguments c)) in
         let* result := call_execute t (call_arguments c) in
         let* _ := emit (ev_tool_end (tool_name t) result) in
         let* _ := update (with_lastToolResult result) in
         let* _ := push (toolMsg c t result) in
         save_if_configured cfg (toolMsg c t result))
        (fun e =>
           let* _ := console_error ("Error executing tool " +:+ tool_name t +:+ ":") e in
           push (errorMsg c t e))
  | _, _ => ret tt
  end.

Fixpoint dispatch_calls (cfg : AgentConfig W) (ts : list (AgentTool W))
    (calls : list (option ToolCall)) : M W unit :=
  match calls with
  | [] => ret tt
  | call :: rest =>
      let* _ := dispatch_call cfg ts call in
      dispatch_calls cfg ts rest
  end.

Definition assistantMsg (response : AgentResponse) : AgentMessage :=
  {| msg_role := Rassistant;
     msg_content := js_or (content response) JNull;
     msg_name := None;
     msg_tool_calls := tool_calls response;
     msg_tool_call_id := None;
     msg_usage := None; msg_meta := None |}.

(** [lastResponse = response; if (typeof response.content === 'string')
     lastResponse.message = response.content]. *)
Definition capture_message (response : AgentResponse) : AgentResponse :=
  match content response with
  | JStr text => set_message response (Some text)
  | _ => response
  end.

(** [if (maxIterations === 1 && lastToolResult !== null)
     lastResponse.content = lastToolResult]. *)
Definition intent_detection (cfg : AgentConfig W) : M W unit :=
  update (fun st =>
    if is_one (maxIterations cfg) && negb (is_null (lastToolResult st))
    then with_lastResponse
           (option_map (fun r => set_content r (lastToolResult st)) (lastResponse st)) st
    else st).

(** From [let lastToolResult = null] to the end of the [if] block: the
    calls are dispatched, the legacy substitution is made, and the block
    ends on [continue] ([true]) or falls through to [break] ([false]). *)
Definition run_tools (cfg : AgentConfig W) (ts : list (AgentTool W))
    (calls : list (option ToolCall)) : M W bool :=
  let* _ := update (with_lastToolResult JNull) in
  let* _ := dispatch_calls cfg ts calls in
  let* _ := intent_detection cfg in
  let* i := read iterations in
  if less_than i (maxIterations cfg) then ret true else ret false.

(** The body of the [while] loop. *)
Definition turn (cfg : AgentConfig W) : M W bool :=
  let* i := read iterations in
  let* _ := update (with_iterations (i + 1)) in
  let* response := call_generate cfg in
  let* _ := update (with_lastResponse (Some (capture_message response))) in
  match tool_calls response, tools cfg with
  | Some calls, Some ts =>
      let* _ := push (assistantMsg response) in
      let* _ := save_if_configured cfg (assistantMsg response) in
      run_tools cfg ts calls
  | _, _ => ret false
  end.

(** [while (iterations < maxIterations) { ... }]. One unit of fuel is spent
    on each entry into the body. *)
Fixpoint turn_loop (fuel : nat) (cfg : AgentConfig W) : M W unit :=
  let* i := read iterations in
  if less_than i (maxIterations cfg) then
    match fuel with
    | O => out_of_fuel
    | S fuel' =>
        let* again := turn cfg in
        if again then turn_loop fuel' cfg else ret tt
    end
  else ret tt.

(** The user message built from a bare string. *)
Definition userMsg (cfg : AgentConfig W) (text : string) : AgentMessage :=
  {| msg_role := Ruser;
     msg_content :=
       JStr (if truthy_str (prompt cfg)
             then default EmptyString (prompt cfg) +:+ nl +:+ nl +:+ text
             else text);
     msg_name := None; msg_tool_calls := None; msg_tool_call_id := None;
     msg_usage := None; msg_meta := None |}.

Definition finalMsg (r : AgentResponse) : AgentMessage :=
  {| msg_role := Rassistant;
     msg_content := content r;
     msg_name := None; msg_tool_calls := None; msg_tool_call_id := None;
     msg_usage := Some (usage r); msg_meta := Some (meta r) |}.

(** [messages] once the input is normalised: a copy of the given history,
    or the one user message. *)
Definition initial_messages (cfg : AgentConfig W) (inputContext : Input)
  : list AgentMessage :=
  match inputContext with
  | InputHistory history => history
  | InputText text => [userMsg cfg text]
  end.

(** From [this.emit('start', ...)] to the save of the initial user message. *)
Definition initialize (cfg : AgentConfig W) (inputContext : Input) : M W Z :=
  let* t := read (fun st => now (world st)) in
  let* _ := emit (ev_start t inputContext) in
  let* startTime := read (fun st => now (world st)) in
  let* _ := update (with_messages (initial_messages cfg inputContext)) in
  let* _ :=
    match inputContext, saveFunction cfg with
    | InputText text, Some save =>
        try_catch (call_save save (userMsg cfg text))
                  (console_error "Failed to save user message:")
    | _, _ => ret tt
    end in
  let* _ := update (with_iterations 0) in
  let* _ := update (with_lastResponse None) in
  ret startTime.

(** The error [EventEmitter.emit] throws on an ['error'] event nobody
    listens to ([ERR_UNHANDLED_ERROR]; the payload here is an object, not an
    [Error]). *)
Definition unhandled (error_key message : string) (details : Thrown) : Thrown :=
  Error ("Unhandled error. (" +:+ inspect_error error_key message details +:+ ")").

(** [this.emit('error', { error_key, message, details })]. *)
Definition emit_error (error_key message : string) (details : Thrown) : M W unit :=
  let* _ := emit (ev_error error_key message details) in
  if error_listener then ret tt
  else throw (unhandled error_key message details).

(** [try { while ... } catch (error) { this.emit('error', ...); throw error }]. *)
Definition guarded_loop (fuel : nat) (cfg : AgentConfig W) : M W unit :=
  try_catch (turn_loop fuel cfg)
    (fun error =>
       let* _ := emit_error "execution_error" (message_or_else_string error) error in
       throw error).

(** What leaves the [catch] block entered with [error]: [error] itself, or
    the emitter's error when nobody listens. *)
Definition rethrown (error : Thrown) : Thrown :=
  if error_listener then error
  else unhandled "execution_error" (message_or_else_string error) error.

(** From [if (!lastResponse)] to [return lastResponse]. *)
Definition finalize (cfg : AgentConfig W) (startTime : Z) : M W AgentResponse :=
  let* last := read lastResponse in
  match last with
  | None => throw (Error "Agent failed to generate a response")
  | Some r0 =>
      let* t := read (fun st => now (world st)) in
      let r := set_latency_ms r0 (t - startTime) in
      let* _ := update (with_lastResponse (Some r)) in
      let* _ :=
        match saveFunction cfg with
        | Some save =>
            try_catch (call_save save (finalMsg r))
                      (console_error "Failed to save assistant response:")
        | None => ret tt
        end in
      let* _ := emit (ev_response r) in
      ret r
  end.

Definition run (fuel : nat) (cfg : AgentConfig W) (inputContext : Input)
  : M W AgentResponse :=
  let* startTime := initialize cfg inputContext in
  let* _ := guarded_loop fuel cfg in
  finalize cfg startTime.

(** Persisting [m] in the world [w] goes well and leaves [w']; with no hook
    configured nothing happens. *)
Definition saved_ok (cfg : AgentConfig W) (m : AgentMessage) (w w' : W) : Prop :=
  match saveFunction cfg with
  | Some save => save m w = (inr tt, w')
  | None => w' = w
  end.

(** The state in which the first turn starts. *)
Definition after_initialize (cfg : AgentConfig W) (inputContext : Input)
    (st : RunState W) : RunState W :=
  snd (initialize cfg inputContext st).

End Run.

(** A state to start a run from: only the world matters, [run] assigns every
    local before it reads it. *)
Definition fresh {W : Type} (w : W) : RunState W :=
  {| world := w; trace := []; messages := []; iterations := 0;
     lastResponse := None; lastToolResult := JNull |}.

End Agent.

(** ** Reading a trace *)

Module Trace.

Definition is_generate (o : Obs) : bool :=
  match o with CallGenerate _ _ => true | _ => false end.

Definition is_error (o : Obs) : bool :=
  match o with Emit (ev_error _ _ _) => true | _ => false end.

Definition is_response (o : Obs) : bool :=
  match o with Emit (ev_response _) => true | _ => false end.

Definition is_tool_start (o : Obs) : bool :=
  match o with Emit (ev_tool_start _ _) => true | _ => false end.

Definition is_tool_end (o : Obs) : bool :=
  match o with Emit (ev_tool_end _ _) => true | _ => false end.

(** A call of the hook on a tool-role message. *)
Definition saves_tool_message (o : Obs) : bool :=
  match o with
  | CallSave m _ => match msg_role m with Rtool => true | _ => false end
  | _ => false
  end.


Definition count (p : Obs -> bool) (t : list Obs) : nat :=
  length (List.filter p t).

(** The value the latest successful [execute] resolved to, if any did. *)
Fixpoint last_success (t : list Obs) : option JSValue :=
  match t with
  | [] => None
  | o :: rest =>
      match last_success rest with
      | Some v => Some v
      | None =>
          match o with
          | CallExecute _ _ (inr v) => Some v
          | _ => None
          end
      end
  end.

Definition is_execute (o : Obs) : bool :=
  match o with CallExecute _ _ _ => true | _ => false end.

(** Observations other than a call of [generate] and the two terminal
    notifications. *)
Definition quiet (o : Obs) : bool :=
  negb (is_generate o) && negb (is_error o) && negb (is_response o).

(** Observations that are no part of a tool's dispatch. *)
Definition no_tool_activity (o : Obs) : bool :=
  negb (is_execute o) && negb (is_tool_start o) && negb (is_tool_end o).

(** Quiet observations that are no part of a tool's dispatch either. *)
Definition idle (o : Obs) : bool := quiet o && no_tool_activity o.

(** Observations other than the two terminal notifications. *)
Definition not_terminal (o : Obs) : bool :=
  negb (is_error o) && negb (is_response o).

End Trace.

(** ** Relations between the state before and after a computation *)

Module Frame.

(** [st'] has the trace of [st] followed by observations that satisfy [p]. *)
Definition extends {W : Type} (p : Obs -> bool) (st st' : RunState W) : Prop :=
  exists added, trace st' = trace st ++ added /\ forallb p added = true.

(** What tool dispatch leaves alone: the turn counter and the response in
    hand; what it adds to the trace is quiet. *)
Definition steady {W : Type} (st st' : RunState W) : Prop :=
  iterations st' = iterations st /\
  lastResponse st' = lastResponse st /\
  extends Trace.quiet st st'.

(** [m] relates every state to the state it ends in, however it ends. *)
Definition keeps {W A : Type} (R : RunState W -> RunState W -> Prop)
    (m : M W A) : Prop :=
  forall st, R st (snd (m st)).

End Frame.

(** ** Sample collaborators

    A world that is only a clock (milliseconds), tools, providers and
    persistence hooks to run the agent on. *)

Module Samples.
Import OpenAI.

Definition ms_clock : Clock Z := {| now := fun w => w |}.

(** A stand-in for [util.inspect] on the payload of an error notification. *)
Definition inspected (error_key message : string) (details : Thrown) : string :=
  "{ error_key: '" +:+ error_key +:+ "', message: '" +:+ message
  +:+ "', details: " +:+ String_of details +:+ " }".

(** An agent somebody listens to for ['error'], and one nobody does. *)
Definition heard : Emitter := {| error_listener := true; inspect_error := inspected |}.
Definition unheard : Emitter := {| error_listener := false; inspect_error := inspected |}.

Definition any_schema : ZodType := fun v => inr v.

(** A schema that accepts nothing. *)
Definition no_schema : ZodType := fun _ => inl (ThrowError "ZodError" "invalid input").

(** A tool that takes 30 ms and resolves to [value]. *)
Definition resolving_tool (tname : string) (value : JSValue) : AgentTool Z :=
  {| tool_name := tname; description := "resolves"; parameters := any_schema;
     execute := fun _ w => (inr value, w + 30) |}.

(** A tool that takes 30 ms and throws. *)
Definition throwing_tool (tname : string) (e : Thrown) : AgentTool Z :=
  {| tool_name := tname; description := "throws"; parameters := any_schema;
     execute := fun _ w => (inl e, w + 30) |}.

Definition lookup : AgentTool Z := resolving_tool "lookup" (JObj [("ok", JBool true)]).
Definition silent : AgentTool Z := resolving_tool "silent" JNull.
Definition faulty : AgentTool Z := throwing_tool "faulty" (Error "boom").

Definition call_of (tname cid : string) : option ToolCall :=
  Some {| call_name := Some tname; call_arguments := JObj []; call_id := Some cid |}.

Definition no_usage : Usage :=
  {| input_tokens := 0; output_tokens := 0; total_tokens := 0; reasoning_tokens := None |}.

Definition reply (body : JSValue) (calls : option (list (option ToolCall)))
  : AgentResponse :=
  {| content := body; tool_calls := calls; message := None; usage := no_usage;
     meta := {| model := "sample"; latency_ms := 0; meta_extra := [] |} |}.

(** A provider that takes 120 ms and always answers [r]. *)
Definition answering (r : AgentResponse) : LLMProvider Z :=
  {| generate := fun _ _ _ _ _ _ w => ([], inr r, w + 120) |}.

(** A provider whose call fails. *)
Definition unreachable : LLMProvider Z :=
  {| generate := fun _ _ _ _ _ _ w => ([], inl (Error "network down"), w + 120) |}.

Definition store_ok : AgentMessage -> Z -> (Thrown + unit) * Z :=
  fun _ w => (inr tt, w + 5).

Definition store_down : AgentMessage -> Z -> (Thrown + unit) * Z :=
  fun _ w => (inl (Error "db down"), w + 5).

Definition agent_within (p : LLMProvider Z) (ts : option (list (AgentTool Z)))
    (save : option (AgentMessage -> Z -> (Thrown + unit) * Z))
    (schema : option ZodType) (ceiling : option JSNumber) : AgentConfig Z :=
  {| name := "sample"; provider := p; prompt := None; system := None;
     files := None; config := None; tools := ts; output_schema := schema;
     saveFunction := save; max_tool_iterations := ceiling |}.

(** The same with a whole number as ceiling. *)
Definition agent (p : LLMProvider Z) (ts : option (list (AgentTool Z)))
    (save : option (AgentMessage -> Z -> (Thrown + unit) * Z))
    (schema : option ZodType) (ceiling : option Z) : AgentConfig Z :=
  agent_within p ts save schema (option_map Integer ceiling).

(** A chunk that carries text only. *)
Definition text_chunk (t : string) : Chunk :=
  {| delta := Some {| delta_content := Some t; delta_tool_calls := None |};
     chunk_usage := None |}.

(** A chunk that carries one tool-call fragment at position 0. *)
Definition fragment (fname fargs : option string) : Chunk :=
  {| delta :=
       Some {| delta_content := None;
               delta_tool_calls :=
                 Some [ {| index := 0%nat; id := None;
                           function := Some {| fn_name := fname;
                                               fn_arguments := fargs |} |} ] |};
     chunk_usage := None |}.

(** The three deltas of Scenario E. *)
Definition scenario_E : list Chunk :=
  [ fragment (Some "get_") None;
    fragment (Some "weather") (Some ("{" +:+ qt +:+ "c"));
    fragment None (Some ("ity" +:+ qt +:+ ":" +:+ qt +:+ "SF" +:+ qt +:+ "}")) ].

(** The same deltas when the first one carries an empty [arguments]. *)
Definition scenario_E_announced : list Chunk :=
  [ fragment (Some "get_") (Some EmptyString);
    fragment (Some "weather") (Some ("{" +:+ qt +:+ "c"));
    fragment None (Some ("ity" +:+ qt +:+ ":" +:+ qt +:+ "SF" +:+ qt +:+ "}")) ].

(** The text of a JSON object, streamed in two pieces. *)
Definition object_stream : list Chunk :=
  [ text_chunk ("{" +:+ qt +:+ "a" +:+ qt); text_chunk ":1}" ].

Definition not_json_stream : list Chunk :=
  [ text_chunk "Sure, "; text_chunk "here you go" ].

(** The locals of the stream loop once [stream] is consumed. *)
Definition accumulated (stream : list Chunk) : Acc :=
  match stream_loop stream init_acc with
  | inr acc => acc
  | inl (_, acc) => acc
  end.

Definition hi : Input := InputText "hi".

Definition checking (tname : string) : AgentResponse :=
  reply (JStr "Checking") (Some [call_of tname "c1"]).

(** One tool, the model asks for it once, the hook works. *)
Definition lookup_agent (ceiling : option Z) : AgentConfig Z :=
  agent (answering (checking "lookup")) (Some [lookup]) (Some store_ok) None ceiling.

Definition silent_agent : AgentConfig Z :=
  agent (answering (checking "silent")) (Some [silent]) (Some store_ok) None (Some 1).

Definition faulty_agent : AgentConfig Z :=
  agent (answering (checking "faulty")) (Some [faulty]) (Some store_ok) None (Some 1).

(** The hook fails on every message. *)
Definition unsaved_agent : AgentConfig Z :=
  agent (answering (checking "lookup")) (Some [lookup]) (Some store_down) None (Some 1).

Definition offline_agent : AgentConfig Z :=
  agent unreachable None None None (Some 1).




Definition chat_agent : AgentConfig Z :=
  agent (answering (reply (JStr "Hello!") None)) None None None (Some 1).

(** An agent with an output schema over the OpenAI adapter, whose vendor
    streams the text of a JSON object. *)
Definition structured_agent {J : Json} : AgentConfig Z :=
  agent (streaming_provider Z "gpt" object_stream) None None (Some any_schema) (Some 1).

End Samples.

(** ** More readers of a trace and of a history *)

Module Observed.

Definition is_start (o : Obs) : bool :=
  match o with Emit (ev_start _ _) => true | _ => false end.

Definition is_token (o : Obs) : bool :=
  match o with Emit (ev_token _) => true | _ => false end.

(** A call of a tool that resolved. *)
Definition is_resolved_execute (o : Obs) : bool :=
  match o with CallExecute _ _ (inr _) => true | _ => false end.

(** A call of the hook on a user-role message. *)
Definition saves_user_message (o : Obs) : bool :=
  match o with
  | CallSave m _ => match msg_role m with Ruser => true | _ => false end
  | _ => false
  end.

(** The response of the latest call of [generate] that resolved. *)
Fixpoint last_generated (t : list Obs) : option AgentResponse :=
  match t with
  | [] => None
  | o :: rest =>
      match last_generated rest with
      | Some r => Some r
      | None =>
          match o with
          | CallGenerate _ (inr r) => Some r
          | _ => None
          end
      end
  end.

(** The tokens notified, in order. *)
Fixpoint tokens_of (t : list Obs) : list string :=
  match t with
  | [] => []
  | Emit (ev_token s) :: rest => s :: tokens_of rest
  | _ :: rest => tokens_of rest
  end.

(** The tool notifications are balanced against the calls of tools: a
    tool-start for every call, a tool-end for every call that resolved. *)
Definition balanced (t : list Obs) : Prop :=
  Trace.count Trace.is_tool_start t = Trace.count Trace.is_execute t /\
  Trace.count Trace.is_tool_end t = Trace.count is_resolved_execute t.

(** Anything but the start notification and the two terminal ones. *)
Definition plain (o : Obs) : bool :=
  negb (is_start o) && negb (Trace.is_error o) && negb (Trace.is_response o).

(** What the loop may add to a trace: plain observations other than a save
    of a user message. *)
Definition inner (o : Obs) : bool := plain o && negb (saves_user_message o).

(** What the loop adds to a trace. *)
Definition loop_adds (l : list Obs) : Prop := forallb inner l = true /\ balanced l.

(** [st'] has the trace of [st] followed by observations that, as a list,
    satisfy [Q]. *)
Definition adds {W : Type} (Q : list Obs -> Prop) (st st' : RunState W) : Prop :=
  exists added, trace st' = trace st ++ added /\ Q added.

(** The response in hand follows the calls of [generate]: it is the latest
    response generated, with its text captured, or the one held before. *)
Definition tracks_generate {W : Type} (st st' : RunState W) : Prop :=
  exists added,
    trace st' = trace st ++ added /\
    lastResponse st' =
      match last_generated added with
      | Some r => Some (Agent.capture_message r)
      | None => lastResponse st
      end.

End Observed.

Module History.
Import Agent.

(** [m] is a tool message that answers one of [calls] with one of [ts]: the
    id is the call's, the name is the tool's. *)
Definition answers {W : Type} (ts : list (AgentTool W))
    (calls : list (option ToolCall)) (m : AgentMessage) : Prop :=
  msg_role m = Rtool /\
  exists c t, In (Some c) calls /\ In t ts /\ name_matches c t = true /\
              msg_tool_call_id m = call_id c /\
              msg_name m = Some (tool_name t).

(** Every tool message carries the id of a call of the nearest assistant
    message before it ([pending] holds the calls of the one before [ms]);
    nothing else than assistant messages with calls and tool messages is in
    [ms]. *)
Fixpoint linked (pending : list (option ToolCall)) (ms : list AgentMessage) : Prop :=
  match ms with
  | [] => True
  | m :: rest =>
      match msg_role m with
      | Rassistant =>
          match msg_tool_calls m with
          | Some calls => linked calls rest
          | None => False
          end
      | Rtool =>
          (exists c, In (Some c) pending /\ msg_tool_call_id m = call_id c) /\
          linked pending rest
      | _ => False
      end
  end.

(** A message a run appends: the assistant's message of a turn with tool
    calls, or a tool message that names a configured tool. *)
Definition appended_by {W : Type} (cfg : AgentConfig W) (m : AgentMessage) : Prop :=
  (msg_role m = Rassistant /\ is_Some (msg_tool_calls m)) \/
  (msg_role m = Rtool /\
   exists ts t, tools cfg = Some ts /\ In t ts /\ msg_name m = Some (tool_name t)).

Definition blocks {W : Type} (cfg : AgentConfig W) (ms : list AgentMessage) : Prop :=
  (forall pending, linked pending ms) /\ Forall (appended_by cfg) ms.

(** What a run relates: the history grows at its end, by messages [P]. *)
Definition grows {W : Type} (P : list AgentMessage -> Prop)
    (st st' : RunState W) : Prop :=
  exists appended, messages st' = messages st ++ appended /\ P appended.

End History.


(** ** Readers of a chunk stream *)

Module Stream.
Import OpenAI.

(** The text a chunk carries, when it is not empty. *)
Definition text_of (chunk : Chunk) : option string :=
  match delta chunk with
  | Some d =>
      match delta_content d with
      | Some t => if negb (String.eqb t EmptyString) then Some t else None
      | None => None
      end
  | None => None
  end.

(** The non-empty texts of a stream, in order. *)
Definition text_fragments (stream : list Chunk) : list string := omap text_of stream.

(** The texts of a list, one after the other. *)
Definition joined (l : list string) : string := fold_right String.append EmptyString l.

Definition as_usage (u : ChunkUsage) : Usage :=
  {| input_tokens := prompt_tokens u;
     output_tokens := completion_tokens u;
     total_tokens := chunk_total_tokens u;
     reasoning_tokens := None |}.

(** The usage report of the last chunk that has one. *)
Fixpoint last_usage (stream : list Chunk) : option ChunkUsage :=
  match stream with
  | [] => None
  | chunk :: rest =>
      match last_usage rest with
      | Some u => Some u
      | None => chunk_usage chunk
      end
  end.

(** The name a slot holds. *)
Definition name_of (tc : ToolCallDelta) : option string :=
  match function tc with Some f => fn_name f | None => None end.

(** [out] is [calls] position by position: holes stay holes, a slot becomes
    a call with the slot's id and name. *)
Definition same_positions (calls : list (option ToolCallDelta))
    (out : list (option ToolCall)) : Prop :=
  Forall2 (fun slot call =>
             match slot, call with
             | None, None => True
             | Some tc, Some c => call_id c = id tc /\ call_name c = name_of tc
             | _, _ => False
             end) calls out.

End Stream.

(** ** File helpers ([src/utils/file-utils.ts])

    [path.extname], [path.basename] and [String.prototype.toLowerCase] are
    built-ins of the host; the file system is what [fs] finds at a path. *)

Class NodePath : Type := {
  extname : string -> string;
  basename : string -> string;
  toLowerCase : string -> string
}.

Module FileUtils.

(** What [fs] finds at a path: nothing ([existsSync] is false), something
    [readFileSync] throws on (the message of its error), or a text. *)
Inductive FileState : Type :=
| Missing
| Unreadable (message : string)
| Readable (content : string).

Definition FileSystem : Type := string -> FileState.

Section WithHost.
Context {P : NodePath}.

Definition validateFileExtension (filePath : string) (allowedExtensions : list string)
  : bool :=
  let ext := toLowerCase (extname filePath) in
  existsb (fun allowed => String.eqb allowed ext) allowedExtensions.

Definition MARKDOWN_EXTENSIONS : list string := [".md"; ".markdown"].

Definition readMarkdownFile (fs : FileSystem) (filePath : string) : Thrown + string :=
  if negb (validateFileExtension filePath MARKDOWN_EXTENSIONS) then
    inl (Error ("Invalid file extension for " +:+ filePath
                +:+ ". Only .md and .markdown files are supported."))
  else
    match fs filePath with
    | Missing => inl (Error ("File not found: " +:+ filePath))
    | Unreadable message =>
        inl (Error ("Failed to read file " +:+ filePath +:+ ": " +:+ message))
    | Readable content => inr content
    end.

Definition IMAGE_EXTENSIONS : list string :=
  [".png"; ".jpg"; ".jpeg"; ".webp"; ".heic"; ".heif"].

Definition isImageFile (filePath : string) : bool :=
  validateFileExtension filePath IMAGE_EXTENSIONS.

(** The text pushed for one file. *)
Definition file_block (fileName content : string) : string :=
  "--- File: " +:+ fileName +:+ " ---" +:+ nl +:+ nl +:+ content +:+ nl +:+ nl
  +:+ "--- End of " +:+ fileName +:+ " ---".

(** [for (const filePath of filePaths)], with [fileContents] so far. *)
Fixpoint read_each (fs : FileSystem) (filePaths : list string)
    (fileContents : list string) : Thrown + list string :=
  match filePaths with
  | [] => inr fileContents
  | filePath :: rest =>
      if validateFileExtension filePath MARKDOWN_EXTENSIONS then
        match readMarkdownFile fs filePath with
        | inl error => inl error
        | inr content =>
            read_each fs rest
              (fileContents ++ [file_block (basename filePath) content])
        end
      else read_each fs rest fileContents
  end.

(** [Array.prototype.join] on texts. *)
Definition join (separator : string) (items : list string) : string :=
  String.concat separator items.

Definition readMarkdownFiles (fs : FileSystem) (filePaths : option (list string))
  : Thrown + string :=
  match filePaths with
  | None | Some [] => inr EmptyString
  | Some paths =>
      match read_each fs paths [] with
      | inl error => inl error
      | inr fileContents => inr (join (nl +:+ nl) fileContents)
      end
  end.

End WithHost.

(** The paths of a list that [readMarkdownFiles] reads. *)
Definition markdown_paths {P : NodePath} (filePaths : list string) : list string :=
  List.filter (fun p => validateFileExtension p MARKDOWN_EXTENSIONS) filePaths.

End FileUtils.

(** ** The request of [OpenAIProvider.generate]
    ([src/providers/openai.ts], from [const messages = []] to the call of
    [chat.completions.create]; [GrokProvider.generate] repeats it after its
    image branch). *)

(** [toJSONSchema] of zod, which throws on a schema it cannot represent. *)
Class Zod : Type := { toJSONSchema : ZodType -> Thrown + JSValue }.

Module Request.
Import FileUtils.

(** [prompt: string | AgentMessage[]]. *)
Inductive Prompt : Type :=
| PromptText (text : string)
| PromptMessages (history : list AgentMessage).

Record WireToolCall : Type := {
  wire_id : option string;
  wire_name : option string;
  wire_arguments : JSValue
}.

(** [ChatCompletionMessageParam], as far as it is built here. *)
Inductive WireMessage : Type :=
| WSystem (content : string)
| WUser (content : JSValue)
| WAssistant (content : JSValue) (tool_calls : option (list (option WireToolCall)))
| WTool (tool_call_id : option string) (content : JSValue).

Record WireTool : Type := {
  wt_name : string;
  wt_description : string;
  wt_parameters : JSValue
}.

(** The argument of [chat.completions.create]; [stream: true] and
    [stream_options: { include_usage: true }] are constants. *)
Record ChatRequest : Type := {
  req_model : string;
  req_messages : list WireMessage;
  req_tools : option (list WireTool);
  req_tool_choice : option string;
  req_temperature : JSValue;
  req_max_tokens : JSValue;
  req_response_format : option string
}.

(** [error.message] inside a template literal. *)
Definition message_text (e : Thrown) : string :=
  match e with
  | ThrowError _ message => message
  | ThrowString _ => "undefined"
  end.

(** [config?.key]. *)
Definition config_field (config : option (list (string * JSValue))) (key : string)
  : JSValue :=
  match config with
  | Some fields =>
      match List.find (fun kv => String.eqb (fst kv) key) fields with
      | Some kv => snd kv
      | None => JUndefined
      end
  | None => JUndefined
  end.

Section WithHost.
Context {P : NodePath} {J : Json} {Zd : Zod}.

(** The callback of [msg.tool_calls?.map]. *)
Definition wire_tool_call (tc : ToolCall) : WireToolCall :=
  {| wire_id := call_id tc;
     wire_name := call_name tc;
     wire_arguments :=
       if is_string (call_arguments tc) then call_arguments tc
       else JSON_stringify (call_arguments tc) |}.

(** [for (const msg of prompt)], with [messages] so far: a message of any
    other role than user, assistant and tool is passed over. *)
Fixpoint push_history (history : list AgentMessage) (messages : list WireMessage)
  : list WireMessage :=
  match history with
  | [] => messages
  | msg :: rest =>
      match msg_role msg with
      | Ruser => push_history rest (messages ++ [WUser (msg_content msg)])
      | Rassistant =>
          push_history rest
            (messages ++
             [WAssistant (js_or (msg_content msg) JNull)
                (option_map (List.map (option_map wire_tool_call)) (msg_tool_calls msg))])
      | Rtool =>
          push_history rest
            (messages ++
             [WTool (msg_tool_call_id msg)
                (if is_string (msg_content msg) then msg_content msg
                 else JSON_stringify (msg_content msg))])
      | Rsystem => push_history rest messages
      end
  end.

(** "1. Prepare messages". *)
Definition prepare_messages (fs : FileSystem) (system : option string)
    (prompt : Prompt) (files : option (list string))
    (output_schema : option ZodType) : Thrown + list WireMessage :=
  let messages :=
    match system with
    | Some s => if truthy_str system then [WSystem s] else []
    | None => []
    end in
  match prompt with
  | PromptMessages history => inr (push_history history messages)
  | PromptText text =>
      let withFiles :=
        match files with
        | Some (_ :: _) =>
            match readMarkdownFiles fs files with
            | inl error => inl (Error ("File reading error: " +:+ message_text error))
            | inr fileContents => inr (fileContents +:+ nl +:+ nl +:+ text)
            end
        | _ => inr text
        end in
      match withFiles with
      | inl error => inl error
      | inr userContent =>
          let userContent :=
            match output_schema with
            | Some _ => userContent +:+ nl +:+ nl +:+ "Please respond with valid JSON."
            | None => userContent
            end in
          inr (messages ++ [WUser (JStr userContent)])
      end
  end.

(** [openAITools.forEach]: the parameters are filled in tool by tool. *)
Fixpoint fill_parameters {W : Type} (tools : list (AgentTool W))
  : Thrown + list WireTool :=
  match tools with
  | [] => inr []
  | t :: rest =>
      match toJSONSchema (parameters t) with
      | inl e => inl e
      | inr schema =>
          match fill_parameters rest with
          | inl e => inl e
          | inr filled =>
              inr ({| wt_name := tool_name t; wt_description := description t;
                      wt_parameters := schema |} :: filled)
          end
      end
  end.

(** "2. Prepare Tools". *)
Definition prepare_tools {W : Type} (tools : option (list (AgentTool W)))
  : Thrown + option (list WireTool) :=
  match tools with
  | Some (t :: rest) =>
      match fill_parameters (t :: rest) with
      | inl e => inl e
      | inr filled => inr (Some filled)
      end
  | _ => inr None
  end.

(** The request handed to the vendor, or what is thrown before. *)
Definition prepare_request {W : Type} (fs : FileSystem) (model_name : string)
    (system : option string) (prompt : Prompt) (files : option (list string))
    (tools : option (list (AgentTool W)))
    (config : option (list (string * JSValue)))
    (output_schema : option ZodType) : Thrown + ChatRequest :=
  match prepare_messages fs system prompt files output_schema with
  | inl e => inl e
  | inr messages =>
      match prepare_tools tools with
      | inl e => inl e
      | inr openAITools =>
          inr {| req_model := model_name;
                 req_messages := messages;
                 req_tools := openAITools;
                 req_tool_choice :=
                   match openAITools with Some _ => Some "auto" | None => None end;
                 req_temperature := config_field config "temperature";
                 req_max_tokens := config_field config "max_tokens";
                 req_response_format :=
                   match output_schema with
                   | Some _ => Some "json_object"
                   | None => None
                   end |}
      end
  end.

(** [generate] as a whole: the request, the vendor's answer to it, and the
    stream loop. The vendor and the file system are read in the world. *)
Definition openai_generate {W : Type} (fs : W -> FileSystem)
    (vendor : ChatRequest -> W -> (Thrown + list OpenAI.Chunk) * W)
    (model_name : string)
    (system : option string) (prompt : Prompt) (files : option (list string))
    (tools : option (list (AgentTool W)))
    (config : option (list (string * JSValue)))
    (output_schema : option ZodType) (w : W)
  : list string * (Thrown + AgentResponse) * W :=
  match prepare_request (fs w) model_name system prompt files tools config output_schema with
  | inl e => ([], inl e, w)
  | inr request =>
      match vendor request w with
      | (inl e, w') => ([], inl e, w')
      | (inr stream, w') =>
          let g := OpenAI.generate_from_stream model_name output_schema stream in
          (OpenAI.tokens g, OpenAI.result g, w')
      end
  end.

(** The provider an agent holds: [Agent.run] always passes its history. *)
Definition openai_provider {W : Type} (fs : W -> FileSystem)
    (vendor : ChatRequest -> W -> (Thrown + list OpenAI.Chunk) * W)
    (model_name : string) : LLMProvider W :=
  {| generate := fun system history files tools config output_schema =>
       openai_generate fs vendor model_name system (PromptMessages history)
         files tools config output_schema |}.

End WithHost.

(** The wire messages that are system messages. *)
Definition is_system (m : WireMessage) : bool :=
  match m with WSystem _ => true | _ => false end.

End Request.

(** [AgentConfig] with other files. *)
Definition with_files {W : Type} (fileList : option (list string))
    (cfg : AgentConfig W) : AgentConfig W :=
  {| name := name cfg; provider := provider cfg; prompt := prompt cfg;
     system := system cfg; files := fileList; config := config cfg;
     tools := tools cfg; output_schema := output_schema cfg;
     saveFunction := saveFunction cfg;
     max_tool_iterations := max_tool_iterations cfg |}.

(** ** Readers of a file list and of a history *)

Module Files.
Import FileUtils.

(** The text at a path, when there is one. *)
Definition content_of (fs : FileSystem) (filePath : string) : string :=
  match fs filePath with
  | Readable content => content
  | _ => EmptyString
  end.

Definition readable (fs : FileSystem) (filePath : string) : Prop :=
  exists content, fs filePath = Readable content.

(** The error [readMarkdownFile] throws on a path that is not readable. *)
Definition read_error (fs : FileSystem) (filePath : string) : string :=
  match fs filePath with
  | Missing => "File not found: " +:+ filePath
  | Unreadable message => "Failed to read file " +:+ filePath +:+ ": " +:+ message
  | Readable _ => EmptyString
  end.

(** The history messages a request carries on. *)
Definition carried (m : AgentMessage) : bool :=
  match msg_role m with Rsystem => false | _ => true end.

(** The wire message a carried history message is sent as: a user
    message with its content as it is, an assistant message with [null]
    for a falsy content and its tool calls mapped, a tool message with
    its call id and its content as text. *)
Definition wire_of {J : Json} (m : AgentMessage) : Request.WireMessage :=
  match msg_role m with
  | Rassistant =>
      Request.WAssistant (js_or (msg_content m) JNull)
        (option_map (List.map (option_map Request.wire_tool_call)) (msg_tool_calls m))
  | Rtool =>
      Request.WTool (msg_tool_call_id m)
        (if is_string (msg_content m) then msg_content m
         else JSON_stringify (msg_content m))
  | _ => Request.WUser (msg_content m)
  end.

End Files.

(** ** The provider factory ([src/providers/index.ts]) *)

Module Providers.

(** [String.prototype.split] with a one-character separator. *)
Fixpoint split (separator : ascii) (s : string) : list string :=
  match s with
  | EmptyString => [EmptyString]
  | String c rest =>
      if Ascii.eqb c separator then EmptyString :: split separator rest
      else
        match split separator rest with
        | piece :: pieces => String c piece :: pieces
        | [] => [String c EmptyString]
        end
  end.

(** What the constructors take from outside this repository:
    [process.env], and the clients [new OpenAI({ apiKey, baseURL })] and
    [new GoogleGenAI({ apiKey })] of the two SDKs, which may throw. *)
Class Sdk : Type := {
  Client : Type;
  env : string -> option string;
  new_OpenAI : option string -> option string -> Thrown + Client;
  new_GoogleGenAI : option string -> Thrown + Client
}.

Section WithSdk.
Context {S : Sdk}.

(** An instance of one of the three provider classes, with its private
    fields [client] and [model]; the model of an [OpenAIProvider] or a
    [GrokProvider] is [undefined] when the constructor got none. *)
Inductive Provider : Type :=
| OpenAIProvider (client : Client) (model : option string)
| GoogleProvider (client : Client) (model : string)
| GrokProvider (client : Client) (model : option string).

(** [this.model]. *)
Definition model_of (p : Provider) : option string :=
  match p with
  | OpenAIProvider _ model => model
  | GoogleProvider _ model => Some model
  | GrokProvider _ model => model
  end.

(** [apiKey || process.env.NAME]. *)
Definition key_or_env (apiKey : option string) (variable : string) : option string :=
  if truthy_str apiKey then apiKey else env variable.

(** [new OpenAIProvider(model, apiKey)]. *)
Definition new_OpenAIProvider (model apiKey : option string) : Thrown + Provider :=
  let key := key_or_env apiKey "OPENAI_API_KEY" in
  match new_OpenAI key None with
  | inl error => inl error
  | inr client => inr (OpenAIProvider client model)
  end.

(** [new GoogleProvider(model, apiKey)]: [model.startsWith] is the first
    thing evaluated, and throws on [undefined]. *)
Definition new_GoogleProvider (model apiKey : option string) : Thrown + Provider :=
  match model with
  | None =>
      inl (TypeError "Cannot read properties of undefined (reading 'startsWith')")
  | Some m =>
      let name := if String.prefix "models/" m then m else "models/" +:+ m in
      let key := key_or_env apiKey "GOOGLE_API_KEY" in
      match new_GoogleGenAI key with
      | inl error => inl error
      | inr client => inr (GoogleProvider client name)
      end
  end.

(** [new GrokProvider(model, apiKey)]. *)
Definition new_GrokProvider (model apiKey : option string) : Thrown + Provider :=
  let key := key_or_env apiKey "GROK_API_KEY" in
  match new_OpenAI key (Some "https://api.x.ai/v1") with
  | inl error => inl error
  | inr client => inr (GrokProvider client model)
  end.

Definition createProvider (modelString : string) : Thrown + Provider :=
  let pieces := split ":"%char modelString in
  let providerName := nth 0 pieces EmptyString in
  let modelName := pieces !! 1%nat in
  if String.eqb providerName "openai" then new_OpenAIProvider modelName None
  else if String.eqb providerName "google" then new_GoogleProvider modelName None
  else if String.eqb providerName "grok" then new_GrokProvider modelName None
  else inl (Error ("Unsupported provider: " +:+ providerName
                   +:+ ". Use format 'provider:model' (e.g., openai:gpt-4)")).

(** The call made for a provider name and a model name. *)
Definition call_for (providerName : string) (modelName : option string)
  : Thrown + Provider :=
  if String.eqb providerName "openai" then new_OpenAIProvider modelName None
  else if String.eqb providerName "google" then new_GoogleProvider modelName None
  else if String.eqb providerName "grok" then new_GrokProvider modelName None
  else inl (Error ("Unsupported provider: " +:+ providerName
                   +:+ ". Use format 'provider:model' (e.g., openai:gpt-4)")).

End WithSdk.

(** A text without a colon. *)
Fixpoint no_colon (s : string) : bool :=
  match s with
  | EmptyString => true
  | String c rest => negb (Ascii.eqb c ":"%char) && no_colon rest
  end.

End Providers.

(** ** Chains of agents ([src/chain.ts])

    A step runs its agent behind a promise that is settled by whichever
    comes first: the response notification, the error notification, or the
    rejection of [run]. *)

Module Chain.
Import Agent.

(** [step.input]: a value, or a function of the results so far. *)
Inductive StepInput : Type :=
| Fixed (value : Input)
| Computed (f : list AgentResponse -> Thrown + Input).

Record ChainStep (W : Type) : Type := {
  agent : AgentConfig W;
  input : StepInput
}.
Arguments agent {W} _.
Arguments input {W} _.

Record ChainResult : Type := {
  results : list AgentResponse;
  totalLatency : Z;
  totalTokens : Z
}.

(** What [reject] is called with: the payload of the error notification, or
    the value [run] rejected with. *)
Inductive Rejection : Type :=
| ErrorPayload (error_key message : string) (details : Thrown)
| Threw (e : Thrown).

Inductive Settled : Type :=
| Resolved (response : AgentResponse)
| Rejected (reason : Rejection)
| Pending.

(** The first of [onResponse] and [onError] to be called, both registered
    with [once]. *)
Fixpoint first_terminal (t : list Obs) : option Settled :=
  match t with
  | [] => None
  | Emit (ev_response r) :: _ => Some (Resolved r)
  | Emit (ev_error error_key message details) :: _ =>
      Some (Rejected (ErrorPayload error_key message details))
  | _ :: rest => first_terminal rest
  end.

(** The promise of a step once [run] is over: the notifications of the run
    come before its own settlement, which [.catch(reject)] passes on when
    it is a rejection. [None] when the model ran out of fuel. *)
Definition settle (notified : list Obs) (outcome : Outcome AgentResponse)
  : option Settled :=
  match outcome with
  | Timeout => None
  | Returned _ => Some (default Pending (first_terminal notified))
  | Raised e => Some (default (Rejected (Threw e)) (first_terminal notified))
  end.

Inductive ChainOutcome : Type :=
| ChainResolved (result : ChainResult)
| ChainRejected (reason : Rejection)
| ChainPending
| ChainOutOfFuel.

Section WithWorld.
Context {W : Type} {C : Clock W} {J : Json} {Em : Emitter}.

(** [typeof step.input === 'function' ? step.input(results) : step.input]. *)
Definition input_of (step : ChainStep W) (soFar : list AgentResponse)
  : Thrown + Input :=
  match input step with
  | Fixed value => inr value
  | Computed f => f soFar
  end.

(** [for (const step of steps)], with the three accumulators. Every run
    has [fuel] turns, and goes with the listeners of the promise attached
    ([step.agent.once('error', onError)]). *)
Fixpoint chain_loop (fuel : nat) (steps : list (ChainStep W)) (acc : ChainResult)
    (st : RunState W) : ChainOutcome * RunState W :=
  match steps with
  | [] => (ChainResolved acc, st)
  | step :: rest =>
      match input_of step (results acc) with
      | inl e => (ChainRejected (Threw e), st)
      | inr value =>
          let '(outcome, st') := run (Em := listening Em) fuel (agent step) value st in
          match settle (drop (length (trace st)) (trace st')) outcome with
          | None => (ChainOutOfFuel, st')
          | Some Pending => (ChainPending, st')
          | Some (Rejected reason) => (ChainRejected reason, st')
          | Some (Resolved response) =>
              chain_loop fuel rest
                {| results := results acc ++ [response];
                   totalLatency := totalLatency acc + latency_ms (meta response);
                   totalTokens := totalTokens acc + total_tokens (usage response) |}
                st'
          end
      end
  end.

Definition chain (fuel : nat) (steps : list (ChainStep W)) (st : RunState W)
  : ChainOutcome * RunState W :=
  chain_loop fuel steps {| results := []; totalLatency := 0; totalTokens := 0 |} st.

(** [responses] are the responses of [steps], one after the other: each is
    what the run of its step returns, on the input the step computes from
    the responses before it, from the state the step before it left. *)
Fixpoint in_step_order (fuel : nat) (steps : list (ChainStep W))
    (soFar : list AgentResponse) (st : RunState W)
    (responses : list AgentResponse) (st' : RunState W) : Prop :=
  match steps, responses with
  | [], [] => st' = st
  | step :: rest, response :: more =>
      exists value st1,
        input_of step soFar = inr value /\
        run (Em := listening Em) fuel (agent step) value st = (Returned response, st1) /\
        in_step_order fuel rest (soFar ++ [response]) st1 more st'
  | _, _ => False
  end.

End WithWorld.

(** The sum of a reading over the responses. *)
Definition total (reading : AgentResponse -> Z) (rs : list AgentResponse) : Z :=
  fold_right (fun r sum => reading r + sum) 0 rs.

End Chain.

(** ** The bridge to Server-Sent Events ([src/sse.ts])

    The bridge listens to the token, response and error notifications of an
    agent and writes one frame for each; the listener of either terminal
    notification removes all three listeners and ends the response. *)

(** The objects of a notification as JavaScript values, for
    [JSON.stringify]. *)
Class Payload : Type := {
  response_value : AgentResponse -> JSValue;
  error_value : string -> string -> Thrown -> JSValue
}.

Module SSE.


Section WithHost.
Context {J : Json} {Pl : Payload}.





End WithHost.

End SSE.

(** ** More sample collaborators

    A host for plain file names, a small disk, a vendor that streams a
    greeting, streams with ids and a usage report, and two chains. *)

Module MoreSamples.
Import Agent OpenAI Samples FileUtils Request.

Definition lower (c : ascii) : ascii :=
  let n := nat_of_ascii c in
  if (65 <=? n)%nat && (n <=? 90)%nat then ascii_of_nat (n + 32) else c.

Fixpoint lower_case (s : string) : string :=
  match s with
  | EmptyString => EmptyString
  | String c rest => String (lower c) (lower_case rest)
  end.

(** [path.slice(from, to)]. *)
Definition slice (path : string) (from to : Z) : string :=
  substring (Z.to_nat from) (Z.to_nat (to - from)) path.

(** The variables of the backward loops of [path.posix.basename] and
    [path.posix.extname]. *)
Record Scan : Type := {
  startDot : Z;
  startPart : Z;
  scan_end : Z;
  matchedSlash : bool;
  preDotState : Z
}.

(** [for (let i = path.length - 1; i >= 0; --i)] of [basename], on the
    characters from index [i] down. *)
Fixpoint basename_loop (chars : list ascii) (i : Z) (s : Scan) : Scan :=
  match chars with
  | [] => s
  | code :: rest =>
      if Ascii.eqb code "/"%char then
        if negb (matchedSlash s)
        then {| startDot := startDot s; startPart := i + 1; scan_end := scan_end s;
                matchedSlash := matchedSlash s; preDotState := preDotState s |}
        else basename_loop rest (i - 1) s
      else if scan_end s =? -1 then
        basename_loop rest (i - 1)
          {| startDot := startDot s; startPart := startPart s; scan_end := i + 1;
             matchedSlash := false; preDotState := preDotState s |}
      else basename_loop rest (i - 1) s
  end.

(** The same loop of [extname]. *)
Fixpoint extname_loop (chars : list ascii) (i : Z) (s : Scan) : Scan :=
  match chars with
  | [] => s
  | code :: rest =>
      if Ascii.eqb code "/"%char then
        if negb (matchedSlash s)
        then {| startDot := startDot s; startPart := i + 1; scan_end := scan_end s;
                matchedSlash := matchedSlash s; preDotState := preDotState s |}
        else extname_loop rest (i - 1) s
      else
        let s1 :=
          if scan_end s =? -1
          then {| startDot := startDot s; startPart := startPart s; scan_end := i + 1;
                  matchedSlash := false; preDotState := preDotState s |}
          else s in
        let s2 :=
          if Ascii.eqb code "."%char then
            if startDot s1 =? -1
            then {| startDot := i; startPart := startPart s1; scan_end := scan_end s1;
                    matchedSlash := matchedSlash s1; preDotState := preDotState s1 |}
            else if negb (preDotState s1 =? 1)
            then {| startDot := startDot s1; startPart := startPart s1;
                    scan_end := scan_end s1; matchedSlash := matchedSlash s1;
                    preDotState := 1 |}
            else s1
          else if negb (startDot s1 =? -1)
          then {| startDot := startDot s1; startPart := startPart s1;
                  scan_end := scan_end s1; matchedSlash := matchedSlash s1;
                  preDotState := -1 |}
          else s1 in
        extname_loop rest (i - 1) s2
  end.

Definition scan_start : Scan :=
  {| startDot := -1; startPart := 0; scan_end := -1; matchedSlash := true;
     preDotState := 0 |}.

Definition backwards (path : string) : list ascii := rev (list_ascii_of_string path).

(** [path.posix.basename(path)]. *)
Definition posix_basename (path : string) : string :=
  let s := basename_loop (backwards path) (Z.of_nat (String.length path) - 1) scan_start in
  if scan_end s =? -1 then EmptyString else slice path (startPart s) (scan_end s).

(** [path.posix.extname(path)]. *)
Definition posix_extname (path : string) : string :=
  let s := extname_loop (backwards path) (Z.of_nat (String.length path) - 1) scan_start in
  if (startDot s =? -1) || (scan_end s =? -1) || (preDotState s =? 0)
     || ((preDotState s =? 1) && (startDot s =? scan_end s - 1)
         && (startDot s =? startPart s + 1))
  then EmptyString
  else slice path (startDot s) (scan_end s).

(** [path] of a POSIX host, on names in ASCII. *)
Definition plain_names : NodePath :=
  {| basename := posix_basename;
     extname := posix_extname;
     toLowerCase := lower_case |}.

Definition disk : FileSystem := fun p =>
  if String.eqb p "docs/notes.md" then Readable "# Notes"
  else if String.eqb p "docs/locked.md" then Unreadable "EACCES: permission denied"
  else Missing.

Definition mixed_paths : list string :=
  ["docs/notes.md"; "logo.PNG"; "docs/locked.md"; "docs/gone.md"].

(** A host with one key in its environment, whose clients are the
    options they were built from. *)
Definition keyed_sdk : Providers.Sdk :=
  {| Providers.Client := option string * option string;
     Providers.env := fun variable =>
       if String.eqb variable "OPENAI_API_KEY" then Some "sk-sample" else None;
     Providers.new_OpenAI := fun apiKey baseURL => inr (apiKey, baseURL);
     Providers.new_GoogleGenAI := fun apiKey => inr (apiKey, None) |}.

Definition plain_schemas : Zod := {| toJSONSchema := fun _ => inr (JObj []) |}.

(** A vendor that takes 120 ms and streams a greeting in two pieces. *)
Definition greeting : ChatRequest -> Z -> (Thrown + list Chunk) * Z :=
  fun _ w => (inr [text_chunk "Hel"; text_chunk "lo!"], w + 120).

Definition openai_agent {P : NodePath} {J : Json} {Zd : Zod} : AgentConfig Z :=
  agent (openai_provider (fun _ => disk) greeting "gpt-4o") None None None (Some 1).

Definition usage_chunk (p c t : Z) : Chunk :=
  {| delta := None;
     chunk_usage := Some {| prompt_tokens := p; completion_tokens := c;
                            chunk_total_tokens := t |} |}.

Definition counted_stream : list Chunk :=
  [ text_chunk "Hi"; usage_chunk 12 1 13; text_chunk "!"; usage_chunk 12 2 14 ].

(** A fragment for position [i] with an id. *)
Definition fragment_at (i : nat) (cid : option string) (fname fargs : option string)
  : ToolCallDelta :=
  {| index := i; id := cid;
     function := Some {| fn_name := fname; fn_arguments := fargs |} |}.

Definition as_chunk (tc : ToolCallDelta) : Chunk :=
  {| delta := Some {| delta_content := None; delta_tool_calls := Some [tc] |};
     chunk_usage := None |}.

(** A call opened with one id and continued under another. *)
Definition opened : Chunk :=
  as_chunk (fragment_at 0 (Some "call_1") (Some "look") (Some EmptyString)).

Definition continued : list Chunk :=
  [ as_chunk (fragment_at 0 (Some "call_2") (Some "up") (Some "{}")) ].

(** Slots with a hole in front. *)
Definition sparse_slots : list (option ToolCallDelta) :=
  [ None; Some (fragment_at 1 (Some "call_1") (Some "lookup") (Some "{}")) ].

Definition greeter : Chain.ChainStep Z :=
  {| Chain.agent := chat_agent; Chain.input := Chain.Fixed hi |}.

(** A step that asks about the content of the first result. *)
Definition follow_up : Chain.ChainStep Z :=
  {| Chain.agent := chat_agent;
     Chain.input := Chain.Computed (fun soFar =>
       match soFar with
       | first :: _ =>
           match content first with
           | JStr text => inr (InputText ("You said: " +:+ text))
           | _ => inl (Error "no text")
           end
       | [] => inl (Error "no result")
       end) |}.

Definition offline : Chain.ChainStep Z :=
  {| Chain.agent := offline_agent; Chain.input := Chain.Fixed hi |}.

Definition no_results : Chain.ChainResult :=
  {| Chain.results := []; Chain.totalLatency := 0; Chain.totalTokens := 0 |}.

End MoreSamples.
(** * Properties *)

Section NumberFacts.

Lemma turns_left_done x i : less_than i x = false -> turns_left x i = Some 0%nat.
Proof.
  destruct x as [n|n| | |]; simpl; intros H; try reflexivity; try discriminate.
  - apply Z.ltb_ge in H. f_equal. lia.
  - apply Z.leb_gt in H. f_equal. lia.
Qed.


Lemma less_than_next x i : less_than (i + 1) x = true -> less_than i x = true.
Proof.
  destruct x as [n|n| | |]; simpl; intros H; try reflexivity; try discriminate.
  - apply Z.ltb_lt in H. apply Z.ltb_lt. lia.
  - apply Z.leb_le in H. apply Z.leb_le. lia.
Qed.

Lemma is_one_true x : is_one x = true <-> x = Integer 1.
Proof.
  destruct x as [n|n| | |]; simpl; split; intros H; try discriminate.
  - apply Z.eqb_eq in H. congruence.
  - injection H as ->. reflexivity.
Qed.

Lemma is_one_false x : x <> Integer 1 -> is_one x = false.
Proof.
  intros H. destruct (is_one x) eqn:I; [|reflexivity].
  apply is_one_true in I. contradiction.
Qed.

End NumberFacts.

Section FrameRules.
Import Frame.
Context {W : Type} (R : RunState W -> RunState W -> Prop).
Hypothesis R_refl : forall st, R st st.
Hypothesis R_trans : forall a b c, R a b -> R b c -> R a c.

Lemma keeps_ret {A} (a : A) : keeps R (ret a).
Proof. intros st. apply R_refl. Qed.

Lemma keeps_bind {A B} (m : M W A) (k : A -> M W B) :
  keeps R m -> (forall a, keeps R (k a)) -> keeps R (bind m k).
Proof.
  intros Hm Hk st. unfold bind. specialize (Hm st).
  destruct (m st) as [[a | e |] st']; simpl in *; auto.
  eapply R_trans; [exact Hm | apply Hk].
Qed.

End FrameRules.

Section FrameFacts.
Import Frame Trace.
Context {W : Type}.
Implicit Types (st : RunState W).

Lemma extends_refl p st : extends p st st.
Proof. exists []. split; [symmetry; apply app_nil_r | reflexivity]. Qed.

Lemma extends_trans p (a b c : RunState W) :
  extends p a b -> extends p b c -> extends p a c.
Proof.
  intros (x & Hx & Px) (y & Hy & Py). exists (x ++ y). split.
  - rewrite Hy, Hx. symmetry. apply app_assoc.
  - rewrite forallb_app, Px, Py. reflexivity.
Qed.

Lemma steady_refl st : steady st st.
Proof. repeat split; apply extends_refl. Qed.

Lemma steady_trans (a b c : RunState W) : steady a b -> steady b c -> steady a c.
Proof.
  intros (i1 & r1 & e1) (i2 & r2 & e2). repeat split; try congruence.
  eapply extends_trans; eauto.
Qed.

End FrameFacts.

Section DispatchFacts.
Import Agent Frame Trace.
Context {W : Type} {C : Clock W} {J : Json} {Em : Emitter}.
Implicit Types (cfg : AgentConfig W) (st : RunState W) (ts : list (AgentTool W)).

Ltac run_prims :=
  unfold dispatch_call, find_tool, save_if_configured, try_catch, bind, emit,
    console_error, push, update, read, ret, throw, call_execute, call_save;
  simpl.

(** A call that names no configured tool leaves the state as it is. *)
Lemma dispatch_call_unknown cfg ts c st :
  List.find (name_matches c) ts = None ->
  dispatch_call cfg ts (Some c) st = (Returned tt, st).
Proof. intros H. run_prims. rewrite H. reflexivity. Qed.

(** The state after a call whose tool threw [e] and left the world [w]. *)
Lemma dispatch_call_failure cfg ts c t e w st :
  List.find (name_matches c) ts = Some t ->
  execute t (call_arguments c) (world st) = (inl e, w) ->
  dispatch_call cfg ts (Some c) st =
  (Returned tt,
   with_messages (messages st ++ [errorMsg c t e])
     (observe [ConsoleError ("Error executing tool " +:+ tool_name t +:+ ":") e]
        (with_world w
           (observe [CallExecute (tool_name t) (call_arguments c) (inl e)]
              (observe [Emit (ev_tool_start (tool_name t) (call_arguments c))] st))))).
Proof. intros Hf He. run_prims. rewrite Hf. simpl. rewrite He. reflexivity. Qed.

(** A call on a real entry of the array returns, whatever its tool does. *)
Lemma dispatch_call_returns cfg ts c st :
  exists st', dispatch_call cfg ts (Some c) st = (Returned tt, st').
Proof.
  run_prims. destruct (List.find (name_matches c) ts) as [t|]; simpl.
  2: eexists; reflexivity.
  destruct (execute t (call_arguments c) (world st)) as [[e|v] w]; simpl.
  1: eexists; reflexivity.
  destruct (saveFunction cfg) as [save|]; simpl.
  2: eexists; reflexivity.
  destruct (save _ _) as [[e|[]] w']; simpl; eexists; reflexivity.
Qed.

Lemma dispatch_call_steady cfg ts call : keeps steady (dispatch_call cfg ts call).
Proof.
  intros st. destruct call as [c|].
  2: { run_prims. destruct ts; simpl; apply steady_refl. }
  run_prims. destruct (List.find (name_matches c) ts) as [t|]; simpl.
  2: apply steady_refl.
  destruct (execute t (call_arguments c) (world st)) as [[e|v] w]; simpl.
  { repeat split; simpl; auto. eexists; split; simpl.
    - rewrite <- !app_assoc. reflexivity.
    - reflexivity. }
  destruct (saveFunction cfg) as [save|]; simpl.
  2: { repeat split; simpl; auto. eexists; split; simpl.
       - rewrite <- !app_assoc. reflexivity.
       - reflexivity. }
  destruct (save _ _) as [[e|[]] w']; simpl.
  all: repeat split; simpl; auto; eexists; split; simpl;
    [rewrite <- !app_assoc; reflexivity | reflexivity].
Qed.

Lemma dispatch_calls_steady cfg ts calls : keeps steady (dispatch_calls cfg ts calls).
Proof.
  induction calls as [|call rest IH]; simpl.
  - apply keeps_ret, steady_refl.
  - apply (keeps_bind steady steady_trans).
    + apply dispatch_call_steady.
    + intros _. exact IH.
Qed.
End DispatchFacts.

Section TurnFacts.
Import Agent Frame Trace.
Context {W : Type} {C : Clock W} {J : Json} {Em : Emitter}.
Implicit Types (cfg : AgentConfig W) (st : RunState W) (ts : list (AgentTool W)).

Lemma count_app p (a b : list Obs) : count p (a ++ b) = (count p a + count p b)%nat.
Proof. unfold count. rewrite List.filter_app, List.length_app. reflexivity. Qed.

Lemma quiet_count_generate (t : list Obs) :
  forallb quiet t = true -> count is_generate t = 0%nat.
Proof.
  induction t as [|o t IH]; simpl; [reflexivity|].
  intros H. apply andb_prop in H as [Ho Ht]. unfold count in *. simpl.
  unfold quiet in Ho. destruct (is_generate o); simpl in *; [discriminate | auto].
Qed.

Lemma quiet_not_terminal (t : list Obs) :
  forallb quiet t = true -> forallb not_terminal t = true.
Proof.
  rewrite !forallb_forall. intros H o Ho. specialize (H o Ho).
  unfold quiet, not_terminal in *. destruct (is_generate o); simpl in *; [discriminate | exact H].
Qed.

Lemma tokens_quiet (toks : list string) :
  forallb quiet (List.map (fun t => Emit (ev_token t)) toks) = true.
Proof. induction toks; simpl; auto. Qed.

Lemma tokens_count p (toks : list string) :
  (forall t, p (Emit (ev_token t)) = false) ->
  count p (List.map (fun t => Emit (ev_token t)) toks) = 0%nat.
Proof. intros H. unfold count. induction toks; simpl; auto. rewrite H. exact IHtoks. Qed.

Lemma dispatch_calls_no_timeout cfg ts calls st :
  fst (dispatch_calls cfg ts calls st) <> Timeout.
Proof.
  revert st. induction calls as [|call rest IH]; intros st; simpl; [discriminate|].
  unfold bind. destruct call as [c|].
  - destruct (dispatch_call_returns cfg ts c st) as (st' & ->). apply IH.
  - unfold dispatch_call, find_tool, bind. destruct ts; simpl; [apply IH | discriminate].
Qed.

(** The tool block after the assistant message is saved. *)
Lemma run_tools_spec cfg ts calls st :
  fst (run_tools cfg ts calls st) <> Timeout /\
  iterations (snd (run_tools cfg ts calls st)) = iterations st /\
  extends quiet st (snd (run_tools cfg ts calls st)) /\
  (fst (run_tools cfg ts calls st) = Returned true ->
   less_than (iterations st) (maxIterations cfg) = true).
Proof.
  unfold run_tools, bind, update, read, ret. simpl.
  set (st1 := with_lastToolResult JNull st).
  pose proof (dispatch_calls_steady cfg ts calls st1) as (Di & _ & De).
  pose proof (dispatch_calls_no_timeout cfg ts calls st1) as Dn.
  destruct (dispatch_calls cfg ts calls st1) as [[[]|e|] st2]; simpl in *; try congruence.
  2: { repeat split; try discriminate; auto. }
  unfold intent_detection, update. simpl.
  match goal with
  | |- context [if ?c then ?a else st2] => set (st3 := if c then a else st2)
  end.
  assert (iterations st3 = iterations st2 /\ trace st3 = trace st2) as (Hi & Ht).
  { subst st3. destruct (_ && _); split; reflexivity. }
  clearbody st3. rewrite Hi, Di.
  assert (He : extends quiet st st3).
  { destruct De as (a & Ha & Hq). exists a. split; [rewrite Ht; exact Ha | exact Hq]. }
  destruct (less_than (iterations st) (maxIterations cfg)) eqn:G; simpl.
  - repeat split; try discriminate; try congruence; auto.
  - repeat split; try discriminate; try congruence; auto.
Qed.

(** One turn: it ends, it counts as one iteration and one call of [generate],
    it emits neither terminal notification, and it asks for another turn
    only below the ceiling. *)
Lemma turn_spec cfg st :
  fst (turn cfg st) <> Timeout /\
  iterations (snd (turn cfg st)) = iterations st + 1 /\
  (exists added,
      trace (snd (turn cfg st)) = trace st ++ added /\
      forallb not_terminal added = true /\
      count is_generate added = 1%nat) /\
  (fst (turn cfg st) = Returned true ->
   less_than (iterations st + 1) (maxIterations cfg) = true).
Proof.
  unfold turn, bind, read, update, call_generate. simpl.
  destruct (generate _ _ _ _ _ _ _ _) as [[toks [e|response]] w]; simpl.
  { split; [discriminate|]. split; [reflexivity|]. split; [|discriminate].
    eexists. split; [reflexivity|]. split.
    - rewrite forallb_app. rewrite (quiet_not_terminal _ (tokens_quiet toks)). reflexivity.
    - rewrite count_app, tokens_count by reflexivity. reflexivity. }
  set (st1 := with_lastResponse _ _).
  assert (Hst1 : iterations st1 = iterations st + 1 /\
                 exists added, trace st1 = trace st ++ added /\
                   forallb not_terminal added = true /\ count is_generate added = 1%nat).
  { split; [reflexivity|]. eexists. split; [reflexivity|]. split.
    - rewrite forallb_app. rewrite (quiet_not_terminal _ (tokens_quiet toks)). reflexivity.
    - rewrite count_app, tokens_count by reflexivity. reflexivity. }
  clearbody st1. destruct Hst1 as (Hi & added & Ht & Hq & Hc).
  destruct (tool_calls response) as [calls|]; [destruct (tools cfg) as [ts|]|]; simpl.
  2,3: (split; [discriminate|]; split; [exact Hi|]; split; [|discriminate]; eauto).
  assert (Tail : forall st2 obs,
            iterations st2 = iterations st1 -> trace st2 = trace st1 ++ obs ->
            forallb quiet obs = true ->
            let r := run_tools cfg ts calls st2 in
            fst r <> Timeout /\ iterations (snd r) = iterations st + 1 /\
            (exists a, trace (snd r) = trace st ++ a /\ forallb not_terminal a = true /\
                       count is_generate a = 1%nat) /\
            (fst r = Returned true ->
             less_than (iterations st + 1) (maxIterations cfg) = true)).
  { intros st2 obs Hi2 Ht2 Hobs r.
    destruct (run_tools_spec cfg ts calls st2) as (Rn & Ri & (ra & Rt & Rq) & Rlt).
    fold r in Rn, Ri, Rt, Rlt. split; [exact Rn|]. split; [congruence|]. split.
    - exists (added ++ obs ++ ra). split.
      + rewrite Rt, Ht2, Ht, <- !app_assoc. reflexivity.
      + split.
        * rewrite !forallb_app, Hq, (quiet_not_terminal _ Hobs), (quiet_not_terminal _ Rq). reflexivity.
        * rewrite !count_app, Hc, (quiet_count_generate _ Hobs), (quiet_count_generate _ Rq). reflexivity.
    - intros Hr. specialize (Rlt Hr). congruence. }
  unfold push, update, save_if_configured, call_save, ret. simpl.
  destruct (saveFunction cfg) as [save|]; simpl.
  2: { apply (Tail _ []); simpl; auto. rewrite app_nil_r. reflexivity. }
  destruct (save _ _) as [[e|[]] w']; simpl.
  - split; [discriminate|]. split; [exact Hi|]. split; [|discriminate].
    eexists. split; [rewrite Ht, <- app_assoc; reflexivity|]. split.
    + rewrite forallb_app, Hq. reflexivity.
    + rewrite count_app, Hc. reflexivity.
  - apply (Tail _ [CallSave (assistantMsg response) (inr ())]); simpl; auto.
Qed.

End TurnFacts.

Section LoopFacts.
Import Agent Frame Trace.
Context {W : Type} {C : Clock W} {J : Json} {Em : Emitter}.
Implicit Types (cfg : AgentConfig W) (st : RunState W).

Lemma turn_loop_unfold fuel cfg st :
  turn_loop fuel cfg st =
  if less_than (iterations st) (maxIterations cfg) then
    match fuel with
    | O => (Timeout, st)
    | S fuel' =>
        match turn cfg st with
        | (Returned true, st') => turn_loop fuel' cfg st'
        | (Returned false, st') => (Returned tt, st')
        | (Raised e, st') => (Raised e, st')
        | (Timeout, st') => (Timeout, st')
        end
    end
  else (Returned tt, st).
Proof.
  destruct fuel; simpl; unfold bind, read; simpl;
    destruct (less_than (iterations st) (maxIterations cfg)); try reflexivity.
  destruct (turn cfg st) as [[[]|e|] st']; reflexivity.
Qed.



End LoopFacts.

Section RunFacts.
Import Agent Frame Trace.
Context {W : Type} {C : Clock W} {J : Json} {Em : Emitter}.
Implicit Types (cfg : AgentConfig W) (st : RunState W).

Lemma idle_quiet (t : list Obs) : forallb idle t = true -> forallb quiet t = true.
Proof.
  rewrite !forallb_forall. intros H o Ho. specialize (H o Ho).
  unfold idle in H. apply andb_prop in H. tauto.
Qed.

Lemma initialize_spec cfg input st :
  exists st1,
    initialize cfg input st = (Returned (now (world st)), st1) /\
    messages st1 = initial_messages cfg input /\
    iterations st1 = 0 /\
    lastResponse st1 = None /\
    extends idle st st1.
Proof.
  unfold initialize, bind, read, emit, update, try_catch, call_save, console_error, ret.
  simpl.
  destruct input as [text | history]; simpl.
  - destruct (saveFunction cfg) as [save|]; simpl.
    + destruct (save (userMsg cfg text) (world st)) as [[e|[]] w] eqn:E; simpl.
      all: eexists; split; [reflexivity|]; simpl; repeat split;
        eexists; simpl; split; [rewrite <- ?app_assoc; reflexivity | reflexivity].
    + eexists; split; [reflexivity|]; simpl; repeat split.
      eexists; simpl; split; [reflexivity | reflexivity].
  - eexists; split; [reflexivity|]; simpl; repeat split.
    eexists; simpl; split; [reflexivity | reflexivity].
Qed.

Lemma after_initialize_eq cfg input st :
  initialize cfg input st = (Returned (now (world st)), after_initialize cfg input st).
Proof.
  unfold after_initialize.
  destruct (initialize_spec cfg input st) as (st1 & -> & _). reflexivity.
Qed.

Lemma finalize_none cfg t st :
  lastResponse st = None ->
  finalize cfg t st = (Raised (Error "Agent failed to generate a response"), st).
Proof. intros H. unfold finalize, bind, read. simpl. rewrite H. reflexivity. Qed.

(** With a response in hand [finalize] returns it, stamped with the latency,
    and the response notification is the last thing it does. *)
Lemma finalize_some cfg t st r0 :
  lastResponse st = Some r0 ->
  exists st' obs,
    finalize cfg t st = (Returned (set_latency_ms r0 (now (world st) - t)), st') /\
    trace st' = trace st ++ obs ++ [Emit (ev_response (set_latency_ms r0 (now (world st) - t)))] /\
    forallb idle obs = true /\
    messages st' = messages st.
Proof.
  intros H. unfold finalize, bind, read, update, emit, try_catch, call_save, console_error, ret.
  simpl. rewrite H. simpl.
  set (r := set_latency_ms r0 (now (world st) - t)).
  destruct (saveFunction cfg) as [save|]; simpl.
  - destruct (save (finalMsg r) (world st)) as [[e|[]] w] eqn:E; simpl.
    + eexists.
      exists [CallSave (finalMsg r) (inl e);
              ConsoleError "Failed to save assistant response:" e].
      split; [reflexivity|]. simpl. rewrite <- !app_assoc. repeat split.
    + eexists. exists [CallSave (finalMsg r) (inr tt)].
      split; [reflexivity|]. simpl. rewrite <- !app_assoc. repeat split.
  - eexists. exists []. split; [reflexivity|]. repeat split.
Qed.

End RunFacts.

Section RunTheorems.
Import Agent Frame Trace.
Context {W : Type} {C : Clock W} {J : Json} {Em : Emitter}.
Implicit Types (cfg : AgentConfig W) (st : RunState W).

(** [run], with the three phases spelled out. *)
Lemma run_unfold fuel cfg input st :
  run fuel cfg input st =
  match turn_loop fuel cfg (after_initialize cfg input st) with
  | (Returned _, st2) => finalize cfg (now (world st)) st2
  | (Raised e, st2) =>
      (Raised (rethrown e),
       observe [Emit (ev_error "execution_error" (message_or_else_string e) e)] st2)
  | (Timeout, st2) => (Timeout, st2)
  end.
Proof.
  unfold run, bind at 1. rewrite after_initialize_eq.
  unfold bind, guarded_loop, try_catch, emit_error, rethrown, bind, emit, update, throw, ret.
  destruct (turn_loop fuel cfg (after_initialize cfg input st)) as [[[]|e|] st2];
    try reflexivity.
  destruct error_listener; reflexivity.
Qed.

Lemma after_initialize_spec cfg input st :
  messages (after_initialize cfg input st) = initial_messages cfg input /\
  iterations (after_initialize cfg input st) = 0 /\
  lastResponse (after_initialize cfg input st) = None /\
  extends idle st (after_initialize cfg input st).
Proof.
  unfold after_initialize.
  destruct (initialize_spec cfg input st) as (st1 & -> & H). exact H.
Qed.



End RunTheorems.

Section SingleTurn.
Import Agent Frame Trace.
Context {W : Type} {C : Clock W} {J : Json} {Em : Emitter}.
Implicit Types (cfg : AgentConfig W) (st : RunState W) (ts : list (AgentTool W)).

Lemma last_success_app (a b : list Obs) :
  last_success (a ++ b) =
  match last_success b with Some v => Some v | None => last_success a end.
Proof.
  induction a as [|o a IH]; simpl.
  - destruct (last_success b); reflexivity.
  - rewrite IH. destruct (last_success b); reflexivity.
Qed.

Lemma no_tool_activity_last_success (t : list Obs) :
  forallb no_tool_activity t = true -> last_success t = None.
Proof.
  induction t as [|o t IH]; simpl; [reflexivity|].
  intros H. apply andb_prop in H as [Ho Ht]. rewrite (IH Ht).
  destruct o as [| | |? ? [|]|]; try reflexivity; discriminate.
Qed.

Lemma idle_no_tool_activity (t : list Obs) :
  forallb idle t = true -> forallb no_tool_activity t = true.
Proof.
  rewrite !forallb_forall. intros H o Ho. specialize (H o Ho).
  unfold idle in H. apply andb_prop in H. tauto.
Qed.

Lemma tokens_no_tool_activity (toks : list string) :
  forallb no_tool_activity (List.map (fun t => Emit (ev_token t)) toks) = true.
Proof. induction toks; simpl; auto. Qed.

(** What one call adds to the trace, and the tool result it leaves. *)
Lemma dispatch_call_result cfg ts call st :
  exists added,
    trace (snd (dispatch_call cfg ts call st)) = trace st ++ added /\
    lastToolResult (snd (dispatch_call cfg ts call st)) =
      default (lastToolResult st) (last_success added).
Proof.
  unfold dispatch_call, find_tool, save_if_configured, try_catch, bind, emit,
    console_error, push, update, read, ret, throw, call_execute, call_save.
  destruct call as [c|]; simpl.
  2: { destruct ts; simpl; exists []; rewrite app_nil_r; split; reflexivity. }
  destruct (List.find (name_matches c) ts) as [t|]; simpl.
  2: { exists []; rewrite app_nil_r; split; reflexivity. }
  destruct (execute t (call_arguments c) (world st)) as [[e|v] w] eqn:E; simpl.
  { exists [Emit (ev_tool_start (tool_name t) (call_arguments c));
            CallExecute (tool_name t) (call_arguments c) (inl e);
            ConsoleError ("Error executing tool " +:+ tool_name t +:+ ":") e].
    rewrite <- !app_assoc. split; reflexivity. }
  destruct (saveFunction cfg) as [save|]; simpl.
  2: { exists [Emit (ev_tool_start (tool_name t) (call_arguments c));
               CallExecute (tool_name t) (call_arguments c) (inr v);
               Emit (ev_tool_end (tool_name t) v)].
       rewrite <- !app_assoc. split; reflexivity. }
  destruct (save (toolMsg c t v) w) as [[e|[]] w'] eqn:S; simpl.
  - exists [Emit (ev_tool_start (tool_name t) (call_arguments c));
            CallExecute (tool_name t) (call_arguments c) (inr v);
            Emit (ev_tool_end (tool_name t) v);
            CallSave (toolMsg c t v) (inl e);
            ConsoleError ("Error executing tool " +:+ tool_name t +:+ ":") e].
    rewrite <- !app_assoc. split; reflexivity.
  - exists [Emit (ev_tool_start (tool_name t) (call_arguments c));
            CallExecute (tool_name t) (call_arguments c) (inr v);
            Emit (ev_tool_end (tool_name t) v);
            CallSave (toolMsg c t v) (inr tt)].
    rewrite <- !app_assoc. split; reflexivity.
Qed.

Lemma dispatch_calls_result cfg ts calls : forall st,
  exists added,
    trace (snd (dispatch_calls cfg ts calls st)) = trace st ++ added /\
    lastToolResult (snd (dispatch_calls cfg ts calls st)) =
      default (lastToolResult st) (last_success added).
Proof.
  induction calls as [|call rest IH]; intros st; simpl.
  - exists []. rewrite app_nil_r. split; reflexivity.
  - unfold bind.
    destruct (dispatch_call_result cfg ts call st) as (a & Ha & La).
    destruct (dispatch_call cfg ts call st) as [[[]|e|] st1]; simpl in *.
    + destruct (IH st1) as (b & Hb & Lb). exists (a ++ b). split.
      * rewrite Hb, Ha. symmetry. apply app_assoc.
      * rewrite Lb, La, last_success_app. destruct (last_success b); reflexivity.
    + exists a. split; assumption.
    + exists a. split; assumption.
Qed.

(** Without holes in the array every call returns, so the dispatch does. *)
Lemma dispatch_calls_returns cfg ts calls : forall st,
  Forall is_Some calls ->
  exists st', dispatch_calls cfg ts calls st = (Returned tt, st').
Proof.
  induction calls as [|call rest IH]; intros st H; simpl.
  - eexists. reflexivity.
  - inversion H as [|? ? [c ->] Hrest]; subst. unfold bind.
    destruct (dispatch_call_returns cfg ts c st) as (st1 & ->). apply IH, Hrest.
Qed.


(** The state in which a turn has its response in hand. *)
Lemma turn_generated cfg st toks response w :
  generate (provider cfg) (system cfg) (messages st) (files cfg) (tools cfg)
    (config cfg) (output_schema cfg) (world st) = (toks, inr response, w) ->
  exists st1,
    world st1 = w /\ iterations st1 = iterations st + 1 /\
    lastResponse st1 = Some (capture_message response) /\
    messages st1 = messages st /\
    (exists a, trace st1 = trace st ++ a /\ forallb no_tool_activity a = true /\
               count is_generate a = 1%nat /\ forallb not_terminal a = true /\
               forall h e, ~ In (CallGenerate h (inl e)) a) /\
    turn cfg st =
    match tool_calls response, tools cfg with
    | Some calls, Some ts =>
        bind (push (assistantMsg response))
          (fun _ => bind (save_if_configured cfg (assistantMsg response))
                      (fun _ => run_tools cfg ts calls)) st1
    | _, _ => (Returned false, st1)
    end.
Proof.
  intros G.
  exists (with_lastResponse (Some (capture_message response))
            (with_world w
               (observe (List.map (fun t => Emit (ev_token t)) toks
                         ++ [CallGenerate (messages st) (inr response)])
                  (with_iterations (iterations st + 1) st)))).
  split; [reflexivity|]. split; [reflexivity|]. split; [reflexivity|].
  split; [reflexivity|]. split.
  - exists (List.map (fun t => Emit (ev_token t)) toks ++ [CallGenerate (messages st) (inr response)]).
    split; [reflexivity|]. split.
    + rewrite forallb_app, tokens_no_tool_activity. reflexivity.
    + split; [|split].
      * rewrite count_app, tokens_count by reflexivity. reflexivity.
      * rewrite forallb_app, (quiet_not_terminal _ (tokens_quiet toks)). reflexivity.
      * intros h e Hin. apply in_app_or in Hin as [Hin | [Hin | []]]; [|discriminate].
        pose proof (tokens_quiet toks) as Hq. rewrite forallb_forall in Hq.
        specialize (Hq _ Hin). discriminate.
  - unfold turn, bind at 1 2 3 4, read, update at 1 2, call_generate. simpl.
    rewrite G. simpl.
    destruct (tool_calls response), (tools cfg); reflexivity.
Qed.

(** The turn when the hook throws on the assistant's tool-call message. *)
Lemma turn_save_raises cfg st toks response w calls ts save e w' :
  generate (provider cfg) (system cfg) (messages st) (files cfg) (tools cfg)
    (config cfg) (output_schema cfg) (world st) = (toks, inr response, w) ->
  tool_calls response = Some calls ->
  tools cfg = Some ts ->
  saveFunction cfg = Some save ->
  save (assistantMsg response) w = (inl e, w') ->
  exists st', turn cfg st = (Raised e, st') /\ messages st' = messages st ++ [assistantMsg response].
Proof.
  intros G Hc Ht Hs Hsave.
  destruct (turn_generated cfg st toks response w G) as (st1 & Hw & _ & _ & Hm & _ & ->).
  rewrite Hc, Ht. unfold bind, push, update, save_if_configured, call_save.
  rewrite Hs. simpl. rewrite Hw, Hsave. simpl.
  eexists. split; [reflexivity|]. simpl. rewrite Hm. reflexivity.
Qed.

(** The turn that reaches the tool block. *)
Lemma turn_reaches_tools cfg st toks response w calls ts w' :
  generate (provider cfg) (system cfg) (messages st) (files cfg) (tools cfg)
    (config cfg) (output_schema cfg) (world st) = (toks, inr response, w) ->
  tool_calls response = Some calls ->
  tools cfg = Some ts ->
  saved_ok cfg (assistantMsg response) w w' ->
  exists st2,
    turn cfg st = run_tools cfg ts calls st2 /\
    world st2 = w' /\ iterations st2 = iterations st + 1 /\
    lastResponse st2 = Some (capture_message response) /\
    messages st2 = messages st ++ [assistantMsg response] /\
    extends no_tool_activity st st2.
Proof.
  intros G Hc Ht Hs.
  destruct (turn_generated cfg st toks response w G)
    as (st1 & Hw & Hi & Hr & Hm & (a & Ha & Hq & _) & ->).
  rewrite Hc, Ht. unfold bind, push, update, save_if_configured, call_save, saved_ok in *.
  destruct (saveFunction cfg) as [save|]; simpl.
  - rewrite Hw, Hs. simpl. eexists. split; [reflexivity|]. simpl.
    repeat split; try congruence.
    exists (a ++ [CallSave (assistantMsg response) (inr tt)]). split.
    + simpl. rewrite Ha, <- app_assoc. reflexivity.
    + rewrite forallb_app, Hq. reflexivity.
  - subst w'. simpl. eexists. split; [reflexivity|]. simpl.
    repeat split; try congruence. exists a. split; assumption.
Qed.

(** The tool block on the last turn allowed: it falls through to [break]
    with the response that the legacy substitution leaves. *)
Lemma run_tools_last_turn cfg ts calls st r st' :
  less_than (iterations st) (maxIterations cfg) = false ->
  lastResponse st = Some r ->
  dispatch_calls cfg ts calls (with_lastToolResult JNull st) = (Returned tt, st') ->
  exists st'',
    run_tools cfg ts calls st = (Returned false, st'') /\
    lastResponse st'' =
      Some (if is_one (maxIterations cfg) && negb (is_null (lastToolResult st'))
            then set_content r (lastToolResult st') else r) /\
    trace st'' = trace st' /\ messages st'' = messages st' /\ world st'' = world st'.
Proof.
  intros Hmax Hr D.
  pose proof (dispatch_calls_steady cfg ts calls (with_lastToolResult JNull st)) as (Di & Dr & _).
  rewrite D in Di, Dr. simpl in Di, Dr.
  unfold run_tools, bind, update, read, ret, intent_detection. simpl. rewrite D. simpl.
  destruct (is_one (maxIterations cfg) && negb (is_null (lastToolResult st'))) eqn:B; simpl.
  - rewrite Di, Hmax.
    eexists. split; [reflexivity|]. simpl. rewrite Dr, Hr. repeat split.
  - rewrite Di, Hmax.
    eexists. split; [reflexivity|]. rewrite Dr, Hr. repeat split.
Qed.

End SingleTurn.

Section SingleTurnRuns.
Import Agent Frame Trace.
Context {W : Type} {C : Clock W} {J : Json} {Em : Emitter}.
Implicit Types (cfg : AgentConfig W) (st : RunState W) (ts : list (AgentTool W)).

Lemma turn_loop_done fuel cfg st :
  less_than (iterations st) (maxIterations cfg) = false ->
  turn_loop fuel cfg st = (Returned tt, st).
Proof. intros H. rewrite turn_loop_unfold, H. reflexivity. Qed.

(** A turn that returns on the last iteration allowed ends the loop. *)
Lemma turn_loop_last_turn fuel cfg st b st' :
  less_than (iterations st) (maxIterations cfg) = true ->
  less_than (iterations st + 1) (maxIterations cfg) = false ->
  turn cfg st = (Returned b, st') ->
  turn_loop (S fuel) cfg st = (Returned tt, st').
Proof.
  intros Hlt Hge T. rewrite turn_loop_unfold, Hlt, T.
  destruct b; [|reflexivity]. apply turn_loop_done.
  destruct (turn_spec cfg st) as (_ & Hi & _). rewrite T in Hi. simpl in Hi.
  rewrite Hi. exact Hge.
Qed.

(** A single-iteration run whose response carries no tool calls. *)
Lemma single_turn_without_tools fuel cfg input st toks response w :
  maxIterations cfg = 1 ->
  generate (provider cfg) (system cfg) (initial_messages cfg input) (files cfg)
    (tools cfg) (config cfg) (output_schema cfg)
    (world (after_initialize cfg input st)) = (toks, inr response, w) ->
  tool_calls response = None ->
  exists ms stf,
    run (S fuel) cfg input st =
      (Returned (set_latency_ms (capture_message response) ms), stf).
Proof.
  intros Hmax G Hnone.
  destruct (after_initialize_spec cfg input st) as (Hm & Hi & _ & _).
  rewrite <- Hm in G.
  destruct (turn_generated cfg _ toks response w G) as (st1 & _ & _ & Hr & _ & _ & T).
  rewrite Hnone in T.
  rewrite run_unfold, (turn_loop_last_turn fuel cfg _ false st1);
    try (rewrite Hi, Hmax; reflexivity); auto.
  destruct (finalize_some cfg (now (world st)) st1 _ Hr) as (stf & obs & -> & _).
  eauto.
Qed.

(** The response a single-iteration run resolves to when the dispatch left
    the tool result [v]. *)
Lemma resolved_content response v ms :
  content (set_latency_ms
             (if is_null v then capture_message response
              else set_content (capture_message response) v) ms) =
  (if is_null v then content response else v).
Proof.
  unfold capture_message.
  destruct (is_null v); [|reflexivity].
  destruct (content response) eqn:E; simpl; congruence.
Qed.

Lemma resolved_message response v ms text :
  content response = JStr text ->
  message (set_latency_ms
             (if is_null v then capture_message response
              else set_content (capture_message response) v) ms) = Some text.
Proof.
  intros H. unfold capture_message. rewrite H. destruct (is_null v); reflexivity.
Qed.

(** A single-iteration run that dispatches tools: the run resolves, and its
    content is the last tool result unless that is [null]. The trace is cut
    at the state [st2] in which the dispatch starts and the state [st3] in
    which it ends. *)
Lemma single_turn_with_tools fuel cfg input st toks response w1 w2 ts calls :
  maxIterations cfg = 1 ->
  generate (provider cfg) (system cfg) (initial_messages cfg input) (files cfg)
    (tools cfg) (config cfg) (output_schema cfg)
    (world (after_initialize cfg input st)) = (toks, inr response, w1) ->
  tool_calls response = Some calls ->
  tools cfg = Some ts ->
  saved_ok cfg (assistantMsg response) w1 w2 ->
  Forall is_Some calls ->
  exists st2 st3 ms stf pre post,
    world st2 = w2 /\ lastToolResult st2 = JNull /\
    messages st2 = initial_messages cfg input ++ [assistantMsg response] /\
    trace st2 = trace st ++ pre /\ forallb no_tool_activity pre = true /\
    dispatch_calls cfg ts calls st2 = (Returned tt, st3) /\
    run (S fuel) cfg input st =
      (Returned
         (set_latency_ms
            (if is_null (lastToolResult st3) then capture_message response
             else set_content (capture_message response) (lastToolResult st3)) ms),
       stf) /\
    trace stf = trace st3 ++ post /\ forallb no_tool_activity post = true /\
    last post =
      Some (Emit (ev_response
         (set_latency_ms
            (if is_null (lastToolResult st3) then capture_message response
             else set_content (capture_message response) (lastToolResult st3)) ms))) /\
    messages stf = messages st3.
Proof.
  intros Hmax G Hcalls Htools Hsave Hholes.
  destruct (after_initialize_spec cfg input st) as (Hm & Hi & _ & (a0 & Ha0 & Hq0)).
  rewrite <- Hm in G.
  destruct (turn_reaches_tools cfg _ toks response w1 calls ts w2 G Hcalls Htools Hsave)
    as (st2 & T & Hw2 & Hi2 & Hr2 & Hm2 & (a1 & Ha1 & Hq1)).
  destruct (dispatch_calls_returns cfg ts calls (with_lastToolResult JNull st2) Hholes)
    as (st3 & D).
  destruct (run_tools_last_turn cfg ts calls st2 _ st3
              ltac:(rewrite Hi2, Hi, Hmax; reflexivity) Hr2 D)
    as (st4 & R & Hr4 & Ht4 & Hm4 & Hw4).
  rewrite Hmax in Hr4. simpl in Hr4.
  destruct (finalize_some cfg (now (world st)) st4 _ Hr4) as (stf & obs & F & Htf & Hqf & Hmf).
  assert (Hcontent :
            (if negb (is_null (lastToolResult st3))
             then set_content (capture_message response) (lastToolResult st3)
             else capture_message response) =
            (if is_null (lastToolResult st3) then capture_message response
             else set_content (capture_message response) (lastToolResult st3))).
  { destruct (is_null (lastToolResult st3)); reflexivity. }
  rewrite Hcontent in *.
  exists (with_lastToolResult JNull st2), st3, (now (world st4) - now (world st)), stf.
  exists (a0 ++ a1).
  exists (obs ++ [Emit (ev_response
            (set_latency_ms
               (if is_null (lastToolResult st3) then capture_message response
                else set_content (capture_message response) (lastToolResult st3))
               (now (world st4) - now (world st))))]).
  split; [exact Hw2|]. split; [reflexivity|]. split; [simpl; rewrite Hm2, Hm; reflexivity|].
  split; [simpl; rewrite Ha1, Ha0, <- app_assoc; reflexivity|].
  split; [rewrite forallb_app, (idle_no_tool_activity _ Hq0), Hq1; reflexivity|].
  split; [exact D|]. split.
  { rewrite run_unfold, (turn_loop_last_turn fuel cfg _ false st4);
      try (rewrite Hi, Hmax; reflexivity).
    - exact F.
    - rewrite T. exact R. }
  split; [rewrite Htf, Ht4; reflexivity|].
  split; [rewrite forallb_app, (idle_no_tool_activity _ Hqf); reflexivity|].
  split; [apply last_snoc|].
  rewrite Hmf, Hm4. reflexivity.
Qed.

(** A successful call sets the tool result, whether or not its message can
    be persisted afterwards. *)
Lemma dispatch_call_success cfg ts c t v w st :
  List.find (name_matches c) ts = Some t ->
  execute t (call_arguments c) (world st) = (inr v, w) ->
  exists st', dispatch_call cfg ts (Some c) st = (Returned tt, st') /\
              lastToolResult st' = v.
Proof.
  intros Hf He.
  unfold dispatch_call, find_tool, save_if_configured, try_catch, bind, emit,
    console_error, push, update, read, ret, throw, call_execute, call_save.
  simpl. rewrite Hf. simpl. rewrite He. simpl.
  destruct (saveFunction cfg) as [save|]; simpl.
  - destruct (save (toolMsg c t v) w) as [[e|[]] w']; simpl; eexists; split; reflexivity.
  - eexists; split; reflexivity.
Qed.

(** When the hook throws on a tool's result message, the per-call [catch]
    takes it for a tool failure: the call returns, the result stays, and an
    error message follows the result message in the history. *)
Lemma hook_failure_on_tool_result_is_caught cfg ts c t v w save e w' st :
  List.find (name_matches c) ts = Some t ->
  execute t (call_arguments c) (world st) = (inr v, w) ->
  saveFunction cfg = Some save ->
  save (toolMsg c t v) w = (inl e, w') ->
  exists st', dispatch_call cfg ts (Some c) st = (Returned tt, st') /\
              messages st' = messages st ++ [toolMsg c t v; errorMsg c t e] /\
              lastToolResult st' = v.
Proof.
  intros Hf He Hs Hsave.
  unfold dispatch_call, find_tool, save_if_configured, try_catch, bind, emit,
    console_error, push, update, read, ret, throw, call_execute, call_save.
  simpl. rewrite Hf. simpl. rewrite He. simpl. rewrite Hs. simpl. rewrite Hsave. simpl.
  eexists. split; [reflexivity|]. simpl. rewrite <- app_assoc. split; reflexivity.
Qed.

Lemma last_success_in (t : list Obs) v :
  last_success t = Some v -> exists tn args, In (CallExecute tn args (inr v)) t.
Proof.
  induction t as [|o t IH]; simpl; [discriminate|].
  destruct (last_success t) as [v'|].
  - intros [= ->]. destruct (IH eq_refl) as (tn & args & Hin). eauto.
  - destruct o as [| | |tn args [e|v']|]; try discriminate.
    intros [= ->]. eauto.
Qed.

(** C1 (amended). In a single-iteration run whose response is a text with
    exactly one tool call, when that tool resolves to a value other than
    [null], the run resolves, its content is that value and its message is
    the model's text. *)
Theorem single_tool_result_becomes_content
    fuel cfg input st toks response text w1 w2 ts call t result w3 :
  maxIterations cfg = 1 ->
  generate (provider cfg) (system cfg) (initial_messages cfg input) (files cfg)
    (tools cfg) (config cfg) (output_schema cfg)
    (world (after_initialize cfg input st)) = (toks, inr response, w1) ->
  content response = JStr text ->
  tool_calls response = Some [Some call] ->
  tools cfg = Some ts ->
  List.find (name_matches call) ts = Some t ->
  saved_ok cfg (assistantMsg response) w1 w2 ->
  execute t (call_arguments call) w2 = (inr result, w3) ->
  result <> JNull ->
  exists r stf,
    run (S fuel) cfg input st = (Returned r, stf) /\
    content r = result /\
    message r = Some text.
Proof.
  intros Hmax G Htext Hcalls Htools Hfind Hsave Hexec Hnn.
  destruct (single_turn_with_tools fuel cfg input st toks response w1 w2 ts
              [Some call] Hmax G Hcalls Htools Hsave)
    as (st2 & st3 & ms & stf & pre & post & Hw2 & _ & _ & _ & _ & D & R & _).
  { repeat constructor. eexists; reflexivity. }
  rewrite <- Hw2 in Hexec.
  destruct (dispatch_call_success cfg ts call t result w3 st2 Hfind Hexec) as (st' & D1 & Hl).
  simpl in D. unfold bind in D. rewrite D1 in D. unfold ret in D.
  injection D as <-. rewrite Hl in R.
  eexists. eexists. split; [exact R|]. split.
  - rewrite resolved_content. destruct result; simpl; congruence.
  - apply resolved_message, Htext.
Qed.

(** C8 (amended). In a single-iteration run whose response is a text and
    carries no tool calls, the run resolves and content and message are
    both that text. *)
Theorem text_reply_is_content_and_message
    fuel cfg input st toks response text w :
  maxIterations cfg = 1 ->
  generate (provider cfg) (system cfg) (initial_messages cfg input) (files cfg)
    (tools cfg) (config cfg) (output_schema cfg)
    (world (after_initialize cfg input st)) = (toks, inr response, w) ->
  tool_calls response = None ->
  content response = JStr text ->
  exists r stf,
    run (S fuel) cfg input st = (Returned r, stf) /\
    content r = JStr text /\
    message r = Some text.
Proof.
  intros Hmax G Hnone Htext.
  destruct (single_turn_without_tools fuel cfg input st toks response w Hmax G Hnone)
    as (ms & stf & R).
  eexists. eexists. split; [exact R|].
  unfold capture_message. rewrite Htext. simpl. split; [exact Htext | reflexivity].
Qed.

(** C10. In a single-iteration run that dispatches tool calls, the content
    is the value of the latest tool that resolved when that value is not
    [null], and the provider's content otherwise; so it is the provider's
    content when every tool resolved to [null] or threw. *)
Theorem content_is_last_non_null_tool_result
    fuel cfg input st toks response w1 w2 ts calls :
  maxIterations cfg = 1 ->
  generate (provider cfg) (system cfg) (initial_messages cfg input) (files cfg)
    (tools cfg) (config cfg) (output_schema cfg)
    (world (after_initialize cfg input st)) = (toks, inr response, w1) ->
  tool_calls response = Some calls ->
  tools cfg = Some ts ->
  saved_ok cfg (assistantMsg response) w1 w2 ->
  Forall is_Some calls ->
  exists r stf added,
    run (S fuel) cfg input st = (Returned r, stf) /\
    trace stf = trace st ++ added /\
    content r =
      match last_success added with
      | Some v => if is_null v then content response else v
      | None => content response
      end /\
    ((forall tn args res, In (CallExecute tn args res) added ->
        res = inr JNull \/ exists e, res = inl e) ->
     content r = content response).
Proof.
  intros Hmax G Hcalls Htools Hsave Hholes.
  destruct (single_turn_with_tools fuel cfg input st toks response w1 w2 ts
              calls Hmax G Hcalls Htools Hsave Hholes)
    as (st2 & st3 & ms & stf & pre & post & _ & Hl2 & _ & Hpre & Hqpre & D & R & Hpost & Hqpost & _).
  destruct (dispatch_calls_result cfg ts calls st2) as (mid & Hmid & Hl).
  rewrite D in Hmid, Hl. simpl in Hmid, Hl. rewrite Hl2 in Hl.
  assert (Hls : last_success (pre ++ mid ++ post) = last_success mid).
  { rewrite !last_success_app, (no_tool_activity_last_success _ Hqpost),
      (no_tool_activity_last_success _ Hqpre).
    destruct (last_success mid); reflexivity. }
  assert (Hc : content (set_latency_ms
                 (if is_null (lastToolResult st3) then capture_message response
                  else set_content (capture_message response) (lastToolResult st3)) ms) =
               match last_success (pre ++ mid ++ post) with
               | Some v => if is_null v then content response else v
               | None => content response
               end).
  { rewrite resolved_content, Hls, Hl. destruct (last_success mid); reflexivity. }
  eexists. eexists. exists (pre ++ mid ++ post).
  split; [exact R|]. split; [rewrite Hpost, Hmid, Hpre, <- !app_assoc; reflexivity|].
  split; [exact Hc|].
  intros Hall. rewrite Hc.
  destruct (last_success (pre ++ mid ++ post)) as [v|] eqn:E; [|reflexivity].
  destruct (last_success_in _ _ E) as (tn & args & Hin).
  destruct (Hall _ _ _ Hin) as [[= ->] | (e & [=])]. reflexivity.
Qed.

End SingleTurnRuns.

Section Failures.
Import Agent Frame Trace.
Context {W : Type} {C : Clock W} {J : Json} {Em : Emitter}.
Implicit Types (cfg : AgentConfig W) (st : RunState W) (ts : list (AgentTool W)).

Lemma dispatch_calls_app cfg ts (a b : list (option ToolCall)) st :
  dispatch_calls cfg ts (a ++ b) st =
  bind (dispatch_calls cfg ts a) (fun _ => dispatch_calls cfg ts b) st.
Proof.
  revert st. induction a as [|call a IH]; intros st; simpl.
  - reflexivity.
  - unfold bind in *.
    destruct (dispatch_call cfg ts call st) as [[[]|e|] st1]; auto.
Qed.

(** C9. A call whose name matches no configured tool changes nothing: the
    state after it (trace, history, world) is the state before it, and the
    dispatch of a list of calls goes on as if the call were not in it. *)
Theorem unknown_tool_call_is_skipped cfg ts call :
  List.find (name_matches call) ts = None ->
  (forall st, dispatch_call cfg ts (Some call) st = (Returned tt, st)) /\
  (forall before after st,
      dispatch_calls cfg ts (before ++ Some call :: after) st =
      dispatch_calls cfg ts (before ++ after) st).
Proof.
  intros H. split.
  - intros st. apply dispatch_call_unknown, H.
  - intros before after st. rewrite !dispatch_calls_app. unfold bind.
    destruct (dispatch_calls cfg ts before st) as [[[]|e|] st1]; auto.
    simpl. unfold bind. rewrite (dispatch_call_unknown cfg ts call st1 H). reflexivity.
Qed.

Lemma not_terminal_counts (t : list Obs) :
  forallb not_terminal t = true ->
  count is_error t = 0%nat /\ count is_response t = 0%nat.
Proof.
  unfold count. induction t as [|o t IH]; simpl; [auto|].
  intros H. apply andb_prop in H as [Ho Ht]. destruct (IH Ht) as [E R].
  unfold not_terminal in Ho.
  destruct (is_error o), (is_response o); simpl in *; try discriminate; auto.
Qed.

Lemma idle_not_terminal (t : list Obs) :
  forallb idle t = true -> forallb not_terminal t = true.
Proof. intros H. apply quiet_not_terminal, idle_quiet, H. Qed.

Lemma no_tool_activity_tool_end (t : list Obs) :
  forallb no_tool_activity t = true -> count is_tool_end t = 0%nat.
Proof.
  unfold count. induction t as [|o t IH]; simpl; [auto|].
  intros H. apply andb_prop in H as [Ho Ht]. specialize (IH Ht).
  unfold no_tool_activity in Ho. destruct (is_tool_end o); [|exact IH].
  rewrite andb_false_r in Ho. discriminate.
Qed.

(** The loop emits neither terminal notification, whatever the fuel. *)
Lemma turn_loop_not_terminal cfg fuel : forall st,
  extends not_terminal st (snd (turn_loop fuel cfg st)).
Proof.
  induction fuel as [|fuel IH]; intros st; rewrite turn_loop_unfold;
    destruct (less_than (iterations st) (maxIterations cfg)); simpl; try apply extends_refl.
  destruct (turn_spec cfg st) as (_ & _ & (a & Ha & Hq & _) & _).
  assert (E : extends not_terminal st (snd (turn cfg st))) by (exists a; auto).
  destruct (turn cfg st) as [[[]|e|] st']; simpl in *; auto.
  eapply extends_trans; [exact E | apply IH].
Qed.






(** C4 (the run at the hook's second invocation point). When the hook
    throws on the assistant's tool-call message the run raises what the
    hook threw (the emitter's own error when nobody listens for ['error']):
    the error notification is its last act and no response notification
    fires. *)
Theorem hook_failure_on_tool_call_message_aborts
    fuel cfg input st toks response w1 calls ts save e w2 :
  less_than 0 (maxIterations cfg) = true ->
  generate (provider cfg) (system cfg) (initial_messages cfg input) (files cfg)
    (tools cfg) (config cfg) (output_schema cfg)
    (world (after_initialize cfg input st)) = (toks, inr response, w1) ->
  tool_calls response = Some calls ->
  tools cfg = Some ts ->
  saveFunction cfg = Some save ->
  save (assistantMsg response) w1 = (inl e, w2) ->
  exists stf added,
    run (S fuel) cfg input st = (Raised (rethrown e), stf) /\
    trace stf = trace st ++ added /\
    last added = Some (Emit (ev_error "execution_error" (message_or_else_string e) e)) /\
    count is_response added = 0%nat.
Proof.
  intros Hmax G Hcalls Htools Hsave Hthrows.
  destruct (after_initialize_spec cfg input st) as (Hm & Hi & _ & (a0 & Ha0 & Hq0)).
  rewrite <- Hm in G.
  destruct (turn_save_raises cfg _ toks response w1 calls ts save e w2
              G Hcalls Htools Hsave Hthrows) as (st' & T & _).
  assert (L : turn_loop (S fuel) cfg (after_initialize cfg input st) = (Raised e, st')).
  { rewrite turn_loop_unfold, Hi, Hmax, T. reflexivity. }
  pose proof (turn_loop_not_terminal cfg (S fuel) (after_initialize cfg input st)) as (a1 & Ha1 & Hq1).
  rewrite run_unfold. rewrite L in *. simpl in Ha1.
  destruct (not_terminal_counts _ (idle_not_terminal _ Hq0)) as (_ & R0).
  destruct (not_terminal_counts _ Hq1) as (_ & R1).
  eexists.
  exists (a0 ++ a1 ++ [Emit (ev_error "execution_error" (message_or_else_string e) e)]).
  split; [reflexivity|]. split; [simpl; rewrite Ha1, Ha0, <- !app_assoc; reflexivity|].
  split; [rewrite !app_assoc; apply last_snoc|].
  rewrite !count_app, R0, R1. reflexivity.
Qed.

(** C5 (amended). When the tool of a dispatched call throws, the call still
    returns: a tool-start notification was emitted, no tool-end notification
    was, and a tool message with the error text was appended to the
    history. A single-iteration run with that one call resolves, the
    response notification being its last act, with the error message at the
    end of its history. *)
Theorem tool_failure_becomes_error_message cfg ts c t :
  List.find (name_matches c) ts = Some t ->
  (forall st e w,
      execute t (call_arguments c) (world st) = (inl e, w) ->
      exists st' added,
        dispatch_call cfg ts (Some c) st = (Returned tt, st') /\
        messages st' = messages st ++ [errorMsg c t e] /\
        msg_role (errorMsg c t e) = Rtool /\
        msg_content (errorMsg c t e) = JStr ("Error: " +:+ message_or_string e) /\
        trace st' = trace st ++ added /\
        In (Emit (ev_tool_start (tool_name t) (call_arguments c))) added /\
        count is_tool_end added = 0%nat) /\
  (forall fuel input st toks response w1 w2 e w3,
      maxIterations cfg = 1 ->
      generate (provider cfg) (system cfg) (initial_messages cfg input) (files cfg)
        (tools cfg) (config cfg) (output_schema cfg)
        (world (after_initialize cfg input st)) = (toks, inr response, w1) ->
      tool_calls response = Some [Some c] ->
      tools cfg = Some ts ->
      saved_ok cfg (assistantMsg response) w1 w2 ->
      execute t (call_arguments c) w2 = (inl e, w3) ->
      exists r stf added,
        run (S fuel) cfg input st = (Returned r, stf) /\
        trace stf = trace st ++ added /\
        last added = Some (Emit (ev_response r)) /\
        count is_tool_end added = 0%nat /\
        messages stf =
          initial_messages cfg input ++ [assistantMsg response; errorMsg c t e]).
Proof.
  intros Hfind. split.
  - intros st e w He.
    rewrite (dispatch_call_failure cfg ts c t e w st Hfind He).
    eexists. eexists. split; [reflexivity|]. simpl. split; [reflexivity|].
    split; [reflexivity|]. split; [reflexivity|]. split.
    + rewrite <- !app_assoc. reflexivity.
    + simpl. split; [left; reflexivity | reflexivity].
  - intros fuel input st toks response w1 w2 e w3 Hmax G Hcalls Htools Hsave He.
    destruct (single_turn_with_tools fuel cfg input st toks response w1 w2 ts
                [Some c] Hmax G Hcalls Htools Hsave)
      as (st2 & st3 & ms & stf & pre & post & Hw2 & _ & Hm2 & Hpre & Hqpre & D & R
          & Hpost & Hqpost & Hlast & Hmf).
    { repeat constructor. eexists; reflexivity. }
    rewrite <- Hw2 in He.
    simpl in D. unfold bind in D.
    rewrite (dispatch_call_failure cfg ts c t e w3 st2 Hfind He) in D.
    unfold ret in D. injection D as <-.
    simpl in Hpost, Hmf.
    eexists. eexists.
    exists (pre ++ [Emit (ev_tool_start (tool_name t) (call_arguments c));
                    CallExecute (tool_name t) (call_arguments c) (inl e);
                    ConsoleError ("Error executing tool " +:+ tool_name t +:+ ":") e] ++ post).
    split; [exact R|]. split; [rewrite Hpost, Hpre, <- !app_assoc; reflexivity|].
    split.
    { rewrite app_assoc. destruct post as [|o post] using rev_ind; [discriminate|].
      rewrite last_snoc in Hlast. rewrite app_assoc, last_snoc. exact Hlast. }
    split.
    { rewrite !count_app, (no_tool_activity_tool_end _ Hqpre),
        (no_tool_activity_tool_end _ Hqpost). reflexivity. }
    rewrite Hmf, Hm2, <- app_assoc. reflexivity.
Qed.


End Failures.

Section Unbounded.
Import Agent.
Context {W : Type} {C : Clock W} {J : Json}.
Implicit Types (cfg : AgentConfig W) (st : RunState W).


End Unbounded.

Section Accumulator.
Import OpenAI.
Context {J : Json}.

(** On a slot whose name and arguments are strings already, a fragment for
    the same position extends both by concatenation. *)
Lemma fragments_append calls i cur n0 a0 x n a :
  array_get calls i = Some cur ->
  function cur = Some {| fn_name := Some n0; fn_arguments := Some a0 |} ->
  accumulate_tool_call calls
    {| index := i; id := x;
       function := Some {| fn_name := Some n; fn_arguments := Some a |} |} =
  inr (<[i := Some {| index := index cur; id := id cur;
                      function := Some {| fn_name := Some (n0 +:+ n);
                                          fn_arguments := Some (a0 +:+ a) |} |}]> calls).
Proof.
  intros Hget Hfun. unfold accumulate_tool_call, merge_name, merge_arguments. simpl.
  rewrite Hget.
  assert (Hnil : forall s : string, s +:+ EmptyString = s).
  { induction s as [|c s IH]; [reflexivity|].
    change (String c (s +:+ EmptyString) = String c s). rewrite IH. reflexivity. }
  destruct (String.eqb n EmptyString) eqn:En; simpl.
  - apply String.eqb_eq in En. subst n.
    destruct (String.eqb a EmptyString) eqn:Ea; simpl.
    + apply String.eqb_eq in Ea. subst a. rewrite !Hnil.
      destruct cur as [ci cid cf]. simpl in *. subst cf. reflexivity.
    + rewrite Hfun. simpl. rewrite Hnil. reflexivity.
  - rewrite Hfun. simpl.
    destruct (String.eqb a EmptyString) eqn:Ea; simpl.
    + apply String.eqb_eq in Ea. subst a. rewrite Hnil. reflexivity.
    + reflexivity.
Qed.

(** C2 (amended). With an output schema and no tool call, a failure of the
    structured-output handling is not fatal in any adapter. The OpenAI
    adapter (and the Grok one, which repeats it) succeeds with one warning
    in both failure cases: when the text does not parse the content is the
    raw text; when it parses and the schema rejects it the content is the
    parsed value. The Google adapter logs nothing and validates nothing: a
    text that does not parse is the content as it is, and a text that parses
    gives the parsed value whatever the schema says of it. *)
Theorem structured_output_failure_is_not_fatal model_name schema stream acc :
  stream_loop stream init_acc = inr acc ->
  toolCalls acc = [] ->
  (forall e, JSON_parse (fullContent acc) = inl e ->
     exists r,
       generate_from_stream model_name (Some schema) stream =
         {| tokens := emitted acc; warnings := [e]; result := inr r |} /\
       content r = JStr (fullContent acc) /\ tool_calls r = None) /\
  (forall v e, JSON_parse (fullContent acc) = inr v -> schema v = inl e ->
     exists r,
       generate_from_stream model_name (Some schema) stream =
         {| tokens := emitted acc; warnings := [e]; result := inr r |} /\
       content r = v /\ tool_calls r = None) /\
  (forall fullText usage grounding,
     exists r,
       Google.finish model_name (Some schema) fullText [] usage grounding = ([], r) /\
       tool_calls r = None /\
       (forall e, JSON_parse fullText = inl e -> content r = JStr fullText) /\
       (forall v, JSON_parse fullText = inr v -> content r = v)).
Proof.
  intros Hloop Hnone. unfold generate_from_stream. rewrite Hloop, Hnone. simpl.
  unfold structured_output. split; [|split].
  - intros e He. rewrite He. eexists. split; [reflexivity|]. split; reflexivity.
  - intros v e Hv He. rewrite Hv, He. eexists. split; [reflexivity|]. split; reflexivity.
  - intros fullText usage grounding. unfold Google.finish, Google.structured_output.
    destruct (JSON_parse fullText) as [e0|v0]; eexists;
      (split; [reflexivity|]); (split; [reflexivity|]); split; intros x Hx;
      try discriminate; simpl; congruence.
Qed.

End Accumulator.

(** * The theorems on the sample collaborators *)

Section OnSamples.
Import Agent Trace OpenAI Samples.
#[local] Existing Instance ms_clock.
#[local] Existing Instance host_json.
#[local] Existing Instance heard.


Lemma single_tool_result_becomes_content_witness :
  exists r stf,
    run 1 (lookup_agent (Some 1)) hi (fresh 1000) = (Returned r, stf) /\
    content r = JObj [("ok", JBool true)] /\
    message r = Some "Checking".
Proof.
  apply (single_tool_result_becomes_content 0 (lookup_agent (Some 1)) hi (fresh 1000)
           [] (checking "lookup") "Checking" 1125 1130 [lookup]
           {| call_name := Some "lookup"; call_arguments := JObj []; call_id := Some "c1" |}
           lookup (JObj [("ok", JBool true)]) 1160);
    try reflexivity.
  discriminate.
Defined.

Lemma text_reply_is_content_and_message_witness :
  exists r stf,
    run 1 chat_agent hi (fresh 1000) = (Returned r, stf) /\
    content r = JStr "Hello!" /\
    message r = Some "Hello!".
Proof.
  apply (text_reply_is_content_and_message 0 chat_agent hi (fresh 1000)
           [] (reply (JStr "Hello!") None) "Hello!" 1120); reflexivity.
Defined.

Lemma content_is_last_non_null_tool_result_witness :
  exists r stf added,
    run 1 silent_agent hi (fresh 1000) = (Returned r, stf) /\
    trace stf = trace (fresh 1000) ++ added /\
    content r =
      match last_success added with
      | Some v => if is_null v then content (checking "silent") else v
      | None => content (checking "silent")
      end /\
    ((forall tn args res, In (CallExecute tn args res) added ->
        res = inr JNull \/ exists e, res = inl e) ->
     content r = content (checking "silent")).
Proof.
  apply (content_is_last_non_null_tool_result 0 silent_agent hi (fresh 1000)
           [] (checking "silent") 1125 1130 [silent] [call_of "silent" "c1"]);
    try reflexivity.
  repeat constructor. eexists; reflexivity.
Defined.

Lemma unknown_tool_call_is_skipped_witness :
  dispatch_call (lookup_agent (Some 1)) [lookup] (call_of "missing" "c0") (fresh 1000) =
    (Returned tt, fresh 1000) /\
  dispatch_calls (lookup_agent (Some 1)) [lookup]
    ([call_of "lookup" "c1"] ++ call_of "missing" "c0" :: [call_of "lookup" "c2"]) (fresh 1000) =
  dispatch_calls (lookup_agent (Some 1)) [lookup]
    ([call_of "lookup" "c1"] ++ [call_of "lookup" "c2"]) (fresh 1000).
Proof.
  destruct (unknown_tool_call_is_skipped (lookup_agent (Some 1)) [lookup]
              {| call_name := Some "missing"; call_arguments := JObj []; call_id := Some "c0" |}
              eq_refl) as [H1 H2].
  split; [apply H1 | apply H2].
Defined.


Lemma hook_failure_on_tool_call_message_aborts_witness :
  exists stf added,
    run 1 unsaved_agent hi (fresh 1000) = (Raised (Error "db down"), stf) /\
    trace stf = trace (fresh 1000) ++ added /\
    last added = Some (Emit (ev_error "execution_error"
                               (message_or_else_string (Error "db down"))
                               (Error "db down"))) /\
    count is_response added = 0%nat.
Proof.
  exact (hook_failure_on_tool_call_message_aborts 0 unsaved_agent hi (fresh 1000)
           [] (checking "lookup") 1125 [call_of "lookup" "c1"] [lookup] store_down
           (Error "db down") 1130 eq_refl eq_refl eq_refl eq_refl eq_refl eq_refl).
Defined.

Lemma tool_failure_becomes_error_message_witness :
  exists r stf added,
    run 1 faulty_agent hi (fresh 1000) = (Returned r, stf) /\
    trace stf = trace (fresh 1000) ++ added /\
    last added = Some (Emit (ev_response r)) /\
    count is_tool_end added = 0%nat /\
    messages stf =
      initial_messages faulty_agent hi ++
      [assistantMsg (checking "faulty");
       errorMsg {| call_name := Some "faulty"; call_arguments := JObj []; call_id := Some "c1" |}
         faulty (Error "boom")].
Proof.
  destruct (tool_failure_becomes_error_message faulty_agent [faulty]
              {| call_name := Some "faulty"; call_arguments := JObj []; call_id := Some "c1" |}
              faulty eq_refl) as [_ H].
  apply (H 0%nat hi (fresh 1000) [] (checking "faulty") 1125 1130 (Error "boom") 1160);
    reflexivity.
Defined.

Lemma structured_output_failure_is_not_fatal_witness :
  (exists r,
     generate_from_stream "gpt" (Some any_schema) not_json_stream =
       {| tokens := emitted (accumulated not_json_stream);
          warnings := [SyntaxError "Unexpected token in JSON"];
          result := inr r |} /\
     content r = JStr (fullContent (accumulated not_json_stream)) /\
     tool_calls r = None) /\
  (exists g,
     Google.finish "models/gemini" (Some any_schema) "Sure, here you go" []
       (acc_usage init_acc) JUndefined = ([], g) /\
     content g = JStr "Sure, here you go").
Proof.
  destruct (structured_output_failure_is_not_fatal "models/gemini" any_schema not_json_stream
              (accumulated not_json_stream) eq_refl eq_refl) as (H & _ & G).
  split.
  - destruct (structured_output_failure_is_not_fatal "gpt" any_schema not_json_stream
                (accumulated not_json_stream) eq_refl eq_refl) as (H' & _).
    apply H'. reflexivity.
  - destruct (G "Sure, here you go" (acc_usage init_acc) JUndefined)
      as (g & Hg & _ & Hraw & _).
    exists g. split; [exact Hg|].
    apply (Hraw (SyntaxError "Unexpected token in JSON")). reflexivity.
Defined.

(** C3 (the code on the deltas of Scenario E). The first delta has a name
    and no arguments, so the second one appends to a missing property: the
    accumulated arguments start with the text [undefined], parsing them
    fails and [generate] throws instead of returning the call. *)
Theorem scenario_E_arguments_start_with_undefined :
  stream_loop scenario_E init_acc =
    inr {| fullContent := EmptyString;
           toolCalls :=
             [Some {| index := 0%nat; id := None;
                      function :=
                        Some {| fn_name := Some "get_weather";
                                fn_arguments :=
                                  Some ("undefined{" +:+ qt +:+ "city" +:+ qt +:+ ":"
                                        +:+ qt +:+ "SF" +:+ qt +:+ "}") |} |}];
           acc_usage := no_usage;
           emitted := [] |} /\
  result (generate_from_stream "gpt" None scenario_E) =
    inl (SyntaxError "Unexpected token in JSON").
Proof. split; reflexivity. Qed.

(** The same deltas with an empty [arguments] in the first one give the one
    call of the scenario. *)
Lemma scenario_E_announced_accumulates :
  result (generate_from_stream "gpt" None scenario_E_announced) =
    inr {| content := JStr EmptyString;
           tool_calls :=
             Some [Some {| call_name := Some "get_weather";
                           call_arguments := JObj [("city", JStr "SF")];
                           call_id := None |}];
           message := None;
           usage := no_usage;
           meta := {| model := "gpt"; latency_ms := 0; meta_extra := [] |} |}.
Proof. reflexivity. Qed.

(** C1, as stated, fails when the one tool resolves to [null]: the content
    stays the model's text. *)
Lemma null_tool_result_is_not_content :
  max_tool_iterations silent_agent = Some (Integer 1) /\
  tool_calls (checking "silent") = Some [call_of "silent" "c1"] /\
  exists r stf,
    run 1 silent_agent hi (fresh 1000) = (Returned r, stf) /\
    List.filter is_execute (trace stf) = [CallExecute "silent" (JObj []) (inr JNull)] /\
    content r = JStr "Checking" /\
    content r <> JNull.
Proof.
  split; [reflexivity|]. split; [reflexivity|].
  vm_compute. eexists. eexists. split; [reflexivity|]. split; [reflexivity|].
  split; [reflexivity | discriminate].
Qed.

(** C2, as stated, fails when the text parses and the schema rejects it: the
    content is the parsed object, not the raw text. *)
Lemma rejected_output_is_not_raw_text :
  toolCalls (accumulated object_stream) = [] /\
  fullContent (accumulated object_stream) = "{" +:+ qt +:+ "a" +:+ qt +:+ ":1}" /\
  (exists v e, JSON_parse (fullContent (accumulated object_stream)) = inr v /\
               no_schema v = inl e) /\
  exists r,
    result (generate_from_stream "gpt" (Some no_schema) object_stream) = inr r /\
    content r = JObj [("a", JNum 1 0)] /\
    content r <> JStr (fullContent (accumulated object_stream)).
Proof.
  split; [reflexivity|]. split; [reflexivity|]. split.
  - vm_compute. eexists. eexists. split; reflexivity.
  - vm_compute. eexists. split; [reflexivity|]. split; [reflexivity | discriminate].
Qed.

(** C5, as stated, fails on a tool that throws: with a working hook
    configured, no tool-end notification is emitted and the hook is not
    called on the error message, though the run resolves. *)
Lemma failed_tool_has_no_tool_end_and_is_not_persisted :
  saveFunction faulty_agent = Some store_ok /\
  exists r stf,
    run 1 faulty_agent hi (fresh 1000) = (Returned r, stf) /\
    List.filter is_execute (trace stf) =
      [CallExecute "faulty" (JObj []) (inl (Error "boom"))] /\
    count is_tool_start (trace stf) = 1%nat /\
    count is_tool_end (trace stf) = 0%nat /\
    count saves_tool_message (trace stf) = 0%nat /\
    last (messages stf) =
      Some {| msg_role := Rtool; msg_content := JStr "Error: boom";
              msg_name := Some "faulty"; msg_tool_calls := None;
              msg_tool_call_id := Some "c1"; msg_usage := None; msg_meta := None |}.
Proof.
  split; [reflexivity|]. vm_compute. eexists. eexists. repeat split; reflexivity.
Qed.


(** With nobody listening for ['error'] the exception of a failed run is
    not what the caller gets: the emitter throws its own error from inside
    the [catch] block. *)
Lemma unheard_exception_is_replaced :
  exists stf,
    run (Em := unheard) 1 offline_agent hi (fresh 1000) =
      (Raised (Error ("Unhandled error. ("
                      +:+ inspected "execution_error" "network down" (Error "network down")
                      +:+ ")")), stf) /\
    count is_generate (trace stf) = 1%nat /\
    count is_error (trace stf) = 1%nat /\
    count is_response (trace stf) = 0%nat.
Proof. vm_compute. eexists. repeat split; reflexivity. Qed.


(** C8, as stated, fails when an output schema is set and the text parses:
    the content is the parsed object and no message is captured. *)
Lemma structured_reply_has_no_message :
  max_tool_iterations structured_agent = Some (Integer 1) /\
  exists r stf,
    run 1 structured_agent hi (fresh 1000) = (Returned r, stf) /\
    tool_calls r = None /\
    content r = JObj [("a", JNum 1 0)] /\
    message r = None.
Proof.
  split; [reflexivity|]. vm_compute. eexists. eexists. repeat split; reflexivity.
Qed.

End OnSamples.

(** * Further properties of the turn loop *)

Section MoreFrameRules.
Import Frame.
Context {W : Type} (R : RunState W -> RunState W -> Prop).
Hypothesis R_refl : forall st, R st st.
Hypothesis R_trans : forall a b c, R a b -> R b c -> R a c.

Lemma keeps_try_catch {A} (m : M W A) (h : Thrown -> M W A) :
  keeps R m -> (forall e, keeps R (h e)) -> keeps R (try_catch m h).
Proof.
  intros Hm Hh st. unfold try_catch. specialize (Hm st).
  destruct (m st) as [[a | e |] st']; simpl in *; auto.
  eapply R_trans; [exact Hm | apply Hh].
Qed.

Lemma keeps_if {A} (b : bool) (m1 m2 : M W A) :
  keeps R m1 -> keeps R m2 -> keeps R (if b then m1 else m2).
Proof. destruct b; auto. Qed.

End MoreFrameRules.

Section HistoryFacts.
Import Agent Frame Trace History.
Context {W : Type} {C : Clock W} {J : Json} {Em : Emitter}.
Implicit Types (cfg : AgentConfig W) (st : RunState W) (ts : list (AgentTool W)).

Section Growth.
Variable P : list AgentMessage -> Prop.
Hypothesis P_nil : P [].
Hypothesis P_app : forall a b, P a -> P b -> P (a ++ b).

Lemma grows_refl st : grows P st st.
Proof. exists []. rewrite app_nil_r. auto. Qed.

Lemma grows_trans (a b c : RunState W) : grows P a b -> grows P b c -> grows P a c.
Proof.
  intros (x & Hx & Px) (y & Hy & Py). exists (x ++ y). split; [|auto].
  rewrite Hy, Hx. symmetry. apply app_assoc.
Qed.

Lemma grows_same st st' : messages st' = messages st -> grows P st st'.
Proof. intros H. exists []. rewrite app_nil_r. auto. Qed.

Lemma keeps_history {A} (m : M W A) :
  (forall st, messages (snd (m st)) = messages st) -> keeps (grows P) m.
Proof. intros H st. apply grows_same, H. Qed.

Lemma call_save_history (save : AgentMessage -> W -> (Thrown + unit) * W) m :
  keeps (grows P) (call_save save m).
Proof.
  apply keeps_history. intros st. unfold call_save.
  destruct (save m (world st)) as [[e|[]] w]; reflexivity.
Qed.

Lemma save_if_configured_history cfg m : keeps (grows P) (save_if_configured cfg m).
Proof.
  unfold save_if_configured. destruct (saveFunction cfg).
  - apply call_save_history.
  - apply keeps_history. reflexivity.
Qed.

Lemma call_generate_history cfg : keeps (grows P) (call_generate cfg).
Proof.
  apply keeps_history. intros st. unfold call_generate.
  destruct (generate _ _ _ _ _ _ _ _) as [[toks [e|r]] w]; reflexivity.
Qed.

Lemma intent_detection_history cfg : keeps (grows P) (intent_detection cfg).
Proof.
  apply keeps_history. intros st. unfold intent_detection, update. simpl.
  destruct (_ && _); reflexivity.
Qed.

End Growth.

Lemma Forall_grows_app {A} (Q : A -> Prop) (a b : list A) :
  Forall Q a -> Forall Q b -> Forall Q (a ++ b).
Proof. intros. apply Forall_app. auto. Qed.

(** What one call appends answers that call. *)
Lemma dispatch_call_history cfg ts calls call :
  In call calls ->
  keeps (grows (Forall (answers ts calls))) (dispatch_call cfg ts call).
Proof.
  intros Hin st.
  unfold dispatch_call, find_tool, save_if_configured, try_catch, bind, emit,
    console_error, push, update, read, ret, throw, call_execute, call_save.
  destruct call as [c|]; simpl.
  2: { destruct ts; simpl; apply grows_refl; constructor. }
  destruct (List.find (name_matches c) ts) as [t|] eqn:F; simpl.
  2: { apply grows_refl; constructor. }
  apply List.find_some in F as [Ht Hn].
  assert (Ha : forall body, answers ts calls
            {| msg_role := Rtool; msg_content := body; msg_name := Some (tool_name t);
               msg_tool_calls := None; msg_tool_call_id := call_id c;
               msg_usage := None; msg_meta := None |}).
  { intros body. split; [reflexivity|]. exists c, t. auto. }
  destruct (execute t (call_arguments c) (world st)) as [[e|v] w]; simpl.
  { eexists. split; [reflexivity|]. repeat constructor. apply Ha. }
  destruct (saveFunction cfg) as [save|]; simpl.
  2: { eexists. split; [reflexivity|]. repeat constructor. apply Ha. }
  destruct (save (toolMsg c t v) w) as [[e|[]] w']; simpl.
  - exists [toolMsg c t v; errorMsg c t e]. split; [rewrite <- app_assoc; reflexivity|].
    repeat constructor; apply Ha.
  - eexists. split; [reflexivity|]. repeat constructor. apply Ha.
Qed.

Lemma dispatch_calls_history cfg ts calls : forall sub,
  incl sub calls ->
  keeps (grows (Forall (answers ts calls))) (dispatch_calls cfg ts sub).
Proof.
  induction sub as [|call rest IH]; intros Hincl; simpl.
  - apply keeps_ret, grows_refl. constructor.
  - apply keeps_bind.
    + apply grows_trans. apply Forall_grows_app.
    + apply dispatch_call_history, Hincl. left. reflexivity.
    + intros _. apply IH. intros x Hx. apply Hincl. right. exact Hx.
Qed.

Lemma run_tools_history cfg ts calls :
  keeps (grows (Forall (answers ts calls))) (run_tools cfg ts calls).
Proof.
  assert (Hn : Forall (answers ts calls) []) by constructor.
  pose proof (@Forall_grows_app _ (answers ts calls)) as Ha.
  unfold run_tools.
  apply keeps_bind; [apply grows_trans, Ha | apply keeps_history; auto |]. intros _.
  apply keeps_bind; [apply grows_trans, Ha | apply dispatch_calls_history, incl_refl |]. intros _.
  apply keeps_bind; [apply grows_trans, Ha | apply intent_detection_history; auto |]. intros _.
  apply keeps_bind; [apply grows_trans, Ha | apply keeps_history; auto |]. intros i.
  apply keeps_if; apply keeps_history; auto.
Qed.

Lemma linked_app pending (a b : list AgentMessage) :
  linked pending a -> (forall q, linked q b) -> linked pending (a ++ b).
Proof.
  revert pending. induction a as [|m a IH]; intros pending Ha Hb; simpl; [apply Hb|].
  simpl in Ha. destruct (msg_role m); try contradiction.
  - destruct (msg_tool_calls m); [auto | contradiction].
  - destruct Ha as [Hc Ha]. split; auto.
Qed.

Lemma blocks_nil cfg : blocks cfg [].
Proof. split; [intros; exact I | constructor]. Qed.

Lemma blocks_app cfg (a b : list AgentMessage) :
  blocks cfg a -> blocks cfg b -> blocks cfg (a ++ b).
Proof.
  intros [La Fa] [Lb Fb]. split.
  - intros pending. apply linked_app; auto.
  - apply Forall_app. auto.
Qed.

Lemma answers_linked ts calls (ms : list AgentMessage) :
  Forall (answers ts calls) ms -> linked calls ms.
Proof.
  induction 1 as [|m ms (Hr & c & t & Hc & _ & _ & Hid & _) _ IH]; simpl; [exact I|].
  rewrite Hr. split; [eauto | exact IH].
Qed.

Lemma answers_appended cfg ts calls (ms : list AgentMessage) :
  tools cfg = Some ts ->
  Forall (answers ts calls) ms -> Forall (appended_by cfg) ms.
Proof.
  intros Ht H.
  induction H as [|m ms (Hr & c & t & _ & Hin & _ & _ & Hn) _ IH]; constructor; [|exact IH].
  right. split; [exact Hr|]. eauto.
Qed.

(** A turn appends nothing, or the assistant's message and then the
    answers to its calls. *)
Lemma turn_history cfg : keeps (grows (blocks cfg)) (turn cfg).
Proof.
  pose proof (blocks_nil cfg) as Hn. pose proof (blocks_app cfg) as Ha.
  unfold turn.
  apply keeps_bind; [apply grows_trans, Ha | apply keeps_history; auto |]. intros i.
  apply keeps_bind; [apply grows_trans, Ha | apply keeps_history; auto |]. intros _.
  apply keeps_bind; [apply grows_trans, Ha | apply call_generate_history; auto |].
  intros response.
  apply keeps_bind; [apply grows_trans, Ha | apply keeps_history; auto |]. intros _.
  destruct (tool_calls response) as [calls|] eqn:Hc;
    [destruct (tools cfg) as [ts|] eqn:Ht|].
  2,3: apply keeps_history; auto.
  intros st. unfold grows, bind at 1, push, update. simpl.
  set (st1 := with_messages _ st).
  assert (B1 : blocks cfg [assistantMsg response]).
  { split.
    - intros pending. simpl. rewrite Hc. exact I.
    - constructor; [|constructor]. left. split; [reflexivity|]. simpl. rewrite Hc. eauto. }
  unfold bind.
  pose proof (save_if_configured_history (fun _ => True) I cfg (assistantMsg response)) as Hs.
  unfold keeps in Hs. destruct (Hs st1) as (x & Hx & _). clear Hs.
  assert (x = []) as ->.
  { unfold save_if_configured, call_save, ret in Hx.
    destruct (saveFunction cfg) as [save|]; simpl in Hx.
    - destruct (save _ _) as [[e|[]] w]; simpl in Hx;
        rewrite <- (app_nil_r (messages st ++ _)) in Hx at 1;
        apply app_inv_head in Hx; auto.
    - rewrite <- (app_nil_r (messages st ++ _)) in Hx at 1.
      apply app_inv_head in Hx; auto. }
  rewrite app_nil_r in Hx.
  destruct (save_if_configured cfg (assistantMsg response) st1) as [[[]|e|] st2];
    simpl in Hx; try (exists [assistantMsg response]; split; [exact Hx | exact B1]).
  pose proof (run_tools_history cfg ts calls) as Hr. unfold keeps in Hr.
  destruct (Hr st2) as (d & Hd & Pd). clear Hr.
  exists ([assistantMsg response] ++ d). split.
  - rewrite Hd, Hx. subst st1. simpl. rewrite <- app_assoc. reflexivity.
  - split.
    + intros pending. simpl. rewrite Hc. apply answers_linked with (ts := ts). exact Pd.
    + apply Forall_app. split; [apply B1 | eapply answers_appended; eauto].
Qed.

Lemma turn_loop_history cfg fuel : keeps (grows (blocks cfg)) (turn_loop fuel cfg).
Proof.
  pose proof (blocks_nil cfg) as Hn. pose proof (blocks_app cfg) as Ha.
  induction fuel as [|fuel IH]; simpl.
  - apply keeps_bind; [apply grows_trans, Ha | apply keeps_history; auto |]. intros i.
    apply keeps_if; apply keeps_history; auto.
  - apply keeps_bind; [apply grows_trans, Ha | apply keeps_history; auto |]. intros i.
    apply keeps_if; [|apply keeps_history; auto].
    apply keeps_bind; [apply grows_trans, Ha | apply turn_history |]. intros again.
    apply keeps_if; [exact IH | apply keeps_history; auto].
Qed.

(** The history a run ends with, however it ends. *)
Lemma run_history fuel cfg input st :
  exists appended,
    messages (snd (run fuel cfg input st)) = initial_messages cfg input ++ appended /\
    blocks cfg appended.
Proof.
  destruct (after_initialize_spec cfg input st) as (Hm & _).
  pose proof (turn_loop_history cfg fuel) as Hl. unfold keeps in Hl.
  destruct (Hl (after_initialize cfg input st)) as (a & Ha & Pa). clear Hl.
  rewrite Hm in Ha. exists a. split; [|exact Pa].
  rewrite run_unfold.
  destruct (turn_loop fuel cfg (after_initialize cfg input st)) as [[[]|e|] st2];
    simpl in Ha; simpl; auto.
  destruct (lastResponse st2) as [r0|] eqn:L.
  - destruct (finalize_some cfg (now (world st)) st2 r0 L) as (stf & obs & -> & _ & _ & Hmf).
    simpl. congruence.
  - rewrite (finalize_none cfg _ st2 L). exact Ha.
Qed.

(** X1. History is append-only: a run ends, however it ends, with the
    history it started from followed by what it appended, and it appends
    only assistant messages that carry tool calls and tool messages named
    after a configured tool. *)
Theorem history_only_grows fuel cfg input st :
  exists appended,
    messages (snd (run fuel cfg input st)) = initial_messages cfg input ++ appended /\
    Forall (appended_by cfg) appended.
Proof.
  destruct (run_history fuel cfg input st) as (a & Ha & _ & Fa). eauto.
Qed.

(** X2. In what a run appends, every tool message carries the id of a call
    of the nearest assistant message before it, and the first message
    appended is an assistant message. *)
Theorem tool_messages_answer_the_turn fuel cfg input st :
  exists appended,
    messages (snd (run fuel cfg input st)) = initial_messages cfg input ++ appended /\
    forall pending, linked pending appended.
Proof.
  destruct (run_history fuel cfg input st) as (a & Ha & La & _). eauto.
Qed.

End HistoryFacts.

Section TraceShapes.
Import Agent Frame Trace Observed.
Context {W : Type} {C : Clock W} {J : Json} {Em : Emitter}.
Implicit Types (cfg : AgentConfig W) (st : RunState W) (ts : list (AgentTool W)).

(** The observations one call adds, case by case. *)
Lemma dispatch_call_shape cfg ts call st :
  exists added,
    trace (snd (dispatch_call cfg ts call st)) = trace st ++ added /\
    (added = [] \/
     exists (t : AgentTool W) c,
       let started := [Emit (ev_tool_start (tool_name t) (call_arguments c))] in
       let failed e :=
         [ConsoleError ("Error executing tool " +:+ tool_name t +:+ ":") e] in
       (exists e, added = started ++ CallExecute (tool_name t) (call_arguments c) (inl e)
                                  :: failed e) \/
       (exists v,
          let resolved :=
            started ++ [CallExecute (tool_name t) (call_arguments c) (inr v);
                        Emit (ev_tool_end (tool_name t) v)] in
          added = resolved \/
          added = resolved ++ [CallSave (toolMsg c t v) (inr tt)] \/
          exists e, added = resolved ++ CallSave (toolMsg c t v) (inl e) :: failed e)).
Proof.
  unfold dispatch_call, find_tool, save_if_configured, try_catch, bind, emit,
    console_error, push, update, read, ret, throw, call_execute, call_save.
  destruct call as [c|]; simpl.
  2: { destruct ts; simpl; exists []; rewrite app_nil_r; auto. }
  destruct (List.find (name_matches c) ts) as [t|]; simpl.
  2: { exists []; rewrite app_nil_r; auto. }
  destruct (execute t (call_arguments c) (world st)) as [[e|v] w]; simpl.
  { eexists. split; [rewrite <- !app_assoc; reflexivity|].
    right. exists t, c. left. exists e. reflexivity. }
  destruct (saveFunction cfg) as [save|]; simpl.
  2: { eexists. split; [rewrite <- !app_assoc; reflexivity|].
       right. exists t, c. right. exists v. left. reflexivity. }
  destruct (save (toolMsg c t v) w) as [[e|[]] w']; simpl.
  - eexists. split; [rewrite <- !app_assoc; reflexivity|].
    right. exists t, c. right. exists v. right. right. exists e. reflexivity.
  - eexists. split; [rewrite <- !app_assoc; reflexivity|].
    right. exists t, c. right. exists v. right. left. reflexivity.
Qed.

Section Adding.
Variable Q : list Obs -> Prop.
Hypothesis Q_nil : Q [].
Hypothesis Q_app : forall a b, Q a -> Q b -> Q (a ++ b).

Lemma adds_refl st : adds Q st st.
Proof. exists []. rewrite app_nil_r. auto. Qed.

Lemma adds_trans (a b c : RunState W) : adds Q a b -> adds Q b c -> adds Q a c.
Proof.
  intros (x & Hx & Px) (y & Hy & Py). exists (x ++ y). split; [|auto].
  rewrite Hy, Hx. symmetry. apply app_assoc.
Qed.

Lemma keeps_silent {A} (m : M W A) :
  (forall st, trace (snd (m st)) = trace st) -> keeps (adds Q) m.
Proof. intros H st. exists []. rewrite app_nil_r. auto. Qed.

Lemma call_save_adds (save : AgentMessage -> W -> (Thrown + unit) * W) m :
  (forall r, Q [CallSave m r]) -> keeps (adds Q) (call_save save m).
Proof.
  intros H st. unfold call_save.
  destruct (save m (world st)) as [[e|[]] w]; simpl; eexists; (split; [reflexivity|]); apply H.
Qed.

Lemma save_if_configured_adds cfg m :
  (forall r, Q [CallSave m r]) -> keeps (adds Q) (save_if_configured cfg m).
Proof.
  intros H. unfold save_if_configured. destruct (saveFunction cfg).
  - apply call_save_adds, H.
  - apply keeps_silent. reflexivity.
Qed.

Lemma call_generate_adds cfg :
  (forall toks h r, Q (List.map (fun t => Emit (ev_token t)) toks ++ [CallGenerate h r])) ->
  keeps (adds Q) (call_generate cfg).
Proof.
  intros H st. unfold call_generate.
  destruct (generate _ _ _ _ _ _ _ _) as [[toks [e|r]] w]; simpl;
    eexists; (split; [reflexivity|]); apply H.
Qed.

Lemma intent_detection_silent cfg st :
  trace (snd (intent_detection cfg st)) = trace st.
Proof. unfold intent_detection, update. simpl. destruct (_ && _); reflexivity. Qed.

Hypothesis Q_generate :
  forall toks h r, Q (List.map (fun t => Emit (ev_token t)) toks ++ [CallGenerate h r]).
Hypothesis Q_save_assistant :
  forall m r, msg_role m = Rassistant -> Q [CallSave m r].
Hypothesis Q_dispatch :
  forall cfg ts call, keeps (adds Q) (dispatch_call cfg ts call).

Lemma dispatch_calls_adds cfg ts calls : keeps (adds Q) (dispatch_calls cfg ts calls).
Proof.
  induction calls as [|call rest IH]; simpl.
  - apply keeps_ret, adds_refl.
  - apply keeps_bind; [apply adds_trans | apply Q_dispatch | intros _; exact IH].
Qed.

Lemma run_tools_adds cfg ts calls : keeps (adds Q) (run_tools cfg ts calls).
Proof.
  unfold run_tools.
  apply keeps_bind; [apply adds_trans | apply keeps_silent; auto |]. intros _.
  apply keeps_bind; [apply adds_trans | apply dispatch_calls_adds |]. intros _.
  apply keeps_bind; [apply adds_trans | apply keeps_silent, intent_detection_silent |].
  intros _.
  apply keeps_bind; [apply adds_trans | apply keeps_silent; auto |]. intros i.
  apply keeps_if; apply keeps_silent; auto.
Qed.

Lemma turn_adds cfg : keeps (adds Q) (turn cfg).
Proof.
  unfold turn.
  apply keeps_bind; [apply adds_trans | apply keeps_silent; auto |]. intros i.
  apply keeps_bind; [apply adds_trans | apply keeps_silent; auto |]. intros _.
  apply keeps_bind; [apply adds_trans | apply call_generate_adds, Q_generate |].
  intros response.
  apply keeps_bind; [apply adds_trans | apply keeps_silent; auto |]. intros _.
  destruct (tool_calls response) as [calls|]; [destruct (tools cfg) as [ts|]|].
  2,3: apply keeps_silent; auto.
  apply keeps_bind; [apply adds_trans | apply keeps_silent; auto |]. intros _.
  apply keeps_bind; [apply adds_trans | | intros _; apply run_tools_adds].
  apply save_if_configured_adds. intros r. apply Q_save_assistant. reflexivity.
Qed.

Lemma turn_loop_adds cfg fuel : keeps (adds Q) (turn_loop fuel cfg).
Proof.
  induction fuel as [|fuel IH]; simpl.
  - apply keeps_bind; [apply adds_trans | apply keeps_silent; auto |]. intros i.
    apply keeps_if; apply keeps_silent; auto.
  - apply keeps_bind; [apply adds_trans | apply keeps_silent; auto |]. intros i.
    apply keeps_if; [|apply keeps_silent; auto].
    apply keeps_bind; [apply adds_trans | apply turn_adds |]. intros again.
    apply keeps_if; [exact IH | apply keeps_silent; auto].
Qed.

End Adding.

End TraceShapes.

Section Notifications.
Import Agent Frame Trace Observed.
Context {W : Type} {C : Clock W} {J : Json} {Em : Emitter}.
Implicit Types (cfg : AgentConfig W) (st : RunState W) (ts : list (AgentTool W)).

Lemma forallb_tokens (p : Obs -> bool) (toks : list string) :
  (forall t, p (Emit (ev_token t)) = true) ->
  forallb p (List.map (fun t => Emit (ev_token t)) toks) = true.
Proof. intros H. induction toks; simpl; [reflexivity|]. rewrite H. exact IHtoks. Qed.

Lemma count_forallb (p q : Obs -> bool) (l : list Obs) :
  (forall o, q o = true -> p o = false) ->
  forallb q l = true -> count p l = 0%nat.
Proof.
  intros H. unfold count. induction l as [|o l IH]; simpl; [reflexivity|].
  intros Hq. apply andb_prop in Hq as [Ho Hl]. rewrite (H _ Ho). auto.
Qed.

Lemma balanced_nil : balanced [].
Proof. split; reflexivity. Qed.

Lemma balanced_app (a b : list Obs) : balanced a -> balanced b -> balanced (a ++ b).
Proof. intros [A1 A2] [B1 B2]. unfold balanced. rewrite !count_app. lia. Qed.

Lemma no_tool_activity_balanced (l : list Obs) :
  forallb no_tool_activity l = true -> balanced l.
Proof.
  intros H. unfold balanced.
  rewrite !(count_forallb _ no_tool_activity l); auto;
    intros [[]| | |? ? []|] Ho; try reflexivity; discriminate.
Qed.

Lemma turn_loop_shape cfg fuel : keeps (adds loop_adds) (turn_loop fuel cfg).
Proof.
  apply turn_loop_adds.
  - split; [reflexivity | apply balanced_nil].
  - intros a b [Ha Ba] [Hb Bb]. split; [|apply balanced_app; assumption].
    rewrite forallb_app, Ha, Hb. reflexivity.
  - intros toks h r. split.
    + rewrite forallb_app, forallb_tokens by reflexivity. reflexivity.
    + apply no_tool_activity_balanced.
      rewrite forallb_app, forallb_tokens by reflexivity. reflexivity.
  - intros m r Hm. split; [|split; reflexivity].
    unfold inner, plain. simpl. rewrite Hm. reflexivity.
  - intros cfg' ts call st.
    destruct (dispatch_call_shape cfg' ts call st)
      as (added & Ha & [-> | (t & c & [(e & ->) | (v & [-> | [-> | (e & ->)]])])]);
      eexists; (split; [exact Ha|]); (split; [|split]); reflexivity.
Qed.

(** What [initialize] adds: the start notification, then the save of the
    user message when the input is a text and a hook is configured. *)
Lemma initialize_shape cfg input st :
  exists saved,
    trace (after_initialize cfg input st) =
      trace st ++ Emit (ev_start (now (world st)) input) :: saved /\
    forallb plain saved = true /\
    forallb no_tool_activity saved = true /\
    count saves_user_message saved =
      match input, saveFunction cfg with
      | InputText _, Some _ => 1%nat
      | _, _ => 0%nat
      end.
Proof.
  unfold after_initialize, initialize, bind, read, emit, update, try_catch, call_save,
    console_error, ret.
  simpl. destruct input as [text | history]; simpl.
  - destruct (saveFunction cfg) as [save|]; simpl.
    + destruct (save (userMsg cfg text) (world st)) as [[e|[]] w]; simpl.
      * exists [CallSave (userMsg cfg text) (inl e);
                ConsoleError "Failed to save user message:" e].
        rewrite <- !app_assoc. repeat split.
      * exists [CallSave (userMsg cfg text) (inr tt)].
        rewrite <- !app_assoc. repeat split.
    + exists []. repeat split.
  - exists []. repeat split.
Qed.

(** What [finalize] adds with a response in hand. *)
Lemma finalize_shape cfg t st r0 :
  lastResponse st = Some r0 ->
  exists st' obs,
    finalize cfg t st = (Returned (set_latency_ms r0 (now (world st) - t)), st') /\
    trace st' = trace st ++ obs ++ [Emit (ev_response (set_latency_ms r0 (now (world st) - t)))] /\
    forallb inner obs = true /\ forallb no_tool_activity obs = true /\
    forallb quiet obs = true.
Proof.
  intros H. unfold finalize, bind, read, update, emit, try_catch, call_save, console_error, ret.
  simpl. rewrite H. simpl.
  set (r := set_latency_ms r0 (now (world st) - t)).
  destruct (saveFunction cfg) as [save|]; simpl.
  - destruct (save (finalMsg r) (world st)) as [[e|[]] w] eqn:E; simpl.
    + eexists.
      exists [CallSave (finalMsg r) (inl e);
              ConsoleError "Failed to save assistant response:" e].
      split; [reflexivity|]. simpl. rewrite <- !app_assoc. repeat split.
    + eexists. exists [CallSave (finalMsg r) (inr tt)].
      split; [reflexivity|]. simpl. rewrite <- !app_assoc. repeat split.
  - eexists. exists []. split; [reflexivity|]. repeat split.
Qed.

Lemma inner_plain (l : list Obs) : forallb inner l = true -> forallb plain l = true.
Proof.
  rewrite !forallb_forall. intros H o Ho. specialize (H o Ho).
  unfold inner in H. apply andb_prop in H. tauto.
Qed.

Lemma inner_no_user_save (l : list Obs) :
  forallb inner l = true -> count saves_user_message l = 0%nat.
Proof.
  apply count_forallb. intros o Ho. unfold inner in Ho.
  apply andb_prop in Ho as [_ Ho]. destruct (saves_user_message o); [discriminate|reflexivity].
Qed.

(** The trace of a run, piece by piece: the start notification, what
    [initialize] saves, what the loop adds, and the end. *)
Lemma run_shape fuel cfg input st :
  exists saved body fin,
    trace (snd (run fuel cfg input st)) =
      trace st ++ [Emit (ev_start (now (world st)) input)] ++ saved ++ body ++ fin /\
    (forallb plain saved = true /\ forallb no_tool_activity saved = true /\
     count saves_user_message saved =
       match input, saveFunction cfg with
       | InputText _, Some _ => 1%nat
       | _, _ => 0%nat
       end) /\
    loop_adds body /\
    (forallb no_tool_activity fin = true /\ count saves_user_message fin = 0%nat) /\
    match fst (run fuel cfg input st) with
    | Returned r => exists obs, fin = obs ++ [Emit (ev_response r)] /\ forallb plain obs = true
    | Raised e =>
        fin = [] \/
        exists e0, e = rethrown e0 /\
                   fin = [Emit (ev_error "execution_error" (message_or_else_string e0) e0)]
    | Timeout => fin = []
    end.
Proof.
  rewrite run_unfold.
  destruct (initialize_shape cfg input st) as (saved & Hs & Ps).
  pose proof (turn_loop_shape cfg fuel) as Hl. unfold keeps in Hl.
  destruct (Hl (after_initialize cfg input st)) as (a & Ha & Pa). clear Hl.
  exists saved, a.
  destruct (turn_loop fuel cfg (after_initialize cfg input st)) as [[[]|e|] st2]; simpl in Ha.
  - destruct (lastResponse st2) as [r0|] eqn:L.
    + destruct (finalize_shape cfg (now (world st)) st2 r0 L) as (st' & obs & -> & Ht & Po & No & _).
      simpl. exists (obs ++ [Emit (ev_response (set_latency_ms r0 (now (world st2) - now (world st))))]).
      split; [rewrite Ht, Ha, Hs, <- !app_assoc; simpl; rewrite ?app_nil_r; reflexivity|].
      split; [exact Ps|]. split; [exact Pa|]. split.
      * split; [rewrite forallb_app, No; reflexivity|].
        rewrite count_app, (inner_no_user_save _ Po). reflexivity.
      * exists obs. split; [reflexivity | apply inner_plain, Po].
    + rewrite (finalize_none cfg _ st2 L). simpl. exists [].
      split; [rewrite Ha, Hs, <- ?app_assoc; simpl; rewrite ?app_nil_r; reflexivity|].
      split; [exact Ps|]. split; [exact Pa|]. split; [split; reflexivity | left; reflexivity].
  - simpl. exists [Emit (ev_error "execution_error" (message_or_else_string e) e)].
    split; [rewrite Ha, Hs, <- ?app_assoc; simpl; rewrite ?app_nil_r; reflexivity|].
    split; [exact Ps|]. split; [exact Pa|].
    split; [split; reflexivity | right; exists e; split; reflexivity].
  - simpl. exists [].
    split; [rewrite Ha, Hs, <- ?app_assoc; simpl; rewrite ?app_nil_r; reflexivity|].
    split; [exact Ps|]. split; [exact Pa|]. split; [split; reflexivity | reflexivity].
Qed.

(** X3. A run that resolves has emitted the start notification first and
    the response notification last, each once, and no error notification:
    between the two there is neither a start nor a terminal notification. *)
Theorem resolved_run_starts_and_responds_once fuel cfg input st r stf :
  run fuel cfg input st = (Returned r, stf) ->
  exists middle,
    trace stf =
      trace st ++ Emit (ev_start (now (world st)) input) :: middle
               ++ [Emit (ev_response r)] /\
    forallb plain middle = true.
Proof.
  intros R.
  destruct (run_shape fuel cfg input st)
    as (saved & body & fin & Ht & (Ps & _) & (Pb & _) & _ & Hfin).
  rewrite R in Ht, Hfin. simpl in Ht, Hfin. destruct Hfin as (obs & -> & Po).
  exists (saved ++ body ++ obs). split.
  - rewrite Ht, <- !app_assoc. reflexivity.
  - rewrite !forallb_app, Ps, (inner_plain _ Pb), Po. reflexivity.
Qed.

(** X4. However a run ends, the hook has been called on a user message
    exactly once when the input was a text and a hook is configured, and
    never otherwise: the messages of a history given as input are not
    persisted. *)
Theorem user_message_is_saved_only_for_text_input fuel cfg input st :
  exists added,
    trace (snd (run fuel cfg input st)) = trace st ++ added /\
    count saves_user_message added =
      match input, saveFunction cfg with
      | InputText _, Some _ => 1%nat
      | _, _ => 0%nat
      end.
Proof.
  destruct (run_shape fuel cfg input st)
    as (saved & body & fin & Ht & (_ & _ & Cs) & (Pb & _) & (_ & Cf) & _).
  eexists. split; [exact Ht|].
  rewrite !count_app, Cs, (inner_no_user_save _ Pb), Cf. unfold count. simpl. lia.
Qed.

(** X5. However a run ends, its tool notifications match its calls of
    tools: one tool-start notification for every call of [execute], one
    tool-end notification for every call that resolved. *)
Theorem tool_notifications_match_tool_calls fuel cfg input st :
  exists added,
    trace (snd (run fuel cfg input st)) = trace st ++ added /\
    balanced added.
Proof.
  destruct (run_shape fuel cfg input st)
    as (saved & body & fin & Ht & (_ & Ns & _) & (_ & Bb) & (Nf & _) & _).
  eexists. split; [exact Ht|].
  apply (balanced_app [_]); [split; reflexivity|].
  apply balanced_app; [apply no_tool_activity_balanced, Ns|].
  apply balanced_app; [exact Bb | apply no_tool_activity_balanced, Nf].
Qed.

End Notifications.

Section ResponseFacts.
Import Agent Frame Trace Observed.
Context {W : Type} {C : Clock W} {J : Json} {Em : Emitter}.
Implicit Types (cfg : AgentConfig W) (st : RunState W) (ts : list (AgentTool W)).

Lemma last_generated_app (a b : list Obs) :
  last_generated (a ++ b) =
  match last_generated b with
  | Some r => Some r
  | None => last_generated a
  end.
Proof.
  induction a as [|o a IH]; simpl.
  - destruct (last_generated b); reflexivity.
  - rewrite IH. destruct (last_generated b); reflexivity.
Qed.

Lemma quiet_last_generated (l : list Obs) :
  forallb quiet l = true -> last_generated l = None.
Proof.
  induction l as [|o l IH]; simpl; [reflexivity|].
  intros H. apply andb_prop in H as [Ho Hl]. rewrite (IH Hl).
  destruct o as [| | h [e|r] | |]; try reflexivity; discriminate.
Qed.

Lemma tracks_generate_refl st : tracks_generate st st.
Proof. exists []. rewrite app_nil_r. split; reflexivity. Qed.

Lemma tracks_generate_trans (a b c : RunState W) :
  tracks_generate a b -> tracks_generate b c -> tracks_generate a c.
Proof.
  intros (x & Hx & Lx) (y & Hy & Ly). exists (x ++ y). split.
  - rewrite Hy, Hx. symmetry. apply app_assoc.
  - rewrite Ly, Lx, last_generated_app. destruct (last_generated y); reflexivity.
Qed.

Lemma steady_tracks_generate st st' : steady st st' -> tracks_generate st st'.
Proof.
  intros (_ & Hr & a & Ha & Hq). exists a. split; [exact Ha|].
  rewrite (quiet_last_generated _ Hq). exact Hr.
Qed.

Lemma steady_same st st' :
  iterations st' = iterations st -> lastResponse st' = lastResponse st ->
  trace st' = trace st -> steady st st'.
Proof.
  intros Hi Hr Ht. split; [exact Hi|]. split; [exact Hr|].
  exists []. rewrite app_nil_r. split; [exact Ht | reflexivity].
Qed.

(** Away from the single-iteration pattern the tool block leaves the
    response in hand alone. *)
Lemma run_tools_steady cfg ts calls :
  maxIterations cfg <> 1 -> keeps steady (run_tools cfg ts calls).
Proof.
  intros Hmax. unfold run_tools.
  apply (keeps_bind steady steady_trans).
  { intros st. apply steady_same; reflexivity. }
  intros _. apply (keeps_bind steady steady_trans); [apply dispatch_calls_steady|].
  intros _. apply (keeps_bind steady steady_trans).
  { intros st. unfold intent_detection, update. simpl.
    rewrite (is_one_false _ Hmax). simpl. apply steady_refl. }
  intros _. apply (keeps_bind steady steady_trans).
  { intros st. apply steady_refl. }
  intros i. apply keeps_if; intros st; apply steady_refl.
Qed.

Lemma save_if_configured_steady cfg m : keeps steady (save_if_configured cfg m).
Proof.
  intros st. unfold save_if_configured.
  destruct (saveFunction cfg) as [save|]; [|apply steady_refl].
  unfold call_save. destruct (save m (world st)) as [[e|[]] w]; simpl;
    (split; [reflexivity|]); (split; [reflexivity|]);
    eexists; (split; [reflexivity|]); reflexivity.
Qed.

Lemma turn_tracks_generate cfg :
  maxIterations cfg <> 1 -> keeps tracks_generate (turn cfg).
Proof.
  intros Hmax st. unfold turn, bind at 1 2 3 4, read, update, call_generate. simpl.
  destruct (generate _ _ _ _ _ _ _ _) as [[toks [e|response]] w]; simpl.
  { eexists. split; [reflexivity|].
    rewrite last_generated_app. simpl.
    rewrite (quiet_last_generated _ (tokens_quiet toks)). reflexivity. }
  set (st1 := with_lastResponse _ _).
  assert (T1 : tracks_generate st st1).
  { eexists. split; [reflexivity|]. rewrite last_generated_app. reflexivity. }
  clearbody st1.
  destruct (tool_calls response) as [calls|]; [destruct (tools cfg) as [ts|]|];
    try exact T1.
  apply (tracks_generate_trans _ st1); [exact T1|].
  apply steady_tracks_generate.
  apply (keeps_bind steady steady_trans).
  { intros s. apply steady_same; reflexivity. }
  intros _. apply (keeps_bind steady steady_trans);
    [apply save_if_configured_steady | intros _; apply run_tools_steady, Hmax].
Qed.

Lemma turn_loop_tracks_generate cfg fuel :
  maxIterations cfg <> 1 -> keeps tracks_generate (turn_loop fuel cfg).
Proof.
  intros Hmax. induction fuel as [|fuel IH]; simpl.
  - apply (keeps_bind _ tracks_generate_trans); [intros st; apply tracks_generate_refl|].
    intros i. apply keeps_if; intros st; apply tracks_generate_refl.
  - apply (keeps_bind _ tracks_generate_trans); [intros st; apply tracks_generate_refl|].
    intros i. apply keeps_if; [|intros st; apply tracks_generate_refl].
    apply (keeps_bind _ tracks_generate_trans); [apply turn_tracks_generate, Hmax|].
    intros again. apply keeps_if; [exact IH | intros st; apply tracks_generate_refl].
Qed.

(** X6. With a ceiling other than 1 no tool result reaches the response:
    a run that resolves returns the response of its last call of
    [generate] that resolved (content, tool calls and usage), with the
    text captured as its message and the latency stamped. *)
Theorem response_is_last_generated_beyond_single_turn fuel cfg input st r stf :
  maxIterations cfg <> 1 ->
  run fuel cfg input st = (Returned r, stf) ->
  exists added g ms,
    trace stf = trace st ++ added /\
    last_generated added = Some g /\
    r = set_latency_ms (capture_message g) ms.
Proof.
  intros Hmax R. rewrite run_unfold in R.
  destruct (after_initialize_spec cfg input st) as (_ & _ & Hr & (a & Ha & Ia)).
  pose proof (turn_loop_tracks_generate cfg fuel Hmax) as Hl. unfold keeps in Hl.
  destruct (Hl (after_initialize cfg input st)) as (b & Hb & Lb). clear Hl.
  destruct (turn_loop fuel cfg (after_initialize cfg input st)) as [[[]|e|] st2];
    try discriminate.
  simpl in Hb, Lb. rewrite Hr in Lb.
  destruct (last_generated b) as [g|] eqn:G.
  - destruct (finalize_some cfg (now (world st)) st2 _ Lb) as (st' & obs & F & Ht & Io & _).
    rewrite F in R. injection R as <- <-.
    exists (a ++ b ++ obs ++ [Emit (ev_response
              (set_latency_ms (capture_message g) (now (world st2) - now (world st))))]), g.
    eexists. split; [|split; [|reflexivity]].
    + rewrite Ht, Hb, Ha, <- !app_assoc. reflexivity.
    + rewrite !last_generated_app. simpl.
      rewrite (quiet_last_generated _ (idle_quiet _ Io)), G. reflexivity.
  - rewrite (finalize_none cfg _ st2 Lb) in R. discriminate.
Qed.

(** X7. A negative ceiling makes every run fail before the provider is
    asked: the run raises the missing-response error from the state
    [initialize] left, so nothing is generated and, the throw being outside
    the guarded loop, no error notification is emitted. *)
Theorem negative_ceiling_fails_without_generating fuel cfg input st (x : JSNumber) :
  max_tool_iterations cfg = Some x -> negative x = true ->
  run fuel cfg input st =
    (Raised (Error "Agent failed to generate a response"), after_initialize cfg input st) /\
  extends idle st (after_initialize cfg input st).
Proof.
  intros Hn Hneg.
  destruct (after_initialize_spec cfg input st) as (_ & Hi & Hr & He).
  split; [|exact He].
  rewrite run_unfold, turn_loop_done.
  - apply finalize_none, Hr.
  - rewrite Hi. unfold maxIterations. rewrite Hn.
    destruct x as [n|n| | |]; simpl in *; try discriminate; try reflexivity.
    + apply Z.ltb_lt in Hneg.
      destruct (n =? 0) eqn:Z0; [apply Z.eqb_eq in Z0; lia|].
      simpl. apply Z.ltb_ge. lia.
    + apply Z.ltb_lt in Hneg. apply Z.leb_gt. lia.
Qed.

(** A turn of an agent without tools never asks for another turn, and adds
    only the tokens and the call of [generate]. *)
Lemma turn_without_tools cfg st :
  tools cfg = None ->
  fst (turn cfg st) <> Returned true /\
  messages (snd (turn cfg st)) = messages st /\
  exists added,
    trace (snd (turn cfg st)) = trace st ++ added /\
    count is_generate added = 1%nat /\ forallb no_tool_activity added = true.
Proof.
  intros Ht. unfold turn, bind, read, update, call_generate. simpl.
  destruct (generate _ _ _ _ _ _ _ _) as [[toks [e|response]] w]; simpl.
  - split; [discriminate|]. split; [reflexivity|]. eexists. split; [reflexivity|].
    rewrite count_app, tokens_count, forallb_app, tokens_no_tool_activity by reflexivity.
    split; reflexivity.
  - rewrite Ht. destruct (tool_calls response); simpl;
      (split; [discriminate|]); (split; [reflexivity|]); eexists; (split; [reflexivity|]);
      rewrite count_app, tokens_count, forallb_app, tokens_no_tool_activity by reflexivity;
      split; reflexivity.
Qed.

(** X8. An agent configured without tools asks its provider at most once,
    whatever the ceiling and whatever tool calls the response carries; no
    tool is touched and the history stays the initial one. *)
Theorem without_tools_generate_is_called_at_most_once fuel cfg input st :
  tools cfg = None ->
  exists added,
    trace (snd (run fuel cfg input st)) = trace st ++ added /\
    (count is_generate added <= 1)%nat /\
    forallb no_tool_activity added = true /\
    messages (snd (run fuel cfg input st)) = initial_messages cfg input.
Proof.
  intros Ht. rewrite run_unfold.
  destruct (after_initialize_spec cfg input st) as (Hm & _ & _ & (a & Ha & Ia)).
  assert (Ga : count is_generate a = 0%nat)
    by (apply quiet_count_generate, idle_quiet, Ia).
  assert (Na : forallb no_tool_activity a = true) by (apply idle_no_tool_activity, Ia).
  set (st1 := after_initialize cfg input st) in *.
  assert (L : exists st2 b,
             (fst (turn_loop fuel cfg st1) = Timeout \/
              turn_loop fuel cfg st1 = (fst (turn_loop fuel cfg st1), st2)) /\
             snd (turn_loop fuel cfg st1) = st2 /\
             messages st2 = messages st1 /\ trace st2 = trace st1 ++ b /\
             (count is_generate b <= 1)%nat /\ forallb no_tool_activity b = true).
  { rewrite turn_loop_unfold. destruct (less_than (iterations st1) (maxIterations cfg)).
    2: { exists st1, []. rewrite app_nil_r. repeat split; auto. }
    destruct fuel as [|fuel].
    { exists st1, []. rewrite app_nil_r. repeat split; auto. }
    destruct (turn_without_tools cfg st1 Ht) as (Hn & Hms & b & Hb & Gb & Nb).
    destruct (turn cfg st1) as [[[]|e|] st2]; simpl in *; try congruence;
      exists st2, b; repeat split; auto; lia. }
  destruct L as (st2 & b & _ & Hs & Hms & Hb & Gb & Nb).
  destruct (turn_loop fuel cfg st1) as [[[]|e|] st2'] eqn:E; simpl in Hs; subst st2'.
  - destruct (lastResponse st2) as [r0|] eqn:Lr.
    + destruct (finalize_some cfg (now (world st)) st2 r0 Lr) as (st' & obs & -> & Hf & Io & Mo).
      simpl. eexists. split; [rewrite Hf, Hb, Ha, <- !app_assoc; reflexivity|].
      rewrite !count_app, !forallb_app, Ga, Na, Nb, (idle_no_tool_activity _ Io),
        (quiet_count_generate _ (idle_quiet _ Io)).
      repeat split; [unfold count in *; simpl; lia | simpl; congruence].
    + rewrite (finalize_none cfg _ st2 Lr). simpl. exists (a ++ b).
      split; [rewrite Hb, Ha, <- !app_assoc; reflexivity|].
      rewrite !count_app, !forallb_app, Ga, Na, Nb. repeat split; [lia | simpl; congruence].
  - simpl. eexists. split; [rewrite Hb, Ha, <- !app_assoc; reflexivity|].
    rewrite !count_app, !forallb_app, Ga, Na, Nb.
    repeat split; [unfold count in *; simpl; lia | simpl; congruence].
  - simpl. exists (a ++ b). split; [rewrite Hb, Ha, <- !app_assoc; reflexivity|].
    rewrite !count_app, !forallb_app, Ga, Na, Nb. repeat split; [lia | simpl; congruence].
Qed.

End ResponseFacts.

Section HoleFacts.
Import Agent Frame Trace.
Context {W : Type} {C : Clock W} {J : Json} {Em : Emitter}.
Implicit Types (cfg : AgentConfig W) (st : RunState W) (ts : list (AgentTool W)).

(** X9. A hole in the tool calls of a response stops the dispatch when a
    tool is configured: the calls before it are dispatched, the lookup on
    the hole raises a [TypeError] outside the per-call recovery, and the
    calls after it are never reached. *)
Theorem hole_in_tool_calls_stops_dispatch cfg ts before after st :
  ts <> [] ->
  Forall is_Some before ->
  exists st1,
    dispatch_calls cfg ts before st = (Returned tt, st1) /\
    dispatch_calls cfg ts (before ++ None :: after) st =
      (Raised (TypeError "Cannot read properties of undefined (reading 'name')"), st1).
Proof.
  intros Hts Hb.
  destruct (dispatch_calls_returns cfg ts before st Hb) as (st1 & D).
  exists st1. split; [exact D|].
  rewrite dispatch_calls_app. unfold bind at 1. rewrite D. simpl.
  unfold bind, dispatch_call, find_tool, bind.
  destruct ts as [|t ts']; [congruence | reflexivity].
Qed.

End HoleFacts.

Section StreamFacts.
Import OpenAI Stream.
Context {J : Json}.

Lemma append_nil_r (s : string) : s +:+ EmptyString = s.
Proof.
  induction s as [|c s IH]; [reflexivity|].
  change (String c (s +:+ EmptyString) = String c s). rewrite IH. reflexivity.
Qed.

Lemma append_assoc (a b c : string) : (a +:+ b) +:+ c = a +:+ (b +:+ c).
Proof.
  induction a as [|x a IH]; [reflexivity|].
  change (String x ((a +:+ b) +:+ c) = String x (a +:+ (b +:+ c))). rewrite IH. reflexivity.
Qed.

(** What one chunk does to the text, the tokens and the usage; the text and
    the tokens are updated before anything can throw. *)
Lemma on_chunk_text acc chunk :
  let fragment := text_of chunk in
  match on_chunk acc chunk with
  | inl (_, acc') =>
      emitted acc' = emitted acc ++ option_list fragment /\
      fullContent acc' = fullContent acc +:+ default EmptyString fragment
  | inr acc' =>
      emitted acc' = emitted acc ++ option_list fragment /\
      fullContent acc' = fullContent acc +:+ default EmptyString fragment /\
      acc_usage acc' =
        match chunk_usage chunk with
        | Some u => as_usage u
        | None => acc_usage acc
        end
  end.
Proof.
  unfold on_chunk, text_of.
  destruct (delta chunk) as [d|]; simpl.
  2: { rewrite app_nil_r, append_nil_r. destruct (chunk_usage chunk); auto. }
  destruct (delta_content d) as [t|]; simpl.
  - destruct (String.eqb t EmptyString); simpl;
      rewrite ?app_nil_r, ?append_nil_r;
      (destruct (delta_tool_calls d) as [tcs|];
       [destruct (accumulate_tool_calls _ tcs)|]); simpl;
      destruct (chunk_usage chunk); auto.
  - rewrite ?app_nil_r, ?append_nil_r.
    destruct (delta_tool_calls d) as [tcs|];
      [destruct (accumulate_tool_calls _ tcs)|]; simpl;
      destruct (chunk_usage chunk); auto.
Qed.

Lemma joined_app (a b : list string) : joined (a ++ b) = joined a +:+ joined b.
Proof.
  induction a as [|x a IH]; [reflexivity|].
  simpl. unfold joined in *. simpl. rewrite IH, append_assoc. reflexivity.
Qed.

Lemma joined_option (o : option string) : joined (option_list o) = default EmptyString o.
Proof. destruct o; simpl; [apply append_nil_r | reflexivity]. Qed.

Lemma text_fragments_cons chunk stream :
  text_fragments (chunk :: stream) = option_list (text_of chunk) ++ text_fragments stream.
Proof. unfold text_fragments. simpl. destruct (text_of chunk); reflexivity. Qed.

(** The stream loop, when it gets through. *)
Lemma stream_loop_text stream : forall acc acc',
  stream_loop stream acc = inr acc' ->
  emitted acc' = emitted acc ++ text_fragments stream /\
  fullContent acc' = fullContent acc +:+ joined (text_fragments stream) /\
  acc_usage acc' =
    match last_usage stream with
    | Some u => as_usage u
    | None => acc_usage acc
    end.
Proof.
  induction stream as [|chunk rest IH]; intros acc acc' H; simpl in H.
  - injection H as <-. rewrite app_nil_r. unfold joined. simpl. rewrite append_nil_r. auto.
  - pose proof (on_chunk_text acc chunk) as Hc. simpl in Hc.
    destruct (on_chunk acc chunk) as [[e a1]|a1]; [discriminate|].
    destruct Hc as (He & Hf & Hu).
    destruct (IH a1 acc' H) as (He' & Hf' & Hu').
    rewrite text_fragments_cons, joined_app, joined_option.
    rewrite He', He, Hf', Hf, Hu', Hu, <- app_assoc, append_assoc. simpl.
    repeat split. destruct (last_usage rest); [reflexivity|].
    destruct (chunk_usage chunk); reflexivity.
Qed.

(** The stream loop, when a fragment of a tool call makes it throw. *)
Lemma stream_loop_text_failed stream : forall acc e acc',
  stream_loop stream acc = inl (e, acc') ->
  exists rest, emitted acc ++ text_fragments stream = emitted acc' ++ rest.
Proof.
  induction stream as [|chunk rest IH]; intros acc e acc' H; simpl in H; [discriminate|].
  pose proof (on_chunk_text acc chunk) as Hc. simpl in Hc.
  rewrite text_fragments_cons.
  destruct (on_chunk acc chunk) as [[e1 a1]|a1].
  - injection H as <- <-. destruct Hc as (He & _).
    exists (text_fragments rest). rewrite He, <- app_assoc. reflexivity.
  - destruct Hc as (He & _). destruct (IH a1 e acc' H) as (more & Hm).
    exists more. rewrite <- Hm, He, <- app_assoc. reflexivity.
Qed.

(** The pieces of [generate_from_stream] once the loop got through. *)
Lemma generate_from_stream_result model_name output_schema stream r
    (H : result (generate_from_stream model_name output_schema stream) = inr r) :
  exists acc,
    stream_loop stream init_acc = inr acc /\
    tokens (generate_from_stream model_name output_schema stream) = emitted acc /\
    usage r = acc_usage acc /\
    (tool_calls r = None <-> toolCalls acc = []) /\
    (match tool_calls r with
     | Some calls => map_tool_calls (toolCalls acc) = inr calls
     | None => True
     end) /\
    (output_schema = None \/ is_Some (tool_calls r) -> content r = JStr (fullContent acc)) /\
    (forall schema, output_schema = Some schema -> tool_calls r = None ->
       content r = fst (structured_output schema (fullContent acc))).
Proof.
  revert H. unfold generate_from_stream.
  destruct (stream_loop stream init_acc) as [[e acc]|acc]; simpl; [discriminate|].
  intros H. exists acc. split; [reflexivity|]. revert H.
  destruct (toolCalls acc) as [|slot slots].
  - simpl. destruct output_schema as [schema|].
    + destruct (structured_output schema (fullContent acc)) as [c w] eqn:S. simpl.
      intros H. injection H as <-. simpl. repeat split; auto.
      * intros [Hs | [x Hx]]; discriminate.
      * intros schema' [= <-] _. rewrite S. reflexivity.
    + simpl. intros H. injection H as <-. simpl. repeat split; auto. discriminate.
  - change ((0 <? length (slot :: slots))%nat) with true.
    change ((length (slot :: slots) =? 0)%nat) with false.
    destruct (map_tool_calls (slot :: slots)) as [e|cs];
      destruct output_schema as [schema|]; simpl; try discriminate;
      intros H; injection H as <-; simpl; repeat split; auto; try discriminate.
Qed.

(** X10. A call that resolves has handed to [onToken] exactly the non-empty
    texts of the stream, in order, and its content is made of those tokens
    joined: the joined text itself without an output schema or when tool
    calls came with the text, and what the structured-output handling makes
    of the joined text otherwise. *)
Theorem content_is_the_tokens_joined model_name output_schema stream r :
  result (generate_from_stream model_name output_schema stream) = inr r ->
  tokens (generate_from_stream model_name output_schema stream) = text_fragments stream /\
  content r =
    match output_schema, tool_calls r with
    | Some schema, None => fst (structured_output schema (joined (text_fragments stream)))
    | _, _ => JStr (joined (text_fragments stream))
    end.
Proof.
  intros H.
  destruct (generate_from_stream_result _ _ _ _ H)
    as (acc & L & -> & _ & _ & _ & Hc & Hs).
  destruct (stream_loop_text _ _ _ L) as (He & Hf & _).
  assert (Hj : fullContent acc = joined (text_fragments stream)) by exact Hf.
  split; [exact He|]. rewrite <- Hj.
  destruct output_schema as [schema|].
  - destruct (tool_calls r) as [calls|] eqn:T.
    + apply Hc. right. eexists. reflexivity.
    + apply (Hs schema eq_refl eq_refl).
  - destruct (tool_calls r); apply Hc; left; reflexivity.
Qed.

(** X11. However the call ends, the tokens handed to [onToken] are an
    initial part of the stream's non-empty texts: nothing is invented,
    dropped or reordered, also when a tool-call fragment makes the loop
    throw. *)
Theorem tokens_are_a_prefix_of_the_text model_name output_schema stream :
  exists rest,
    text_fragments stream =
      tokens (generate_from_stream model_name output_schema stream) ++ rest.
Proof.
  unfold generate_from_stream.
  destruct (stream_loop stream init_acc) as [[e acc]|acc] eqn:L; simpl.
  - destruct (stream_loop_text_failed _ _ _ _ L) as (rest & Hr). exists rest. exact Hr.
  - destruct (stream_loop_text _ _ _ L) as (He & _). exists []. rewrite app_nil_r.
    assert (T : forall A B (p : A * B) (f : A -> B -> Generated) ,
              tokens (let '(a, b) := p in f a b) = tokens (f (fst p) (snd p)))
      by (intros A B [a b] f; reflexivity).
    rewrite T. simpl. symmetry. exact He.
Qed.

(** X12. The usage of a response is the last usage report of the stream,
    converted field by field; without a report it is all zeros. *)
Theorem usage_is_the_last_report model_name output_schema stream r :
  result (generate_from_stream model_name output_schema stream) = inr r ->
  usage r =
    match last_usage stream with
    | Some u => as_usage u
    | None => {| input_tokens := 0; output_tokens := 0; total_tokens := 0;
                 reasoning_tokens := None |}
    end.
Proof.
  intros H.
  destruct (generate_from_stream_result _ _ _ _ H) as (acc & L & _ & -> & _).
  destruct (stream_loop_text _ _ _ L) as (_ & _ & Hu). exact Hu.
Qed.

End StreamFacts.

Section SlotFacts.
Import OpenAI Stream.
Context {J : Json}.

Lemma array_get_insert {A} (a : list (option A)) i j x :
  array_get (<[i := Some x]> a) j =
  if decide (i = j /\ (i < length a)%nat) then Some x else array_get a j.
Proof.
  unfold array_get. destruct (decide (i = j)) as [->|Hne].
  - destruct (decide (j < length a)%nat) as [Hlt|Hge].
    + rewrite decide_True by auto. rewrite list_lookup_insert_eq by exact Hlt. reflexivity.
    + rewrite decide_False by tauto. rewrite list_insert_ge by lia. reflexivity.
  - rewrite decide_False by tauto. rewrite list_lookup_insert_ne by exact Hne. reflexivity.
Qed.

Lemma array_get_ge {A} (a : list (option A)) i :
  (length a <= i)%nat -> array_get a i = None.
Proof. intros H. unfold array_get. rewrite lookup_ge_None_2 by exact H. reflexivity. Qed.

Lemma array_get_set {A} (a : list (option A)) i j (x : A) :
  array_get (array_set a i x) j = if decide (i = j) then Some x else array_get a j.
Proof.
  unfold array_set. destruct (i <? length a)%nat eqn:E.
  - apply Nat.ltb_lt in E. rewrite array_get_insert.
    destruct (decide (i = j)) as [->|Hne].
    + rewrite decide_True by auto. reflexivity.
    + rewrite decide_False by tauto. reflexivity.
  - apply Nat.ltb_ge in E. unfold array_get.
    destruct (decide (j < length a)%nat) as [Hlt|Hge].
    + rewrite lookup_app_l by exact Hlt. rewrite decide_False by lia. reflexivity.
    + rewrite lookup_app_r by lia.
      destruct (decide (j - length a < i - length a)%nat) as [Hin|Hout].
      * rewrite lookup_app_l by (rewrite length_replicate; exact Hin).
        rewrite lookup_replicate_2 by exact Hin.
        rewrite decide_False by lia. rewrite lookup_ge_None_2 by lia. reflexivity.
      * rewrite lookup_app_r by (rewrite length_replicate; lia).
        rewrite length_replicate.
        destruct (decide (i = j)) as [->|Hne].
        -- replace (j - length a - (j - length a))%nat with 0%nat by lia. reflexivity.
        -- rewrite (lookup_ge_None_2 a) by lia.
           rewrite lookup_ge_None_2 by (simpl; lia). reflexivity.
Qed.

Lemma length_array_set {A} (a : list (option A)) i (x : A) :
  length (array_set a i x) = Nat.max (length a) (S i).
Proof.
  unfold array_set. destruct (i <? length a)%nat eqn:E.
  - apply Nat.ltb_lt in E. rewrite length_insert. lia.
  - apply Nat.ltb_ge in E. rewrite !length_app, length_replicate. simpl. lia.
Qed.

Lemma array_get_Some_lt {A} (a : list (option A)) i (x : A) :
  array_get a i = Some x -> (i < length a)%nat.
Proof.
  unfold array_get. intros H. destruct (a !! i) as [o|] eqn:E; [|discriminate].
  apply lookup_lt_Some in E. exact E.
Qed.

Lemma merge_name_keeps cur tc cur1 :
  merge_name cur tc = inr cur1 -> id cur1 = id cur /\ index cur1 = index cur.
Proof.
  unfold merge_name. destruct (function tc) as [f|]; [|intros [= <-]; auto].
  destruct (fn_name f) as [n|]; [|intros [= <-]; auto].
  destruct (negb _); [|intros [= <-]; auto].
  destruct (function cur); [intros [= <-]; auto | discriminate].
Qed.

Lemma merge_arguments_keeps cur tc cur1 :
  merge_arguments cur tc = inr cur1 -> id cur1 = id cur /\ index cur1 = index cur.
Proof.
  unfold merge_arguments. destruct (function tc) as [f|]; [|intros [= <-]; auto].
  destruct (fn_arguments f) as [n|]; [|intros [= <-]; auto].
  destruct (negb _); [|intros [= <-]; auto].
  destruct (function cur); [intros [= <-]; auto | discriminate].
Qed.

(** X13. A fragment touches the slot of its own index and no other: the
    other positions read as before, the slot is filled afterwards, and the
    array is as long as before or reaches just past the index (the
    positions in between being holes). *)
Theorem fragment_touches_only_its_slot calls tc calls' :
  accumulate_tool_call calls tc = inr calls' ->
  (forall j, j <> index tc -> array_get calls' j = array_get calls j) /\
  is_Some (array_get calls' (index tc)) /\
  length calls' = Nat.max (length calls) (S (index tc)).
Proof.
  unfold accumulate_tool_call.
  destruct (array_get calls (index tc)) as [cur|] eqn:G.
  - pose proof (array_get_Some_lt _ _ _ G) as Hlt.
    destruct (merge_name cur tc) as [e|cur1]; [discriminate|].
    destruct (merge_arguments cur1 tc) as [e|cur2]; [discriminate|].
    intros [= <-]. split; [|split].
    + intros j Hj. rewrite array_get_insert, decide_False by (intros [? _]; congruence).
      reflexivity.
    + rewrite array_get_insert, decide_True by auto. eexists. reflexivity.
    + rewrite length_insert. lia.
  - intros [= <-]. split; [|split].
    + intros j Hj. rewrite array_get_set, decide_False by congruence. reflexivity.
    + rewrite array_get_set, decide_True by reflexivity. eexists. reflexivity.
    + apply length_array_set.
Qed.

Lemma accumulate_tool_call_keeps calls tc calls' i cur :
  array_get calls i = Some cur ->
  accumulate_tool_call calls tc = inr calls' ->
  exists cur', array_get calls' i = Some cur' /\ id cur' = id cur /\ index cur' = index cur.
Proof.
  intros G. unfold accumulate_tool_call.
  destruct (decide (index tc = i)) as [E|Hne].
  - rewrite E, G. pose proof (array_get_Some_lt _ _ _ G) as Hlt.
    destruct (merge_name cur tc) as [e|cur1] eqn:M1; [discriminate|].
    destruct (merge_arguments cur1 tc) as [e|cur2] eqn:M2; [discriminate|].
    intros [= <-]. exists cur2. rewrite array_get_insert, decide_True by auto.
    destruct (merge_name_keeps _ _ _ M1) as (A1 & B1).
    destruct (merge_arguments_keeps _ _ _ M2) as (A2 & B2).
    repeat split; congruence.
  - destruct (array_get calls (index tc)) as [other|] eqn:G'.
    + destruct (merge_name other tc) as [e|cur1]; [discriminate|].
      destruct (merge_arguments cur1 tc) as [e|cur2]; [discriminate|].
      intros [= <-]. exists cur.
      rewrite array_get_insert, decide_False by (intros [? _]; congruence). auto.
    + intros [= <-]. exists cur. rewrite array_get_set, decide_False by congruence. auto.
Qed.

Lemma accumulate_tool_calls_keeps tcs : forall calls calls' i cur,
  array_get calls i = Some cur ->
  accumulate_tool_calls calls tcs = inr calls' ->
  exists cur', array_get calls' i = Some cur' /\ id cur' = id cur /\ index cur' = index cur.
Proof.
  induction tcs as [|tc rest IH]; intros calls calls' i cur G; simpl.
  - intros [= <-]. eauto.
  - destruct (accumulate_tool_call calls tc) as [e|calls1] eqn:A; [discriminate|].
    destruct (accumulate_tool_call_keeps _ _ _ _ _ G A) as (c1 & G1 & I1 & X1).
    intros H. destruct (IH _ _ _ _ G1 H) as (c2 & G2 & I2 & X2).
    exists c2. repeat split; congruence.
Qed.

Lemma on_chunk_keeps acc chunk acc' i cur :
  array_get (toolCalls acc) i = Some cur ->
  on_chunk acc chunk = inr acc' ->
  exists cur', array_get (toolCalls acc') i = Some cur' /\
               id cur' = id cur /\ index cur' = index cur.
Proof.
  intros G. unfold on_chunk.
  set (acc1 := match delta chunk with Some _ => _ | None => acc end).
  assert (T : toolCalls acc1 = toolCalls acc).
  { subst acc1. destruct (delta chunk) as [d|]; [|reflexivity].
    destruct (delta_content d); [|reflexivity]. destruct (negb _); reflexivity. }
  clearbody acc1. rewrite <- T in G.
  destruct (delta chunk) as [d|]; [destruct (delta_tool_calls d) as [tcs|]|].
  - destruct (accumulate_tool_calls (toolCalls acc1) tcs) as [e|calls'] eqn:A; [discriminate|].
    intros [= <-]. simpl. exact (accumulate_tool_calls_keeps _ _ _ _ _ G A).
  - intros [= <-]. simpl. eauto.
  - intros [= <-]. simpl. eauto.
Qed.

(** X14. A slot keeps the id and the index of the fragment that opened it:
    whatever the rest of the stream brings for that position, the ids of
    later fragments are not read. *)
Theorem slot_keeps_the_first_id stream acc acc' i cur :
  array_get (toolCalls acc) i = Some cur ->
  stream_loop stream acc = inr acc' ->
  exists cur', array_get (toolCalls acc') i = Some cur' /\
               id cur' = id cur /\ index cur' = index cur.
Proof.
  revert acc acc' i cur.
  induction stream as [|chunk rest IH]; intros acc acc' i cur G; simpl.
  - intros [= <-]. eauto.
  - destruct (on_chunk acc chunk) as [[e a1]|a1] eqn:O; [discriminate|].
    destruct (on_chunk_keeps _ _ _ _ _ G O) as (c1 & G1 & I1 & X1).
    intros H. destruct (IH _ _ _ _ G1 H) as (c2 & G2 & I2 & X2).
    exists c2. repeat split; congruence.
Qed.

Lemma generic_tool_call_fields tc c :
  generic_tool_call tc = inr c -> call_id c = id tc /\ call_name c = name_of tc.
Proof.
  unfold generic_tool_call, name_of.
  destruct (function tc) as [f|]; simpl.
  - destruct (fn_arguments f) as [a|]; [|intros [= <-]; auto].
    destruct (negb _); [|intros [= <-]; auto].
    destruct (JSON_parse a); [discriminate | intros [= <-]; auto].
  - intros [= <-]; auto.
Qed.

(** X15. The generic tool calls are the slots position by position: the
    list is as long, a hole stays a hole, and a call has the id and the
    name of its slot. *)
Theorem generic_tool_calls_keep_positions calls out :
  map_tool_calls calls = inr out -> same_positions calls out.
Proof.
  unfold same_positions. revert out.
  induction calls as [|[tc|] rest IH]; intros out; simpl.
  - intros [= <-]. constructor.
  - destruct (generic_tool_call tc) as [e|c] eqn:G; [discriminate|].
    destruct (map_tool_calls rest) as [e|out']; [discriminate|].
    intros [= <-]. constructor; [apply generic_tool_call_fields, G | apply IH; reflexivity].
  - destruct (map_tool_calls rest) as [e|out']; [discriminate|].
    intros [= <-]. constructor; [exact I | apply IH; reflexivity].
Qed.

Lemma map_tool_calls_bad_arguments calls tc f a e :
  In (Some tc) calls ->
  function tc = Some f -> fn_arguments f = Some a -> a <> EmptyString ->
  JSON_parse a = inl e ->
  exists e', map_tool_calls calls = inl e'.
Proof.
  intros Hin Hf Ha Hne Hp.
  induction calls as [|[tc'|] rest IH]; simpl in *; [contradiction| |].
  - destruct Hin as [[= ->]|Hin].
    + unfold generic_tool_call. rewrite Hf, Ha.
      apply String.eqb_neq in Hne. rewrite Hne. simpl. rewrite Hp. eauto.
    + destruct (generic_tool_call tc'); [eauto|].
      destruct (IH Hin) as (e' & ->). eauto.
  - destruct Hin as [|Hin]; [discriminate|].
    destruct (IH Hin) as (e' & ->). eauto.
Qed.

(** X16. Arguments that are not JSON reject the whole call: when the
    stream got through and a slot holds arguments that [JSON.parse]
    refuses, [generate] raises although every token has been handed to
    [onToken] already. *)
Theorem unparsable_arguments_reject_the_call model_name output_schema stream acc tc f a e :
  stream_loop stream init_acc = inr acc ->
  In (Some tc) (toolCalls acc) ->
  function tc = Some f -> fn_arguments f = Some a -> a <> EmptyString ->
  JSON_parse a = inl e ->
  (exists e', result (generate_from_stream model_name output_schema stream) = inl e') /\
  tokens (generate_from_stream model_name output_schema stream) = text_fragments stream.
Proof.
  intros L Hin Hf Ha Hne Hp.
  destruct (map_tool_calls_bad_arguments _ _ _ _ _ Hin Hf Ha Hne Hp) as (e' & M).
  destruct (stream_loop_text _ _ _ L) as (He & _).
  unfold generate_from_stream. rewrite L.
  destruct (toolCalls acc) as [|slot slots] eqn:Ecalls; [contradiction|].
  change ((0 <? length (slot :: slots))%nat) with true.
  change ((length (slot :: slots) =? 0)%nat) with false.
  rewrite M. destruct output_schema; simpl; (split; [eauto | exact He]).
Qed.

End SlotFacts.

Section FileFacts.
Import FileUtils Files.
Context {P : NodePath}.
Implicit Types (fs : FileSystem).
Local Arguments validateFileExtension : simpl never.

Lemma read_each_app fs paths : forall done,
  read_each fs paths done =
  match read_each fs paths [] with
  | inl e => inl e
  | inr blocks => inr (done ++ blocks)
  end.
Proof.
  induction paths as [|p rest IH]; intros done; simpl.
  - rewrite app_nil_r. reflexivity.
  - destruct (validateFileExtension p MARKDOWN_EXTENSIONS); [|apply IH].
    destruct (readMarkdownFile fs p) as [e|c]; [reflexivity|].
    rewrite (IH (done ++ _)), (IH [_]).
    destruct (read_each fs rest []); [reflexivity|].
    rewrite <- app_assoc. reflexivity.
Qed.

Lemma read_each_markdown fs paths :
  read_each fs paths [] = read_each fs (markdown_paths paths) [].
Proof.
  unfold markdown_paths. induction paths as [|p rest IH]; simpl; [reflexivity|].
  destruct (validateFileExtension p MARKDOWN_EXTENSIONS) eqn:E; simpl; [|exact IH].
  rewrite E. destruct (readMarkdownFile fs p) as [e|c]; [reflexivity|].
  rewrite read_each_app, (read_each_app fs (List.filter _ rest)), IH. reflexivity.
Qed.

Lemma readMarkdownFiles_read_each fs paths :
  readMarkdownFiles fs (Some paths) =
  match read_each fs paths [] with
  | inl e => inl e
  | inr blocks => inr (join (nl +:+ nl) blocks)
  end.
Proof. destruct paths; reflexivity. Qed.

(** X17. Only the markdown paths of a list count: the paths with any other
    extension are passed over without a look at the file system, so a list
    gives what its markdown paths alone give. *)
Theorem only_markdown_paths_are_read fs paths :
  readMarkdownFiles fs (Some paths) = readMarkdownFiles fs (Some (markdown_paths paths)).
Proof. rewrite !readMarkdownFiles_read_each, read_each_markdown. reflexivity. Qed.

Lemma markdown_paths_valid paths :
  Forall (fun p => validateFileExtension p MARKDOWN_EXTENSIONS = true) (markdown_paths paths).
Proof.
  unfold markdown_paths. induction paths as [|p rest IH]; simpl; [constructor|].
  destruct (validateFileExtension p MARKDOWN_EXTENSIONS) eqn:E; [constructor|]; auto.
Qed.

Lemma read_each_readable fs paths :
  Forall (fun p => validateFileExtension p MARKDOWN_EXTENSIONS = true) paths ->
  Forall (readable fs) paths ->
  read_each fs paths [] =
    inr (List.map (fun p => file_block (basename p) (content_of fs p)) paths).
Proof.
  induction paths as [|p rest IH]; intros Hv Hr; simpl; [reflexivity|].
  inversion Hv as [|? ? Hp Hv']; subst. inversion Hr as [|? ? [c Hc] Hr']; subst.
  rewrite Hp. unfold readMarkdownFile. rewrite Hp. simpl. rewrite Hc.
  rewrite read_each_app, (IH Hv' Hr'). unfold content_of. rewrite Hc. reflexivity.
Qed.

(** X18. When every markdown path of the list is readable the call returns
    one block per markdown path, in the order of the list, each with the
    base name of the path around the text of the file, the blocks joined by
    an empty line. *)
Theorem readable_files_become_blocks fs paths :
  Forall (readable fs) (markdown_paths paths) ->
  readMarkdownFiles fs (Some paths) =
    inr (join (nl +:+ nl)
           (List.map (fun p => file_block (basename p) (content_of fs p))
              (markdown_paths paths))).
Proof.
  intros H.
  rewrite readMarkdownFiles_read_each, read_each_markdown,
    (read_each_readable fs _ (markdown_paths_valid paths) H).
  reflexivity.
Qed.

Lemma read_each_first_failure fs before p after :
  Forall (fun q => validateFileExtension q MARKDOWN_EXTENSIONS = true) (before ++ p :: after) ->
  Forall (readable fs) before ->
  ~ readable fs p ->
  read_each fs (before ++ p :: after) [] = inl (Error (read_error fs p)).
Proof.
  induction before as [|q before IH]; intros Hv Hr Hp; simpl in *.
  - inversion Hv as [|? ? Hq Hv']; subst. rewrite Hq.
    unfold readMarkdownFile, read_error. rewrite Hq. simpl.
    destruct (fs p) as [|m|c] eqn:E; try reflexivity.
    exfalso. apply Hp. exists c. exact E.
  - inversion Hv as [|? ? Hq Hv']; subst. inversion Hr as [|? ? [c Hc] Hr']; subst.
    rewrite Hq. unfold readMarkdownFile at 1. rewrite Hq. simpl. rewrite Hc.
    rewrite read_each_app, (IH Hv' Hr' Hp). reflexivity.
Qed.

(** X19. The call fails on the first markdown path of the list that is
    not readable, with that file's error (not found, or failed to read),
    whatever comes after it; the extension error of [readMarkdownFile]
    cannot come out of [readMarkdownFiles]. *)
Theorem first_unreadable_markdown_file_fails fs paths before p after :
  markdown_paths paths = before ++ p :: after ->
  Forall (readable fs) before ->
  ~ readable fs p ->
  readMarkdownFiles fs (Some paths) = inl (Error (read_error fs p)).
Proof.
  intros Hm Hr Hp.
  pose proof (markdown_paths_valid paths) as Hv. rewrite Hm in Hv.
  rewrite readMarkdownFiles_read_each, read_each_markdown, Hm,
    (read_each_first_failure fs _ _ _ Hv Hr Hp).
  reflexivity.
Qed.

Lemma image_is_not_markdown p :
  isImageFile p = true -> validateFileExtension p MARKDOWN_EXTENSIONS = false.
Proof.
  unfold isImageFile, validateFileExtension, IMAGE_EXTENSIONS, MARKDOWN_EXTENSIONS.
  generalize (toLowerCase (extname p)). intros ext. cbn [existsb].
  rewrite !orb_false_r. intros H.
  repeat (apply orb_prop in H as [H|H]);
    apply String.eqb_eq in H; subst ext; reflexivity.
Qed.

Lemma markdown_paths_app a b : markdown_paths (a ++ b) = markdown_paths a ++ markdown_paths b.
Proof. unfold markdown_paths. apply List.filter_app. Qed.

(** X20. An image path in a mixed list is passed over: the list gives what
    it gives without that path, and [readMarkdownFile] on the path itself
    throws the extension error without a look at the file system. *)
Theorem image_paths_are_passed_over fs before p after :
  isImageFile p = true ->
  readMarkdownFiles fs (Some (before ++ p :: after)) =
    readMarkdownFiles fs (Some (before ++ after)) /\
  readMarkdownFile fs p =
    inl (Error ("Invalid file extension for " +:+ p
                +:+ ". Only .md and .markdown files are supported.")).
Proof.
  intros H. apply image_is_not_markdown in H. split.
  - rewrite !readMarkdownFiles_read_each, read_each_markdown,
      (read_each_markdown fs (before ++ after)).
    rewrite !markdown_paths_app. unfold markdown_paths at 2. simpl. rewrite H. reflexivity.
  - unfold readMarkdownFile. rewrite H. reflexivity.
Qed.

End FileFacts.

Section RequestFacts.
Import FileUtils Files Request.
Context {P : NodePath} {J : Json} {Zd : Zod}.

Lemma push_history_app history : forall messages,
  push_history history messages = messages ++ push_history history [].
Proof.
  induction history as [|msg rest IH]; intros messages; simpl.
  - rewrite app_nil_r. reflexivity.
  - destruct (msg_role msg); try apply IH;
      rewrite (IH (messages ++ _)), (IH [_]), <- app_assoc; reflexivity.
Qed.

Lemma push_history_carried history :
  push_history history [] = List.map wire_of (List.filter carried history).
Proof.
  induction history as [|msg rest IH]; [reflexivity|].
  cbn [push_history List.filter]. unfold carried at 1.
  destruct (msg_role msg) eqn:R;
    first [ exact IH
          | rewrite push_history_app, IH; cbn [List.map app];
            unfold wire_of at 2; rewrite R; reflexivity ].
Qed.

Lemma wire_of_not_system msgs :
  forallb (fun m => negb (is_system m)) (List.map wire_of msgs) = true.
Proof.
  induction msgs as [|m rest IH]; simpl; [reflexivity|].
  rewrite IH. unfold wire_of. destruct (msg_role m); reflexivity.
Qed.

(** X21. For a history the request has at most one system message: the
    configured system text, first, when it is not empty. The system-role
    messages of the history are dropped and every other message gives, in
    the order of the history, its own wire message: a user message with
    the content as it is, an assistant message with null for a falsy
    content and its tool calls mapped, a tool message with its call id
    and its content as text. Neither the file system, nor the files, nor
    the output schema change the messages. *)
Theorem history_request_has_one_system_message fs system history files output_schema :
  prepare_messages fs system (PromptMessages history) files output_schema =
    inr ((if truthy_str system then [WSystem (default EmptyString system)] else [])
         ++ List.map wire_of (List.filter carried history)) /\
  forallb (fun m => negb (is_system m))
    (List.map wire_of (List.filter carried history)) = true /\
  (forall fs' files' output_schema',
     prepare_messages fs' system (PromptMessages history) files' output_schema' =
     prepare_messages fs system (PromptMessages history) files output_schema).
Proof.
  split; [|split; [apply wire_of_not_system | reflexivity]].
  unfold prepare_messages. rewrite push_history_app, push_history_carried.
  destruct system as [s|]; [|reflexivity].
  destruct (truthy_str (Some s)); reflexivity.
Qed.

(** X22. A text prompt with files is rejected before the vendor is asked
    when a markdown file is not readable: the error is the file's own
    (not found, or failed to read) of the first such path, behind the
    prefix of the provider, and the world is left as it was. *)
Theorem unreadable_file_rejects_text_prompt {W : Type} (fs : W -> FileSystem)
    (vendor : ChatRequest -> W -> (Thrown + list OpenAI.Chunk) * W)
    model_name system text paths (tools : option (list (AgentTool W)))
    config output_schema w before p after :
  markdown_paths paths = before ++ p :: after ->
  Forall (readable (fs w)) before ->
  ~ readable (fs w) p ->
  openai_generate fs vendor model_name system (PromptText text) (Some paths)
    tools config output_schema w =
  ([], inl (Error ("File reading error: " +:+ read_error (fs w) p)), w).
Proof.
  intros Hm Hr Hp.
  assert (F : readMarkdownFiles (fs w) (Some paths) = inl (Error (read_error (fs w) p))).
  { pose proof (markdown_paths_valid paths) as Hv. rewrite Hm in Hv.
    rewrite readMarkdownFiles_read_each, read_each_markdown, Hm,
      (read_each_first_failure (fs w) _ _ _ Hv Hr Hp).
    reflexivity. }
  unfold openai_generate, prepare_request, prepare_messages.
  destruct paths as [|q paths'].
  { destruct before; discriminate. }
  rewrite F. destruct system as [s|]; [destruct (truthy_str (Some s))|]; reflexivity.
Qed.

End RequestFacts.

Section AgentOverOpenAI.
Import Agent Request FileUtils.
Context {W : Type} {C : Clock W} {P : NodePath} {J : Json} {Zd : Zod} {Em : Emitter}.
Variable fs : W -> FileSystem.
Variable vendor : ChatRequest -> W -> (Thrown + list OpenAI.Chunk) * W.
Variable model_name : string.
Implicit Types (cfg : AgentConfig W) (st : RunState W).

Lemma dispatch_calls_with_files fileList cfg ts calls : forall st,
  dispatch_calls (with_files fileList cfg) ts calls st = dispatch_calls cfg ts calls st.
Proof.
  induction calls as [|call rest IH]; intros st; simpl; [reflexivity|].
  unfold bind. change (dispatch_call (with_files fileList cfg) ts call st)
    with (dispatch_call cfg ts call st).
  destruct (dispatch_call cfg ts call st) as [[[]|e|] st1]; auto.
Qed.

Lemma run_tools_with_files fileList cfg ts calls st :
  run_tools (with_files fileList cfg) ts calls st = run_tools cfg ts calls st.
Proof.
  unfold run_tools, bind. simpl. rewrite dispatch_calls_with_files. reflexivity.
Qed.

Lemma turn_with_files fileList cfg st :
  provider cfg = openai_provider fs vendor model_name ->
  turn (with_files fileList cfg) st = turn cfg st.
Proof.
  intros Hp. unfold turn, bind, read, update, call_generate. simpl. rewrite Hp. simpl.
  unfold openai_generate, prepare_request, prepare_messages.
  destruct (prepare_tools (tools cfg)) as [e|openAITools]; simpl; [reflexivity|].
  destruct (vendor _ (world st)) as [[e|stream] w']; simpl; [reflexivity|].
  destruct (OpenAI.result _) as [e|response]; simpl; [reflexivity|].
  destruct (tool_calls response) as [calls|]; [|reflexivity].
  destruct (tools cfg) as [ts|]; [|reflexivity].
  unfold push, update, save_if_configured. simpl.
  destruct (saveFunction cfg) as [save|]; simpl.
  - unfold call_save. simpl. destruct (save _ _) as [[e|[]] w'']; simpl; [reflexivity|].
    apply run_tools_with_files.
  - apply run_tools_with_files.
Qed.

Lemma turn_loop_with_files fileList cfg fuel :
  provider cfg = openai_provider fs vendor model_name ->
  forall st, turn_loop fuel (with_files fileList cfg) st = turn_loop fuel cfg st.
Proof.
  intros Hp. induction fuel as [|fuel IH]; intros st; rewrite !turn_loop_unfold;
    change (maxIterations (with_files fileList cfg)) with (maxIterations cfg);
    [reflexivity|].
  rewrite (turn_with_files fileList cfg st Hp).
  destruct (less_than (iterations st) (maxIterations cfg)); [|reflexivity].
  destruct (turn cfg st) as [[[]|e|] st']; auto.
Qed.

(** X23. The files of an agent never reach the OpenAI adapter's request:
    [run] always hands over its history, and for a history the adapter
    does not read files. A run with any list of files is the run without. *)
Theorem agent_files_do_not_reach_the_request fileList cfg fuel input st :
  provider cfg = openai_provider fs vendor model_name ->
  run fuel (with_files fileList cfg) input st = run fuel cfg input st.
Proof.
  intros Hp. rewrite !run_unfold.
  change (after_initialize (with_files fileList cfg) input st)
    with (after_initialize cfg input st).
  rewrite (turn_loop_with_files fileList cfg fuel Hp).
  destruct (turn_loop fuel cfg (after_initialize cfg input st)) as [[[]|e|] st2]; reflexivity.
Qed.

End AgentOverOpenAI.

Section FactoryFacts.
Import Providers.
Context {S : Sdk}.

Lemma split_nonempty sep s : split sep s <> [].
Proof.
  destruct s as [|c rest]; simpl; [discriminate|].
  destruct (Ascii.eqb c sep); [discriminate|].
  destruct (split sep rest); discriminate.
Qed.

Lemma split_no_colon s : no_colon s = true -> split ":"%char s = [s].
Proof.
  induction s as [|c rest IH]; simpl; [reflexivity|].
  intros H. apply andb_prop in H as [Hc Hr].
  apply negb_true_iff in Hc. rewrite Hc, (IH Hr). reflexivity.
Qed.

Lemma split_at_colon p rest :
  no_colon p = true ->
  split ":"%char (p +:+ ":" +:+ rest) = p :: split ":"%char rest.
Proof.
  induction p as [|c p IH]; intros H.
  - reflexivity.
  - simpl in H. apply andb_prop in H as [Hc Hp]. apply negb_true_iff in Hc.
    change (String c p +:+ ":" +:+ rest) with (String c (p +:+ ":" +:+ rest)).
    simpl. rewrite Hc, (IH Hp). reflexivity.
Qed.

(** X24. The provider is chosen by the text before the first colon,
    compared as it stands with the three names, and the model name is the
    text up to the next colon: what follows a second colon is dropped. *)
Theorem model_name_is_cut_at_the_second_colon providerName modelName rest :
  no_colon providerName = true ->
  no_colon modelName = true ->
  createProvider (providerName +:+ ":" +:+ modelName +:+ ":" +:+ rest) =
    call_for providerName (Some modelName) /\
  createProvider (providerName +:+ ":" +:+ modelName) =
    call_for providerName (Some modelName).
Proof.
  intros Hp Hm. unfold createProvider, call_for.
  rewrite !(split_at_colon providerName) by exact Hp.
  rewrite (split_at_colon modelName) by exact Hm.
  rewrite (split_no_colon modelName) by exact Hm.
  split; reflexivity.
Qed.

(** X25. A text without a colon is taken whole as provider name, and the
    constructor is called with [undefined] as model name: for google the
    constructor throws the [TypeError] of [model.startsWith], a provider
    that is made is an [OpenAIProvider] or a [GrokProvider] whose model is
    [undefined], around the client made from the key of the environment
    (and the base URL of Grok), and any other text is refused as a
    provider name. *)
Theorem provider_without_model_name providerName :
  no_colon providerName = true ->
  (providerName = "google" ->
     createProvider providerName =
       inl (TypeError "Cannot read properties of undefined (reading 'startsWith')")) /\
  (forall p, createProvider providerName = inr p ->
     model_of p = None /\
     ((providerName = "openai" /\
       exists client, new_OpenAI (env "OPENAI_API_KEY") None = inr client /\
                      p = OpenAIProvider client None) \/
      (providerName = "grok" /\
       exists client, new_OpenAI (env "GROK_API_KEY") (Some "https://api.x.ai/v1")
                        = inr client /\
                      p = GrokProvider client None))) /\
  (providerName <> "openai" -> providerName <> "google" -> providerName <> "grok" ->
     createProvider providerName =
       inl (Error ("Unsupported provider: " +:+ providerName
                   +:+ ". Use format 'provider:model' (e.g., openai:gpt-4)"))).
Proof.
  intros Hp. unfold createProvider.
  rewrite (split_no_colon providerName) by exact Hp.
  change (nth 0 [providerName] EmptyString) with providerName.
  change ([providerName] !! 1%nat) with (@None string).
  split; [|split].
  - intros ->. reflexivity.
  - intros p.
    destruct (String.eqb providerName "openai") eqn:O.
    { apply String.eqb_eq in O. unfold new_OpenAIProvider, key_or_env. simpl.
      destruct (new_OpenAI (env "OPENAI_API_KEY") None) as [e|client] eqn:N;
        [discriminate|].
      intros [= <-]. split; [reflexivity|]. left. split; [exact O|].
      exists client. split; reflexivity. }
    destruct (String.eqb providerName "google") eqn:G; [discriminate|].
    destruct (String.eqb providerName "grok") eqn:K; [|discriminate].
    apply String.eqb_eq in K. unfold new_GrokProvider, key_or_env. simpl.
    destruct (new_OpenAI (env "GROK_API_KEY") (Some "https://api.x.ai/v1"))
      as [e|client] eqn:N; [discriminate|].
    intros [= <-]. split; [reflexivity|]. right. split; [exact K|].
    exists client. split; reflexivity.
  - intros O G K.
    apply String.eqb_neq in O, G, K. rewrite O, G, K. reflexivity.
Qed.

End FactoryFacts.

Section ChainFacts.
Import Agent Trace Observed Chain.
Context {W : Type} {C : Clock W} {J : Json} {Em : Emitter}.
Implicit Types (cfg : AgentConfig W) (st : RunState W).

Lemma first_terminal_plain (a b : list Obs) :
  forallb not_terminal a = true -> first_terminal (a ++ b) = first_terminal b.
Proof.
  induction a as [|o a IH]; simpl; [reflexivity|].
  intros H. apply andb_prop in H as [Ho Ha].
  destruct o as [[]| | | |]; try discriminate; auto.
Qed.

Lemma plain_not_terminal (l : list Obs) :
  forallb plain l = true -> forallb not_terminal l = true.
Proof.
  rewrite !forallb_forall. intros H o Ho. specialize (H o Ho).
  unfold plain in H. unfold not_terminal.
  destruct (is_start o), (is_error o), (is_response o); auto.
Qed.

(** The promise of a step is settled by the run, which goes with a
    listener for ['error'] attached: resolved with the response the run
    returns, rejected with the payload of the error notification or with the
    error thrown past the loop. *)
Lemma settle_run fuel cfg value st :
  let ran := run (Em := listening Em) fuel cfg value st in
  settle (drop (length (trace st)) (trace (snd ran))) (fst ran) =
  match fst ran with
  | Returned r => Some (Resolved r)
  | Raised e =>
      Some (Rejected
              (if existsb is_error (drop (length (trace st)) (trace (snd ran)))
               then ErrorPayload "execution_error" (message_or_else_string e) e
               else Threw e))
  | Timeout => None
  end.
Proof.
  cbv zeta.
  destruct (run_shape (Em := listening Em) fuel cfg value st)
    as (saved & body & fin & Ht & (Ps & _) & (Pb & _) & _ & Hfin).
  rewrite Ht, drop_app_length.
  assert (Hp : forallb not_terminal
                 ([Emit (ev_start (now (world st)) value)] ++ saved ++ body) = true).
  { rewrite !forallb_app, (plain_not_terminal _ Ps),
      (plain_not_terminal _ (inner_plain _ Pb)). reflexivity. }
  assert (Hne : existsb is_error ([Emit (ev_start (now (world st)) value)] ++ saved ++ body)
                = false).
  { clear -Hp. induction (_ ++ _) as [|o l IH]; simpl in *; [reflexivity|].
    apply andb_prop in Hp as [Ho Hl]. rewrite (IH Hl).
    destruct o as [[]| | | |]; try reflexivity; discriminate. }
  replace ([Emit (ev_start (now (world st)) value)] ++ saved ++ body ++ fin)
    with (([Emit (ev_start (now (world st)) value)] ++ saved ++ body) ++ fin)
    by (rewrite <- !app_assoc; reflexivity).
  unfold settle. rewrite existsb_app, Hne, (first_terminal_plain _ _ Hp). simpl.
  destruct (fst (run fuel cfg value st)) as [r|e|].
  - destruct Hfin as (obs & -> & Po).
    rewrite (first_terminal_plain _ _ (plain_not_terminal _ Po)). reflexivity.
  - destruct Hfin as [-> | (e0 & -> & ->)]; reflexivity.
  - reflexivity.
Qed.

Lemma chain_loop_in_order fuel steps : forall acc st res st',
  chain_loop fuel steps acc st = (ChainResolved res, st') ->
  exists added,
    results res = results acc ++ added /\
    in_step_order fuel steps (results acc) st added st' /\
    length added = length steps /\
    totalLatency res = totalLatency acc + total (fun r => latency_ms (meta r)) added /\
    totalTokens res = totalTokens acc + total (fun r => total_tokens (usage r)) added.
Proof.
  induction steps as [|step rest IH]; intros acc st res st'; simpl.
  - intros [= <- <-]. exists []. rewrite app_nil_r. simpl. repeat split; lia.
  - destruct (input_of step (results acc)) as [e|value] eqn:I; [discriminate|].
    pose proof (settle_run fuel (agent step) value st) as S. cbv zeta in S.
    destruct (run fuel (agent step) value st) as [outcome st1] eqn:R.
    cbn [fst snd] in S. rewrite S.
    destruct outcome as [r|e|]; try discriminate.
    intros H. destruct (IH _ _ _ _ H) as (added & Hr & Ho & Hl & Hlat & Htok). simpl in *.
    exists (r :: added). rewrite Hr, <- app_assoc. simpl.
    split; [reflexivity|]. split; [exists value, st1; auto|].
    repeat split; auto; lia.
Qed.

(** X26. A chain that resolves holds the responses of its steps in the
    order of the steps: one response per step, each the response the run of
    that step returned on the input computed from the responses before it;
    and its totals are the sums of the latencies and of the total tokens of
    these responses. *)
Theorem chain_totals_are_sums fuel (steps : list (ChainStep W)) st res st' :
  chain fuel steps st = (ChainResolved res, st') ->
  in_step_order fuel steps [] st (results res) st' /\
  length (results res) = length steps /\
  totalLatency res = total (fun r => latency_ms (meta r)) (results res) /\
  totalTokens res = total (fun r => total_tokens (usage r)) (results res).
Proof.
  intros H.
  destruct (chain_loop_in_order _ _ _ _ _ _ H) as (added & Hr & Ho & Hl & Hlat & Htok).
  simpl in *. subst added. repeat split; auto.
Qed.

(** X27. The promise of a step never stays pending: a run that returns has
    emitted its response notification, so a chain resolves, rejects or (in
    the model) runs out of fuel. *)
Theorem chain_never_hangs fuel (steps : list (ChainStep W)) st :
  fst (chain fuel steps st) <> ChainPending.
Proof.
  unfold chain. generalize {| results := []; totalLatency := 0; totalTokens := 0 |}.
  revert st. induction steps as [|step rest IH]; intros st acc; simpl; [discriminate|].
  destruct (input_of step (results acc)) as [e|value]; [discriminate|].
  pose proof (settle_run fuel (agent step) value st) as S. cbv zeta in S.
  destruct (run fuel (agent step) value st) as [outcome st1]. cbn [fst snd] in S. rewrite S.
  destruct outcome as [r|e|]; try discriminate. apply IH.
Qed.

(** X28. A step whose run rejects rejects the chain, and the steps after
    it are not run: the chain ends in the state the run left. The reason is
    the payload of the error notification when the run emitted one (the
    error is its [details]), and the error itself otherwise. The run goes
    with the listener of the chain attached. *)
Theorem failing_step_rejects_the_chain fuel (step : ChainStep W) rest acc st value e st' :
  input_of step (results acc) = inr value ->
  run (Em := listening Em) fuel (agent step) value st = (Raised e, st') ->
  chain_loop fuel (step :: rest) acc st =
    (ChainRejected
       (if existsb is_error (drop (length (trace st)) (trace st'))
        then ErrorPayload "execution_error" (message_or_else_string e) e
        else Threw e), st').
Proof.
  intros Hi Hr. simpl. rewrite Hi.
  pose proof (settle_run fuel (agent step) value st) as S. cbv zeta in S.
  rewrite Hr in *. cbn [fst snd] in S. rewrite S. reflexivity.
Qed.

End ChainFacts.

Section BridgeFacts.
Import Agent Trace Observed SSE.
Context {W : Type} {C : Clock W} {J : Json} {Em : Emitter} {Pl : Payload}.
Implicit Types (cfg : AgentConfig W) (st : RunState W).



Lemma tokens_of_no_token (l : list Obs) :
  forallb (fun o => negb (is_token o)) l = true -> tokens_of l = [].
Proof.
  induction l as [|o l IH]; simpl; [reflexivity|].
  intros H. apply andb_prop in H as [Ho Hl].
  destruct o as [[]| | | |]; try discriminate; auto.
Qed.


End BridgeFacts.

(** * The further properties on the samples *)

Section OnMoreSamples.
Import Agent Trace Observed OpenAI Stream Samples FileUtils Files Request Providers Chain
  MoreSamples.
#[local] Existing Instance ms_clock.
#[local] Existing Instance host_json.
#[local] Existing Instance heard.
#[local] Existing Instance plain_names.
#[local] Existing Instance plain_schemas.
#[local] Existing Instance keyed_sdk.

Lemma resolved_run_starts_and_responds_once_witness :
  exists r stf,
    run 1 chat_agent hi (fresh 1000) = (Returned r, stf) /\
    exists middle,
      trace stf =
        trace (fresh 1000) ++ Emit (ev_start (now (world (fresh 1000))) hi) :: middle
                 ++ [Emit (ev_response r)] /\
      forallb plain middle = true.
Proof.
  destruct (run 1 chat_agent hi (fresh 1000)) as [[r|e|] stf] eqn:R;
    try (exfalso; vm_compute in R; discriminate).
  exists r, stf. split; [reflexivity|].
  apply (resolved_run_starts_and_responds_once 1 chat_agent hi (fresh 1000) r stf R).
Defined.

Lemma response_is_last_generated_beyond_single_turn_witness :
  maxIterations (lookup_agent (Some 3)) <> 1 /\
  exists r stf,
    run 5 (lookup_agent (Some 3)) hi (fresh 1000) = (Returned r, stf) /\
    exists added g ms,
      trace stf = trace (fresh 1000) ++ added /\
      last_generated added = Some g /\
      r = set_latency_ms (capture_message g) ms.
Proof.
  split; [vm_compute; discriminate|].
  destruct (run 5 (lookup_agent (Some 3)) hi (fresh 1000)) as [[r|e|] stf] eqn:R;
    try (exfalso; vm_compute in R; discriminate).
  exists r, stf. split; [reflexivity|].
  apply (response_is_last_generated_beyond_single_turn 5 (lookup_agent (Some 3)) hi
           (fresh 1000) r stf); [vm_compute; discriminate | exact R].
Defined.

Lemma negative_ceiling_fails_without_generating_witness :
  run 5 (lookup_agent (Some (-2))) hi (fresh 1000) =
    (Raised (Error "Agent failed to generate a response"),
     after_initialize (lookup_agent (Some (-2))) hi (fresh 1000)) /\
  Frame.extends idle (fresh 1000) (after_initialize (lookup_agent (Some (-2))) hi (fresh 1000)).
Proof.
  apply (negative_ceiling_fails_without_generating 5 (lookup_agent (Some (-2))) hi
           (fresh 1000) (-2)); reflexivity.
Defined.

Lemma without_tools_generate_is_called_at_most_once_witness :
  exists added,
    trace (snd (run 5 chat_agent hi (fresh 1000))) = trace (fresh 1000) ++ added /\
    (count is_generate added <= 1)%nat /\
    forallb no_tool_activity added = true /\
    messages (snd (run 5 chat_agent hi (fresh 1000))) = initial_messages chat_agent hi.
Proof.
  apply (without_tools_generate_is_called_at_most_once 5 chat_agent hi (fresh 1000)).
  reflexivity.
Defined.

Lemma hole_in_tool_calls_stops_dispatch_witness :
  exists st1,
    dispatch_calls (lookup_agent (Some 1)) [lookup] [call_of "lookup" "c1"] (fresh 1000) =
      (Returned tt, st1) /\
    dispatch_calls (lookup_agent (Some 1)) [lookup]
      ([call_of "lookup" "c1"] ++ None :: [call_of "lookup" "c2"]) (fresh 1000) =
      (Raised (TypeError "Cannot read properties of undefined (reading 'name')"), st1).
Proof.
  apply (hole_in_tool_calls_stops_dispatch (lookup_agent (Some 1)) [lookup]
           [call_of "lookup" "c1"] [call_of "lookup" "c2"] (fresh 1000)).
  - discriminate.
  - constructor; [eexists; reflexivity | constructor].
Defined.

Lemma content_is_the_tokens_joined_witness :
  exists r,
    result (generate_from_stream "gpt" (Some any_schema) object_stream) = inr r /\
    tokens (generate_from_stream "gpt" (Some any_schema) object_stream) =
      text_fragments object_stream /\
    content r =
      match Some any_schema, tool_calls r with
      | Some schema, None =>
          fst (structured_output schema (joined (text_fragments object_stream)))
      | _, _ => JStr (joined (text_fragments object_stream))
      end.
Proof.
  destruct (result (generate_from_stream "gpt" (Some any_schema) object_stream))
    as [e|r] eqn:R; [exfalso; vm_compute in R; discriminate|].
  exists r. split; [reflexivity|].
  apply (content_is_the_tokens_joined "gpt" (Some any_schema) object_stream r R).
Defined.

Lemma usage_is_the_last_report_witness :
  exists r,
    result (generate_from_stream "gpt" None counted_stream) = inr r /\
    usage r =
      match last_usage counted_stream with
      | Some u => as_usage u
      | None => {| input_tokens := 0; output_tokens := 0; total_tokens := 0;
                   reasoning_tokens := None |}
      end.
Proof.
  destruct (result (generate_from_stream "gpt" None counted_stream)) as [e|r] eqn:R;
    [exfalso; vm_compute in R; discriminate|].
  exists r. split; [reflexivity|].
  apply (usage_is_the_last_report "gpt" None counted_stream r R).
Defined.

Lemma fragment_touches_only_its_slot_witness :
  let tc := fragment_at 2 (Some "call_1") (Some "lookup") (Some "{}") in
  (forall j, j <> index tc -> array_get [None; None; Some tc] j = array_get [] j) /\
  is_Some (array_get [None; None; Some tc] (index tc)) /\
  length [None; None; Some tc] = Nat.max (length (@nil (option ToolCallDelta))) (S (index tc)).
Proof.
  apply (fragment_touches_only_its_slot []
           (fragment_at 2 (Some "call_1") (Some "lookup") (Some "{}"))
           [None; None; Some (fragment_at 2 (Some "call_1") (Some "lookup") (Some "{}"))]).
  reflexivity.
Defined.

Lemma slot_keeps_the_first_id_witness :
  exists cur',
    array_get (toolCalls (accumulated (opened :: continued))) 0 = Some cur' /\
    id cur' = id (fragment_at 0 (Some "call_1") (Some "look") (Some EmptyString)) /\
    index cur' = index (fragment_at 0 (Some "call_1") (Some "look") (Some EmptyString)).
Proof.
  apply (slot_keeps_the_first_id continued (accumulated [opened])
           (accumulated (opened :: continued)) 0
           (fragment_at 0 (Some "call_1") (Some "look") (Some EmptyString)));
    reflexivity.
Defined.

Lemma generic_tool_calls_keep_positions_witness :
  same_positions sparse_slots
    [ None;
      Some {| call_name := Some "lookup"; call_arguments := JObj [];
              call_id := Some "call_1" |} ].
Proof.
  apply (generic_tool_calls_keep_positions sparse_slots). vm_compute. reflexivity.
Defined.

Lemma unparsable_arguments_reject_the_call_witness :
  (exists e', result (generate_from_stream "gpt" None scenario_E) = inl e') /\
  tokens (generate_from_stream "gpt" None scenario_E) = text_fragments scenario_E.
Proof.
  eapply (unparsable_arguments_reject_the_call "gpt" None scenario_E (accumulated scenario_E)).
  - vm_compute. reflexivity.
  - vm_compute. left. reflexivity.
  - reflexivity.
  - reflexivity.
  - discriminate.
  - vm_compute. reflexivity.
Defined.

Lemma readable_files_become_blocks_witness :
  readMarkdownFiles disk (Some ["docs/notes.md"; "logo.PNG"]) =
    inr (join (nl +:+ nl)
           (List.map (fun p => file_block (basename p) (content_of disk p))
              (markdown_paths ["docs/notes.md"; "logo.PNG"]))).
Proof.
  apply (readable_files_become_blocks disk ["docs/notes.md"; "logo.PNG"]).
  vm_compute. constructor; [eexists; reflexivity | constructor].
Defined.

Lemma first_unreadable_markdown_file_fails_witness :
  readMarkdownFiles disk (Some mixed_paths) = inl (Error (read_error disk "docs/locked.md")).
Proof.
  apply (first_unreadable_markdown_file_fails disk mixed_paths
           ["docs/notes.md"] "docs/locked.md" ["docs/gone.md"]).
  - vm_compute. reflexivity.
  - constructor; [eexists; reflexivity | constructor].
  - intros [c H]. vm_compute in H. discriminate.
Defined.

Lemma image_paths_are_passed_over_witness :
  readMarkdownFiles disk (Some (["docs/notes.md"] ++ "logo.PNG" :: ["docs/gone.md"])) =
    readMarkdownFiles disk (Some (["docs/notes.md"] ++ ["docs/gone.md"])) /\
  readMarkdownFile disk "logo.PNG" =
    inl (Error ("Invalid file extension for " +:+ "logo.PNG"
                +:+ ". Only .md and .markdown files are supported.")).
Proof.
  apply (image_paths_are_passed_over disk ["docs/notes.md"] "logo.PNG" ["docs/gone.md"]).
  vm_compute. reflexivity.
Defined.

Lemma unreadable_file_rejects_text_prompt_witness :
  openai_generate (fun _ : Z => disk) greeting "gpt-4o" None (PromptText "Summarise")
    (Some mixed_paths) None None None 1000 =
  ([], inl (Error ("File reading error: " +:+ read_error disk "docs/locked.md")), 1000).
Proof.
  apply (unreadable_file_rejects_text_prompt (fun _ : Z => disk) greeting "gpt-4o" None
           "Summarise" mixed_paths None None None 1000
           ["docs/notes.md"] "docs/locked.md" ["docs/gone.md"]).
  - vm_compute. reflexivity.
  - constructor; [eexists; reflexivity | constructor].
  - intros [c H]. vm_compute in H. discriminate.
Defined.

Lemma agent_files_do_not_reach_the_request_witness :
  run 1 (with_files (Some mixed_paths) openai_agent) hi (fresh 1000) =
  run 1 openai_agent hi (fresh 1000).
Proof.
  apply (agent_files_do_not_reach_the_request (fun _ : Z => disk) greeting "gpt-4o"
           (Some mixed_paths) openai_agent 1 hi (fresh 1000)).
  reflexivity.
Defined.

Lemma model_name_is_cut_at_the_second_colon_witness :
  createProvider ("openai" +:+ ":" +:+ "ft" +:+ ":" +:+ "gpt-4:acme") =
    call_for "openai" (Some "ft") /\
  createProvider ("openai" +:+ ":" +:+ "ft") = call_for "openai" (Some "ft").
Proof.
  apply (model_name_is_cut_at_the_second_colon "openai" "ft" "gpt-4:acme"); reflexivity.
Defined.

Lemma provider_without_model_name_witness :
  no_colon "google" = true /\
  createProvider "google" =
    inl (TypeError "Cannot read properties of undefined (reading 'startsWith')").
Proof.
  split; [reflexivity|].
  apply (provider_without_model_name "google"); reflexivity.
Defined.

Lemma chain_totals_are_sums_witness :
  exists res st',
    chain 1 [greeter; follow_up] (fresh 1000) = (ChainResolved res, st') /\
    in_step_order 1 [greeter; follow_up] [] (fresh 1000) (results res) st' /\
    length (results res) = length [greeter; follow_up] /\
    totalLatency res = total (fun r => latency_ms (meta r)) (results res) /\
    totalTokens res = total (fun r => total_tokens (usage r)) (results res).
Proof.
  destruct (chain 1 [greeter; follow_up] (fresh 1000)) as [[res|x| |] st'] eqn:R;
    try (exfalso; vm_compute in R; discriminate).
  exists res, st'. split; [reflexivity|].
  apply (chain_totals_are_sums 1 [greeter; follow_up] (fresh 1000) res st' R).
Defined.

Lemma failing_step_rejects_the_chain_witness :
  exists e st',
    run 1 (Chain.agent offline) hi (fresh 1000) = (Raised e, st') /\
    chain_loop 1 (offline :: [greeter]) no_results (fresh 1000) =
      (ChainRejected
         (if existsb is_error (drop (length (trace (fresh 1000))) (trace st'))
          then ErrorPayload "execution_error" (message_or_else_string e) e
          else Threw e), st').
Proof.
  destruct (run 1 (Chain.agent offline) hi (fresh 1000)) as [[r|e|] st'] eqn:R;
    try (exfalso; vm_compute in R; discriminate).
  exists e, st'. split; [reflexivity|].
  apply (failing_step_rejects_the_chain 1 offline [greeter] no_results (fresh 1000) hi e st');
    [reflexivity | exact R].
Defined.

End OnMoreSamples.
